(** * Verification of the webhook, collaboration and error-mapping logic of sim

    A shallow embedding of
    - [apps/sim/lib/webhooks/utils.ts] (Slack / Microsoft Teams signature
      validation, Airtable payload polling, the WhatsApp verification
      request, the provider-specific verification of incoming requests,
      the set-up of Gmail and Outlook polling),
    - [apps/sim/hooks/use-collaborative-workflow.ts] (remote-operation
      handlers, the collaborative edit entry points, the payload of an
      iteration-count change, the name of a duplicated block),
    - [apps/sim/app/api/function/execute/route.ts] (error enhancement for
      user code run in the VM, the script built around the user's code,
      the resolution of environment variables and nested values).

    Conventions of the embedding.
    - A JavaScript string is a [string]; one character stands for one code
      unit, so [charCodeAt] is the character's code.
    - A JavaScript number that the code only uses as an integer (a Unix time,
      a line number, a cursor, a timestamp) is a [Z]; [NaN] and [undefined]
      are [None] in an [option].
    - Calls that leave the module (crypto, fetch, the database, the stores,
      the operation queue, the socket) are parameters of a [Section] or are
      recorded as events. *)

From Stdlib Require Import ZArith NArith List Ascii String Bool Lia.
From Stdlib Require Import Numbers.DecimalString Numbers.DecimalPos Numbers.DecimalZ.
From stdpp Require Import base option list strings gmap.

Local Open Scope Z_scope.
Set Warnings "-register-all,-clear-no-such-hyp".

(* ===================================================================== *)
(** * JavaScript primitives used by the three files                       *)
(* ===================================================================== *)

Module Js.

(** Truthiness of a string: only the empty string is falsy. *)
Definition truthy (s : string) : bool :=
  match s with EmptyString => false | String _ _ => true end.

(** [s.charCodeAt(i)]; [None] is [NaN] (index out of range). *)
Definition charCodeAt (s : string) (i : nat) : option Z :=
  match String.get i s with
  | Some c => Some (Z.of_N (N_of_ascii c))
  | None => None
  end.

(** [ToInt32] as the bitwise operators apply it to a char code: code units
    are below 2^16 and pass unchanged, [NaN] becomes 0. *)
Definition toInt32 (v : option Z) : Z :=
  match v with Some z => z | None => 0 end.

(** [s.startsWith(p)]. *)
Definition startsWith (s p : string) : bool := String.prefix p s.

(** [s.substring(n)] for [n] within the string or past its end. *)
Fixpoint substringFrom (n : nat) (s : string) : string :=
  match n, s with
  | O, _ => s
  | S _, EmptyString => EmptyString
  | S n', String _ s' => substringFrom n' s'
  end.

(** White space as [parseInt] and [trim] see it (the code units below 256 of
    the WhiteSpace and LineTerminator productions). *)
Definition isWhiteSpace (c : ascii) : bool :=
  let n := N_of_ascii c in
  ((9 <=? n) && (n <=? 13) || (n =? 32) || (n =? 160))%N.

Definition isDigit (c : ascii) : bool :=
  let n := N_of_ascii c in ((48 <=? n) && (n <=? 57))%N.

Definition digitValue (c : ascii) : Z := Z.of_N (N_of_ascii c) - 48.

(** Value of a hexadecimal digit, if the character is one. *)
Definition hexValue (c : ascii) : option Z :=
  let n := N_of_ascii c in
  if ((48 <=? n) && (n <=? 57))%N then Some (Z.of_N n - 48)
  else if ((97 <=? n) && (n <=? 102))%N then Some (Z.of_N n - 87)
  else if ((65 <=? n) && (n <=? 70))%N then Some (Z.of_N n - 55)
  else None.

Fixpoint trimStart (s : string) : string :=
  match s with
  | String c s' => if isWhiteSpace c then trimStart s' else s
  | EmptyString => EmptyString
  end.

(** Longest prefix of digits in the given radix, read left to right;
    [None] when the prefix is empty. *)
Fixpoint readDigits (value : Z -> ascii -> option Z) (acc : option Z)
  (s : string) : option Z :=
  match s with
  | String c s' =>
      match value (match acc with Some a => a | None => 0 end) c with
      | Some a' => readDigits value (Some a') s'
      | None => acc
      end
  | EmptyString => acc
  end.

Definition decimalStep (a : Z) (c : ascii) : option Z :=
  if isDigit c then Some (10 * a + digitValue c) else None.

Definition hexStep (a : Z) (c : ascii) : option Z :=
  match hexValue c with Some d => Some (16 * a + d) | None => None end.

(** The sign prefix of [parseInt]: the sign and the rest of the string. *)
Definition readSign (s : string) : Z * string :=
  match s with
  | String "-" s' => (-1, s')
  | String "+" s' => (1, s')
  | _ => (1, s)
  end.

(** [Number.parseInt(s, 10)]. [None] is [NaN]. *)
Definition parseInt10 (s : string) : option Z :=
  let '(sign, body) := readSign (trimStart s) in
  match readDigits decimalStep None body with
  | Some v => Some (sign * v)
  | None => None
  end.

(** [Number.parseInt(s)] with no radix: a [0x] / [0X] prefix selects
    radix 16, anything else radix 10. *)
Definition parseInt (s : string) : option Z :=
  let '(sign, body) := readSign (trimStart s) in
  match body with
  | String "0" (String x rest) =>
      if (Ascii.eqb x "x" || Ascii.eqb x "X")%bool then
        match readDigits hexStep None rest with
        | Some v => Some (sign * v)
        | None => None
        end
      else
        match readDigits decimalStep None body with
        | Some v => Some (sign * v)
        | None => None
        end
  | _ =>
      match readDigits decimalStep None body with
      | Some v => Some (sign * v)
      | None => None
      end
  end.

(** Lower-case hexadecimal digit of a value below 16. *)
Definition hexDigit (d : N) : ascii :=
  if (d <? 10)%N then ascii_of_N (48 + d) else ascii_of_N (87 + d).

(** [b.toString(16)] for a byte value. *)
Definition toString16 (b : N) : string :=
  if (b <? 16)%N then String (hexDigit b) EmptyString
  else String (hexDigit (b / 16)) (String (hexDigit (b mod 16)) EmptyString).

(** [s.padStart(2, '0')]. *)
Definition padStart2 (s : string) : string :=
  match s with
  | EmptyString => "00"
  | String c EmptyString => String "0" (String c EmptyString)
  | _ => s
  end.

(** [s.split('\n')]. *)
Fixpoint splitLines (s : string) : list string :=
  match s with
  | EmptyString => [EmptyString]
  | String c s' =>
      if Ascii.eqb c "010" then EmptyString :: splitLines s'
      else
        match splitLines s' with
        | l :: ls => String c l :: ls
        | [] => [String c EmptyString]
        end
  end.

(** [lines.join('\n')]. *)
Fixpoint joinLines (lines : list string) : string :=
  match lines with
  | [] => EmptyString
  | [l] => l
  | l :: ls => l +:+ String "010" (joinLines ls)
  end.

Fixpoint trimEnd (s : string) : string :=
  match s with
  | EmptyString => EmptyString
  | String c s' =>
      match trimEnd s' with
      | EmptyString => if isWhiteSpace c then EmptyString else String c EmptyString
      | r => String c r
      end
  end.

(** [s.trim()]. *)
Definition trim (s : string) : string := trimEnd (trimStart s).

(** [s.includes(sub)]. *)
Fixpoint includes (s sub : string) : bool :=
  if String.prefix sub s then true
  else
    match s with
    | EmptyString => false
    | String _ s' => includes s' sub
    end.



(** The rest of [s] after the prefix [p], if [s] starts with [p]. *)
Fixpoint stripPrefix (p s : string) : option string :=
  match p, s with
  | EmptyString, _ => Some s
  | String a p', String b s' =>
      if Ascii.eqb a b then stripPrefix p' s' else None
  | String _ _, EmptyString => None
  end.

(** The longest prefix of decimal digits (a greedy [\d*]) and the rest. *)
Fixpoint spanDigits (s : string) : string * string :=
  match s with
  | String c s' =>
      if isDigit c then
        let '(ds, rest) := spanDigits s' in (String c ds, rest)
      else (EmptyString, s)
  | EmptyString => (EmptyString, EmptyString)
  end.

(** Decimal rendering of a number in a template literal. *)
Definition numberToString (z : Z) : string :=
  NilEmpty.string_of_int (Z.to_int z).

(** JavaScript values that cross the module boundaries as JSON (API
    responses, provider configuration, socket payloads). Numbers are the
    integral ones (cursors, counts, timestamps). *)
Inductive jsval : Type :=
  | JUndefined
  | JNull
  | JBool (b : bool)
  | JNum (n : Z)
  | JStr (s : string)
  | JArr (items : list jsval)
  | JObj (members : list (string * jsval)).

Definition jsTruthy (v : jsval) : bool :=
  match v with
  | JUndefined | JNull => false
  | JBool b => b
  | JNum n => negb (n =? 0)
  | JStr s => truthy s
  | JArr _ | JObj _ => true
  end.

(** [typeof v === 'number']. *)
Definition isNumber (v : jsval) : bool :=
  match v with JNum _ => true | _ => false end.

Definition asNumber (v : jsval) : option Z :=
  match v with JNum n => Some n | _ => None end.

End Js.

(* ===================================================================== *)
(** * apps/sim/lib/webhooks/utils.ts: signature validation               *)
(* ===================================================================== *)

Module Webhooks.

(** The comparison loop shared by both validators:
    [if (a.length !== b.length) return false;
     let result = 0;
     for (i = 0; i < a.length; i++) result |= a.charCodeAt(i) ^ b.charCodeAt(i);
     return result === 0]. *)
Definition compareStep (computed provided : string) (result : Z) (i : nat) : Z :=
  Z.lor result
    (Z.lxor (Js.toInt32 (Js.charCodeAt computed i))
            (Js.toInt32 (Js.charCodeAt provided i))).

Definition constantTimeCompare (computed provided : string) : bool :=
  if negb (Nat.eqb (String.length computed) (String.length provided)) then false
  else
    let result :=
      fold_left (compareStep computed provided)
                (seq 0 (String.length computed)) 0 in
    Z.eqb result 0.

(** Plain string equality, the specification of the comparison. *)
Definition stringEquals (a b : string) : bool := String.eqb a b.

Section Crypto.

(** [TextEncoder.encode] / [Buffer.from(_, 'utf8')]. *)
Variable utf8Encode : string -> list Byte.byte.
(** HMAC-SHA256 of a message under a key; [None] when the crypto layer
    throws (the import of the key or the signing is rejected). *)
Variable hmacSha256 : list Byte.byte -> list Byte.byte -> option (list Byte.byte).
(** [Buffer.from(_, 'base64')] and [digest('base64')]. *)
Variable base64Decode : string -> list Byte.byte.
Variable base64Encode : list Byte.byte -> string.

(** [Array.from(bytes).map(b => b.toString(16).padStart(2, '0')).join('')]. *)
Definition hexEncode (bytes : list Byte.byte) : string :=
  fold_right (fun b acc => Js.padStart2 (Js.toString16 (Byte.to_N b)) +:+ acc)
             EmptyString bytes.

Definition slackBaseString (timestamp body : string) : string :=
  "v0:" +:+ timestamp +:+ ":" +:+ body.

(** [validateSlackSignature]; [now] is [Date.now()] in milliseconds. *)
Definition validateSlackSignature (now : Z)
  (signingSecret signature timestamp body : string) : bool :=
  if negb (Js.truthy signingSecret) || negb (Js.truthy signature)
     || negb (Js.truthy timestamp) || negb (Js.truthy body)
  then false
  else
    let currentTime := now / 1000 in
    let tooOld :=
      match Js.parseInt timestamp with
      | Some t => Z.abs (currentTime - t) >? 300
      | None => false (* a comparison with NaN is false *)
      end in
    if tooOld then false
    else
      match hmacSha256 (utf8Encode signingSecret)
                       (utf8Encode (slackBaseString timestamp body)) with
      | None => false (* caught by the catch block *)
      | Some signatureBytes =>
          let computedSignature := "v0=" +:+ hexEncode signatureBytes in
          constantTimeCompare computedSignature signature
      end.

(** [validateMicrosoftTeamsSignature]. *)
Definition validateMicrosoftTeamsSignature
  (hmacSecret signature body : string) : bool :=
  if negb (Js.truthy hmacSecret) || negb (Js.truthy signature)
     || negb (Js.truthy body)
  then false
  else if negb (Js.startsWith signature "HMAC ") then false
  else
    let providedSignature := Js.substringFrom 5 signature in
    match hmacSha256 (base64Decode hmacSecret) (utf8Encode body) with
    | None => false (* caught by the catch block *)
    | Some mac =>
        let computedHash := base64Encode mac in
        constantTimeCompare computedHash providedSignature
    end.

End Crypto.

End Webhooks.

(* ===================================================================== *)
(** * apps/sim/lib/webhooks/utils.ts: Airtable payload polling           *)
(* ===================================================================== *)

Module Airtable.

Import Js.

(** A property read [obj.key]: a missing key reads as [undefined]. *)
Definition getProp (obj : gmap string jsval) (key : string) : jsval :=
  match obj !! key with Some v => v | None => JUndefined end.

(** [v === cursor] for a response value against [currentCursor : number | null]. *)
Definition strictEqCursor (v : jsval) (cursor : option Z) : bool :=
  match v, cursor with
  | JNum a, Some b => a =? b
  | JNull, None => true
  | _, _ => false
  end.

(** Cell values by field id: [Record<string, any>]. *)
Abbreviation Fields := (gmap string jsval).

(** [{ ...a, ...b }]: the members of [b] override those of [a]. *)
Definition spread (a b : Fields) : Fields := b ∪ a.

(** [fields || {}]. *)
Definition orEmpty (fields : option Fields) : Fields :=
  match fields with Some f => f | None => ∅ end.

(** Shape of the payloads returned by [GET .../payloads]. Objects that the
    code walks with [Object.entries] are association lists in entry order. *)
Record CreatedRecord := { cellValuesByFieldId : option Fields }.
Record CellSnapshot := { snapshotCellValuesByFieldId : option Fields }.
Record ChangedRecord := {
  current : option CellSnapshot;
  previous : option CellSnapshot }.
Record TableChanges := {
  createdRecordsById : option (list (string * CreatedRecord));
  changedRecordsById : option (list (string * ChangedRecord)) }.
Record Payload := {
  changedTablesById : option (list (string * TableChanges)) }.

Inductive ChangeType := created | updated.

(** [interface AirtableChange]. *)
Record AirtableChange := {
  tableId : string;
  recordId : string;
  changeType : ChangeType;
  changedFields : Fields;
  previousFields : option Fields }.

(** [Map<string, AirtableChange>]: entries in insertion order. *)
Abbreviation ChangesMap := (list (string * AirtableChange)).

Fixpoint mapGet (key : string) (m : ChangesMap) : option AirtableChange :=
  match m with
  | [] => None
  | (k, v) :: rest => if String.eqb k key then Some v else mapGet key rest
  end.

(** [m.set(key, value)]: an existing key keeps its place, a new key is
    appended. Mutating the object stored under a key is a [mapSet] of the
    mutated object under the same key. *)
Fixpoint mapSet (key : string) (value : AirtableChange) (m : ChangesMap)
  : ChangesMap :=
  match m with
  | [] => [(key, value)]
  | (k, v) :: rest =>
      if String.eqb k key then (k, value) :: rest
      else (k, v) :: mapSet key value rest
  end.

(** [Array.from(m.values())]. *)
Definition mapValues (m : ChangesMap) : list AirtableChange := map snd m.

(** [recordData.current?.cellValuesByFieldId || {}]. *)
Definition currentFieldsOf (r : ChangedRecord) : Fields :=
  match current r with
  | Some snap => orEmpty (snapshotCellValuesByFieldId snap)
  | None => ∅
  end.

(** [recordData.previous?.cellValuesByFieldId], when truthy. *)
Definition previousFieldsOf (r : ChangedRecord) : option Fields :=
  match previous r with
  | Some snap => snapshotCellValuesByFieldId snap
  | None => None
  end.

(** Body of the loop over [createdRecordsById]. *)
Definition handleCreated (tid : string) (m : ChangesMap)
  (entry : string * CreatedRecord) : ChangesMap :=
  let '(rid, recordData) := entry in
  match mapGet rid m with
  | Some existingChange =>
      mapSet rid
        {| tableId := tableId existingChange;
           recordId := recordId existingChange;
           changeType := changeType existingChange;
           changedFields :=
             spread (changedFields existingChange)
                    (orEmpty (cellValuesByFieldId recordData));
           previousFields := previousFields existingChange |} m
  | None =>
      mapSet rid
        {| tableId := tid;
           recordId := rid;
           changeType := created;
           changedFields := orEmpty (cellValuesByFieldId recordData);
           previousFields := None |} m
  end.

(** Body of the loop over [changedRecordsById]. *)
Definition handleChanged (tid : string) (m : ChangesMap)
  (entry : string * ChangedRecord) : ChangesMap :=
  let '(rid, recordData) := entry in
  let currentFields := currentFieldsOf recordData in
  match mapGet rid m with
  | Some existingChange =>
      mapSet rid
        {| tableId := tableId existingChange;
           recordId := recordId existingChange;
           changeType := updated;
           changedFields := spread (changedFields existingChange) currentFields;
           previousFields := previousFields existingChange |} m
  | None =>
      mapSet rid
        {| tableId := tid;
           recordId := rid;
           changeType := updated;
           changedFields := currentFields;
           previousFields := previousFieldsOf recordData |} m
  end.

(** Body of the loop over [Object.entries(payload.changedTablesById)]. *)
Definition handleTable (m : ChangesMap) (entry : string * TableChanges)
  : ChangesMap :=
  let '(tid, tableChanges) := entry in
  let m1 :=
    match createdRecordsById tableChanges with
    | Some recs => fold_left (handleCreated tid) recs m
    | None => m
    end in
  match changedRecordsById tableChanges with
  | Some recs => fold_left (handleChanged tid) recs m1
  | None => m1
  end.

Definition handlePayload (m : ChangesMap) (payload : Payload) : ChangesMap :=
  match changedTablesById payload with
  | Some tables => fold_left handleTable tables m
  | None => m
  end.

(** The "Process and Consolidate Changes" block for one response. *)
Definition consolidate (m : ChangesMap) (receivedPayloads : list Payload)
  : ChangesMap :=
  fold_left handlePayload receivedPayloads m.

(** ** The polling loop *)

Record ResponseBody := {
  error : jsval;
  payloads : option (list Payload);
  cursor : jsval;
  mightHaveMoreField : jsval }.

(** Outcome of [fetch] followed by [response.json()]: a rejection of either
    promise, or the [ok] flag with the parsed body. *)
Inductive FetchResult :=
  | FetchThrows
  | FetchResponse (ok : bool) (body : ResponseBody).

(** What the function does to the outside world, in order. *)
Inductive Event :=
  | EvInitCursor (succeeded : bool)
  | EvFetch (call : nat) (cursorParam : option Z)
  | EvPersist (call : nat) (newCursor : Z) (succeeded : bool).

(** The outside world: what the Airtable API answers to the [call]-th
    request with the given cursor, whether the database update of that
    iteration succeeds, and the lookups of the set-up phase. *)
Record Env := {
  fetchPayloads : nat -> option Z -> FetchResult;
  persistSucceeds : nat -> Z -> bool;
  initCursorSucceeds : bool;
  ownerUserId : option string;
  accessToken : option string }.

(** The local variables of the function together with the webhook row's
    [providerConfig] column and the event log. *)
Record PollState := {
  currentCursor : option Z;
  mightHaveMore : bool;
  payloadsFetched : nat;
  apiCallCount : nat;
  consolidatedChangesMap : ChangesMap;
  allPayloads : list Payload;
  localProviderConfig : gmap string jsval;
  dbProviderConfig : gmap string jsval;
  events : list Event }.

Definition stopPolling (st : PollState) : PollState :=
  {| currentCursor := currentCursor st;
     mightHaveMore := false;
     payloadsFetched := payloadsFetched st;
     apiCallCount := apiCallCount st;
     consolidatedChangesMap := consolidatedChangesMap st;
     allPayloads := allPayloads st;
     localProviderConfig := localProviderConfig st;
     dbProviderConfig := dbProviderConfig st;
     events := events st |}.

Definition cursorKey : string := "externalWebhookCursor".

(** One pass through the body of [while (mightHaveMore)]. Every [break] of
    the source also clears [mightHaveMore], so the loop condition alone
    decides whether another pass follows. *)
Definition pollIteration (env : Env) (st : PollState) : PollState :=
  let count := S (apiCallCount st) in
  if (10 <? count)%nat then
    (* safety break *)
    {| currentCursor := currentCursor st;
       mightHaveMore := false;
       payloadsFetched := payloadsFetched st;
       apiCallCount := count;
       consolidatedChangesMap := consolidatedChangesMap st;
       allPayloads := allPayloads st;
       localProviderConfig := localProviderConfig st;
       dbProviderConfig := dbProviderConfig st;
       events := events st |}
  else
    let fetched := events st ++ [EvFetch count (currentCursor st)] in
    let st1 :=
      {| currentCursor := currentCursor st;
         mightHaveMore := mightHaveMore st;
         payloadsFetched := payloadsFetched st;
         apiCallCount := count;
         consolidatedChangesMap := consolidatedChangesMap st;
         allPayloads := allPayloads st;
         localProviderConfig := localProviderConfig st;
         dbProviderConfig := dbProviderConfig st;
         events := fetched |} in
    match fetchPayloads env count (currentCursor st) with
    | FetchThrows => stopPolling st1
    | FetchResponse ok responseBody =>
        if negb ok || jsTruthy (error responseBody) then stopPolling st1
        else
          let receivedPayloads :=
            match payloads responseBody with Some ps => ps | None => [] end in
          let changes := consolidate (consolidatedChangesMap st) receivedPayloads in
          let fetchedCount := (payloadsFetched st + length receivedPayloads)%nat in
          let raw := allPayloads st ++ receivedPayloads in
          let nextCursor := cursor responseBody in
          let more := jsTruthy (mightHaveMoreField responseBody) in
          let after (cur : option Z) (continue : bool)
                    (localCfg dbCfg : gmap string jsval) (evs : list Event) :=
            {| currentCursor := cur;
               mightHaveMore := continue;
               payloadsFetched := fetchedCount;
               apiCallCount := count;
               consolidatedChangesMap := changes;
               allPayloads := raw;
               localProviderConfig := localCfg;
               dbProviderConfig := dbCfg;
               events := evs |} in
          let unchanged (continue : bool) :=
            after (currentCursor st) continue (localProviderConfig st)
                  (dbProviderConfig st) fetched in
          if jsTruthy nextCursor && isNumber nextCursor
             && negb (strictEqCursor nextCursor (currentCursor st)) then
            match asNumber nextCursor with
            | Some next =>
                let updatedConfig :=
                  <[cursorKey := JNum next]> (localProviderConfig st) in
                if persistSucceeds env count next then
                  after (Some next) more updatedConfig updatedConfig
                        (fetched ++ [EvPersist count next true])
                else
                  (* the catch block rethrows; the outer catch breaks *)
                  after (Some next) false (localProviderConfig st)
                        (dbProviderConfig st)
                        (fetched ++ [EvPersist count next false])
            | None => unchanged more
            end
          else if negb (jsTruthy nextCursor) || negb (isNumber nextCursor) then
            unchanged false
          else if strictEqCursor nextCursor (currentCursor st) then
            unchanged false
          else unchanged more
    end.

(** [while (mightHaveMore) { ... }]; [None] when the fuel runs out before
    the loop condition turns false. *)
Fixpoint pollLoop (fuel : nat) (env : Env) (st : PollState) : option PollState :=
  if mightHaveMore st then
    match fuel with
    | O => None
    | S fuel' => pollLoop fuel' env (pollIteration env st)
    end
  else Some st.

(** The [input] object handed to the workflow. *)
Record WorkflowInput := {
  inputPayloads : list Payload;
  latestPayload : option Payload;
  airtableChanges : list AirtableChange }.

(** How an invocation ends: an early return of the set-up phase, or the
    end of the polling loop with the value returned. *)
Inductive Outcome :=
  | EarlyReturn (evs : list Event)
  | Polled (final : PollState) (result : option WorkflowInput).

Definition optTruthy (s : option string) : bool :=
  match s with Some v => Js.truthy v | None => false end.

(** State at the top of the polling loop, after the set-up phase; [None]
    when the set-up phase returns early. *)
Definition setup (env : Env) (providerConfig : option (gmap string jsval))
  : PollState + list Event :=
  let local0 := match providerConfig with Some c => c | None => ∅ end in
  if negb (jsTruthy (getProp local0 "baseId"))
     || negb (jsTruthy (getProp local0 "externalId")) then inr []
  else if negb (jsTruthy (getProp local0 "credentialId")) then inr []
  else if negb (optTruthy (ownerUserId env)) then inr []
  else
    let storedCursor := getProp local0 cursorKey in
    let missing :=
      match storedCursor with JUndefined | JNull => true | _ => false end in
    let local1 := if missing then <[cursorKey := JNull]> local0 else local0 in
    let db1 :=
      if missing && initCursorSucceeds env then local1 else local0 in
    let evs := if missing then [EvInitCursor (initCursorSucceeds env)] else [] in
    let cur :=
      if jsTruthy storedCursor && isNumber storedCursor
      then asNumber storedCursor else None in
    if negb (optTruthy (accessToken env)) then inr evs
    else
      inl {| currentCursor := cur;
             mightHaveMore := true;
             payloadsFetched := 0;
             apiCallCount := 0;
             consolidatedChangesMap := [];
             allPayloads := [];
             localProviderConfig := local1;
             dbProviderConfig := db1;
             events := evs |}.

Definition buildInput (st : PollState) : option WorkflowInput :=
  let finalConsolidatedChanges := mapValues (consolidatedChangesMap st) in
  if (0 <? length finalConsolidatedChanges)%nat
     || (0 <? length (allPayloads st))%nat
  then Some {| inputPayloads := allPayloads st;
               latestPayload := last (allPayloads st);
               airtableChanges := finalConsolidatedChanges |}
  else None.

(** [fetchAndProcessAirtablePayloads]. *)
Definition fetchAndProcessAirtablePayloads (fuel : nat) (env : Env)
  (providerConfig : option (gmap string jsval)) : option Outcome :=
  match setup env providerConfig with
  | inr evs => Some (EarlyReturn evs)
  | inl st0 =>
      match pollLoop fuel env st0 with
      | Some st => Some (Polled st (buildInput st))
      | None => None
      end
  end.

(** Number of requests sent to the Airtable API. *)
Definition isFetch (e : Event) : bool :=
  match e with EvFetch _ _ => true | _ => false end.

Definition fetchCount (evs : list Event) : nat :=
  length (filter (fun e => isFetch e = true) evs).

Definition outcomeEvents (o : Outcome) : list Event :=
  match o with
  | EarlyReturn evs => evs
  | Polled st _ => events st
  end.

End Airtable.

(* ===================================================================== *)
(** * apps/sim/hooks/use-collaborative-workflow.ts                       *)
(* ===================================================================== *)

Module Collab.

Import Js.

(** A call of a method of one of the stores ([workflowStore],
    [subBlockStore], [variablesStore]). *)
Record StoreCallT := { method : string; args : list jsval }.

(** The object handed to [addToQueue]. *)
Record QueuedOperation := {
  opId : string;
  opOperation : string;
  opTarget : string;
  opPayload : jsval;
  opWorkflowId : string;
  opUserId : string;
  opImmediate : bool }.

(** What the hook does to the stores, the operation queue and the socket. *)
Inductive Effect :=
  | StoreCall (call : StoreCallT)
  | AddToQueue (op : QueuedOperation)
  | EmitWorkflowOperation (operation target : string) (payload : jsval)
  | CancelOperationsForBlock (id : string)
  | CancelOperationsForVariable (id : string).

Record SubBlockConfig := {
  subBlockId : option string;
  dependsOn : option (list string) }.

Record BlockConfig := { subBlocks : option (list SubBlockConfig) }.

Record BlockState := {
  blockType : string;
  isWide : bool;
  advancedMode : bool;
  triggerMode : bool;
  horizontalHandles : bool }.

(** The values the hook closes over: what the socket, the registry, the
    session, the diff store, the block registry and the stores report. *)
Record Ctx := {
  isShowingDiff : bool;
  currentWorkflowId : option string;
  activeWorkflowId : option string;
  sessionUserId : option string;
  (** the [n]-th value returned by [crypto.randomUUID()] *)
  randomUUID : nat -> string;
  blocks : string -> option BlockState;
  getBlock : string -> option BlockConfig;
  (** [subBlockStore.workflowValues[activeWorkflowId]?.[id] || {}] *)
  subBlockValues : string -> list (string * jsval);
  (** whether [variables[id]] is set *)
  variableExists : string -> bool;
  (** name of the variable found under [id] after [addVariable] *)
  processedVariableName : string -> option string }.

(** The two refs of the hook, and how many UUIDs were drawn so far. *)
Record HookState := {
  isApplyingRemoteChange : bool;
  lastPositionTimestamps : gmap string Z;
  uuidsDrawn : nat }.

Abbreviation Result := (HookState * list Effect)%type.

Definition setApplying (flag : bool) (st : HookState) : HookState :=
  {| isApplyingRemoteChange := flag;
     lastPositionTimestamps := lastPositionTimestamps st;
     uuidsDrawn := uuidsDrawn st |}.

Definition setTimestamps (ts : gmap string Z) (st : HookState) : HookState :=
  {| isApplyingRemoteChange := isApplyingRemoteChange st;
     lastPositionTimestamps := ts;
     uuidsDrawn := uuidsDrawn st |}.

(** State after one call of [crypto.randomUUID()]. *)
Definition drawUUID (st : HookState) : HookState :=
  {| isApplyingRemoteChange := isApplyingRemoteChange st;
     lastPositionTimestamps := lastPositionTimestamps st;
     uuidsDrawn := S (uuidsDrawn st) |}.

Definition optTruthy (s : option string) : bool :=
  match s with Some v => truthy v | None => false end.

Definition optStringEq (a b : option string) : bool :=
  match a, b with
  | Some x, Some y => String.eqb x y
  | None, None => true
  | _, _ => false
  end.

(** [!!currentWorkflowId && activeWorkflowId === currentWorkflowId]. *)
Definition isInActiveRoom (ctx : Ctx) : bool :=
  optTruthy (currentWorkflowId ctx)
  && optStringEq (activeWorkflowId ctx) (currentWorkflowId ctx).

(** [s || fallback]. *)
Definition orElse (s : option string) (fallback : string) : string :=
  match s with
  | Some v => if truthy v then v else fallback
  | None => fallback
  end.

Definition queuedOperation (ctx : Ctx) (id operation target : string)
  (payload : jsval) (immediate : bool) : QueuedOperation :=
  {| opId := id;
     opOperation := operation;
     opTarget := target;
     opPayload := payload;
     opWorkflowId := orElse (activeWorkflowId ctx) "";
     opUserId := orElse (sessionUserId ctx) "unknown";
     opImmediate := immediate |}.

Definition call (m : string) (a : list jsval) : StoreCallT :=
  {| method := m; args := a |}.

Definition storeCalls (cs : list StoreCallT) : list Effect := map StoreCall cs.

(** Sequencing of two steps of the hook. *)
Definition andThen (r : Result) (k : HookState -> Result) : Result :=
  let '(st1, e1) := r in
  let '(st2, e2) := k st1 in
  (st2, e1 ++ e2).

(** [executeQueuedOperation]; [localAction] is the list of store calls the
    closure passed by the caller performs. *)
Definition executeQueuedOperation (ctx : Ctx) (operation target : string)
  (payload : jsval) (localAction : list StoreCallT) (st : HookState) : Result :=
  if isApplyingRemoteChange st then (st, [])
  else if isShowingDiff ctx then (st, [])
  else if negb (isInActiveRoom ctx) then (st, [])
  else
    let operationId := randomUUID ctx (uuidsDrawn st) in
    (drawUUID st,
     AddToQueue (queuedOperation ctx operationId operation target payload false)
       :: storeCalls localAction).

(** [executeQueuedDebouncedOperation]. *)
Definition executeQueuedDebouncedOperation (ctx : Ctx)
  (operation target : string) (payload : jsval)
  (localAction : list StoreCallT) (st : HookState) : Result :=
  if isApplyingRemoteChange st then (st, [])
  else if isShowingDiff ctx then (st, [])
  else if negb (isInActiveRoom ctx) then (st, [])
  else
    (st, storeCalls localAction
         ++ [EmitWorkflowOperation operation target payload]).

Definition isSubflowType (type : string) : bool :=
  String.eqb type "loop" || String.eqb type "parallel".

(** [collaborativeAddBlock]; [payload] is the [completeBlockData] object
    built from the arguments and the block configuration. *)
Definition collaborativeAddBlock (ctx : Ctx) (id type name : string)
  (position data parentId extent : jsval) (autoConnectEdge : option jsval)
  (payload : jsval) (st : HookState) : Result :=
  if isShowingDiff ctx then (st, [])
  else if negb (isInActiveRoom ctx) then (st, [])
  else
    let applyLocally :=
      storeCalls
        (call "workflowStore.addBlock"
              [JStr id; JStr type; JStr name; position; data; parentId; extent]
         :: match autoConnectEdge with
            | Some edge => [call "workflowStore.addEdge" [edge]]
            | None => []
            end) in
    let enqueue :=
      AddToQueue (queuedOperation ctx (randomUUID ctx (uuidsDrawn st))
                                  "add" "block" payload false) in
    match getBlock ctx type with
    | None =>
        if isSubflowType type then
          if isApplyingRemoteChange st then (st, applyLocally)
          else (drawUUID st, enqueue :: applyLocally)
        else (st, [])
    | Some _ =>
        if isApplyingRemoteChange st then (st, [])
        else (drawUUID st, enqueue :: applyLocally)
    end.

Definition idPayload (id : string) : jsval := JObj [("id", JStr id)].

Definition collaborativeRemoveBlock (ctx : Ctx) (id : string)
  (st : HookState) : Result :=
  andThen (st, [CancelOperationsForBlock id])
    (executeQueuedOperation ctx "remove" "block" (idPayload id)
       [call "workflowStore.removeBlock" [JStr id]]).

Definition collaborativeUpdateBlockPosition (ctx : Ctx) (id : string)
  (position : jsval) (st : HookState) : Result :=
  executeQueuedDebouncedOperation ctx "update-position" "block"
    (JObj [("id", JStr id); ("position", position)])
    [call "workflowStore.updateBlockPosition" [JStr id; position]] st.

Definition collaborativeUpdateBlockName (ctx : Ctx) (id name : string)
  (st : HookState) : Result :=
  executeQueuedOperation ctx "update-name" "block"
    (JObj [("id", JStr id); ("name", JStr name)])
    [call "workflowStore.updateBlockName" [JStr id; JStr name]] st.

Definition collaborativeToggleBlockEnabled (ctx : Ctx) (id : string)
  (st : HookState) : Result :=
  executeQueuedOperation ctx "toggle-enabled" "block" (idPayload id)
    [call "workflowStore.toggleBlockEnabled" [JStr id]] st.

Definition collaborativeUpdateParentId (ctx : Ctx) (id parentId : string)
  (st : HookState) : Result :=
  executeQueuedOperation ctx "update-parent" "block"
    (JObj [("id", JStr id); ("parentId", JStr parentId);
           ("extent", JStr "parent")])
    [call "workflowStore.updateParentId"
          [JStr id; JStr parentId; JStr "parent"]] st.

(** The four toggles that read the block first:
    [if (!currentBlock) return], then [executeQueuedOperation]. *)
Definition toggleVia (ctx : Ctx) (operation field storeMethod : string)
  (current : BlockState -> bool) (id : string) (st : HookState) : Result :=
  match blocks ctx id with
  | None => (st, [])
  | Some currentBlock =>
      executeQueuedOperation ctx operation "block"
        (JObj [("id", JStr id); (field, JBool (negb (current currentBlock)))])
        [call storeMethod [JStr id]] st
  end.

Definition collaborativeToggleBlockWide (ctx : Ctx) :=
  toggleVia ctx "update-wide" "isWide" "workflowStore.toggleBlockWide" isWide.

Definition collaborativeToggleBlockAdvancedMode (ctx : Ctx) :=
  toggleVia ctx "update-advanced-mode" "advancedMode"
            "workflowStore.toggleBlockAdvancedMode" advancedMode.

Definition collaborativeToggleBlockTriggerMode (ctx : Ctx) :=
  toggleVia ctx "update-trigger-mode" "triggerMode"
            "workflowStore.toggleBlockTriggerMode" triggerMode.

Definition collaborativeToggleBlockHandles (ctx : Ctx) :=
  toggleVia ctx "toggle-handles" "horizontalHandles"
            "workflowStore.toggleBlockHandles" horizontalHandles.

Definition collaborativeAddEdge (ctx : Ctx) (edge : jsval)
  (st : HookState) : Result :=
  executeQueuedOperation ctx "add" "edge" edge
    [call "workflowStore.addEdge" [edge]] st.

Definition collaborativeRemoveEdge (ctx : Ctx) (edgeId : string)
  (st : HookState) : Result :=
  executeQueuedOperation ctx "remove" "edge" (idPayload edgeId)
    [call "workflowStore.removeEdge" [JStr edgeId]] st.

Definition subblockPayload (blockId subblockId : string) (value : jsval) : jsval :=
  JObj [("blockId", JStr blockId); ("subblockId", JStr subblockId);
        ("value", value)].

Definition setValueCall (blockId subblockId : string) (value : jsval) : StoreCallT :=
  call "subBlockStore.setValue" [JStr blockId; JStr subblockId; value].

(** [Array.isArray(sb.dependsOn) && sb.dependsOn.includes(subblockId)]. *)
Definition dependsOnIncludes (subblockId : string) (sb : SubBlockConfig) : bool :=
  match dependsOn sb with
  | Some deps => existsb (String.eqb subblockId) deps
  | None => false
  end.

(** The sub-block configurations of the block's type:
    [getBlock(blocks[blockId].type)?.subBlocks], empty when any link of
    the chain is missing. *)
Definition subBlockConfigs (ctx : Ctx) (blockId : string) : list SubBlockConfig :=
  match blocks ctx blockId with
  | None => []
  | Some b =>
      if truthy (blockType b) then
        match getBlock ctx (blockType b) with
        | Some blockConfig =>
            match subBlocks blockConfig with
            | Some sbs => sbs
            | None => []
            end
        | None => []
        end
      else []
  end.

(** The [dependents] array of the declarative clearing: the sub-block
    configurations of the block's type that depend on [subblockId]. *)
Definition dependentsOf (ctx : Ctx) (blockId subblockId : string)
  : list SubBlockConfig :=
  List.filter (dependsOnIncludes subblockId) (subBlockConfigs ctx blockId).

(** The [for (const dep of dependents)] loop of the declarative clearing.
    [recur depId] is the recursive call
    [collaborativeSetSubblockValue(blockId, depId, '', { _visited })];
    the accumulator holds the shared [visited] set, the state and the
    effects so far. *)
Fixpoint cascade
  (recur : string -> gset string -> HookState -> option (gset string * Result))
  (subblockId : string) (deps : list SubBlockConfig)
  (acc : gset string * Result) : option (gset string * Result) :=
  match deps with
  | [] => Some acc
  | dep :: rest =>
      match subBlockId dep with
      | None => cascade recur subblockId rest acc
      | Some depId =>
          if negb (truthy depId) || String.eqb depId subblockId
          then cascade recur subblockId rest acc
          else
            match recur depId (fst acc) (fst (snd acc)) with
            | None => None
            | Some (visited', (st', effs')) =>
                cascade recur subblockId rest
                        (visited', (st', snd (snd acc) ++ effs'))
            end
      end
  end.

(** [collaborativeSetSubblockValue] with the [_visited] set of its options
    made explicit: the set is one object shared by the whole cascade, so
    it is threaded through the recursive calls and returned. [None] when
    the fuel is used up. *)
Fixpoint setSubblockValue (fuel : nat) (ctx : Ctx) (blockId subblockId : string)
  (value : jsval) (visited : gset string) (st : HookState)
  : option (gset string * Result) :=
  match fuel with
  | O => None
  | S fuel' =>
      if isApplyingRemoteChange st then Some (visited, (st, []))
      else if isShowingDiff ctx then Some (visited, (st, []))
      else if negb (isInActiveRoom ctx) then Some (visited, (st, []))
      else
        let operationId := randomUUID ctx (uuidsDrawn st) in
        let first :=
          [AddToQueue (queuedOperation ctx operationId "subblock-update"
                         "subblock" (subblockPayload blockId subblockId value)
                         false);
           StoreCall (setValueCall blockId subblockId value)] in
        let st1 := drawUUID st in
        if bool_decide (subblockId ∈ visited) then Some (visited, (st1, first))
        else
          cascade
            (fun depId => setSubblockValue fuel' ctx blockId depId (JStr ""))
            subblockId (dependentsOf ctx blockId subblockId)
            ({[subblockId]} ∪ visited, (st1, first))
  end.

(** [collaborativeSetSubblockValue(blockId, subblockId, value)] as the
    components call it, with a fresh [visited] set. *)
Definition collaborativeSetSubblockValue (fuel : nat) (ctx : Ctx)
  (blockId subblockId : string) (value : jsval) (st : HookState)
  : option Result :=
  match setSubblockValue fuel ctx blockId subblockId value ∅ st with
  | Some (_, r) => Some r
  | None => None
  end.

(** [collaborativeSetTagSelection]. *)
Definition collaborativeSetTagSelection (ctx : Ctx)
  (blockId subblockId : string) (value : jsval) (st : HookState) : Result :=
  if isApplyingRemoteChange st then (st, [])
  else if negb (isInActiveRoom ctx) then (st, [])
  else
    let operationId := randomUUID ctx (uuidsDrawn st) in
    (drawUUID st,
     [StoreCall (setValueCall blockId subblockId value);
      AddToQueue (queuedOperation ctx operationId "subblock-update" "subblock"
                    (subblockPayload blockId subblockId value) true)]).

(** [collaborativeDuplicateBlock]; [blockData newId] is the
    [duplicatedBlockData] object built for the new id. *)
Definition collaborativeDuplicateBlock (ctx : Ctx) (sourceId : string)
  (blockData : string -> jsval) (st : HookState) : Result :=
  if negb (isInActiveRoom ctx) then (st, [])
  else
    match blocks ctx sourceId with
    | None => (st, [])
    | Some sourceBlock =>
        let newId := randomUUID ctx (uuidsDrawn st) in
        let addBlock :=
          call "workflowStore.addBlock"
               [JStr newId; JStr (blockType sourceBlock); blockData newId] in
        let values := subBlockValues ctx sourceId in
        let applyValues :=
          if optTruthy (activeWorkflowId ctx) && (0 <? length values)%nat
          then map (fun kv => setValueCall newId (fst kv) (snd kv)) values
          else [] in
        andThen (drawUUID st, [StoreCall addBlock])
          (executeQueuedOperation ctx "duplicate" "block" (blockData newId)
             (addBlock :: applyValues))
    end.

(** Shape shared by the loop / parallel updates: return unless the block
    exists and has the expected type, then [executeQueuedOperation] with
    the configuration object [payload]. *)
Definition subflowUpdate (ctx : Ctx) (nodeId expectedType : string)
  (payload : jsval) (localAction : list StoreCallT) (st : HookState) : Result :=
  match blocks ctx nodeId with
  | None => (st, [])
  | Some currentBlock =>
      if negb (String.eqb (blockType currentBlock) expectedType) then (st, [])
      else executeQueuedOperation ctx "update" "subflow" payload localAction st
  end.

Definition collaborativeUpdateLoopType (ctx : Ctx) (loopId loopType : string)
  (payload : jsval) : HookState -> Result :=
  subflowUpdate ctx loopId "loop" payload
    [call "workflowStore.updateLoopType" [JStr loopId; JStr loopType]].

Definition collaborativeUpdateParallelType (ctx : Ctx)
  (parallelId parallelType : string) (newCount newDistribution payload : jsval)
  : HookState -> Result :=
  subflowUpdate ctx parallelId "parallel" payload
    [call "workflowStore.updateParallelType" [JStr parallelId; JStr parallelType];
     call "workflowStore.updateParallelCount" [JStr parallelId; newCount];
     call "workflowStore.updateParallelCollection" [JStr parallelId; newDistribution]].

Definition collaborativeUpdateIterationCount (ctx : Ctx)
  (nodeId iterationType : string) (count : Z) (payload : jsval)
  : HookState -> Result :=
  subflowUpdate ctx nodeId iterationType payload
    [call (if String.eqb iterationType "loop"
           then "workflowStore.updateLoopCount"
           else "workflowStore.updateParallelCount")
          [JStr nodeId; JNum count]].

Definition collaborativeUpdateIterationCollection (ctx : Ctx)
  (nodeId iterationType collection : string) (payload : jsval)
  : HookState -> Result :=
  subflowUpdate ctx nodeId iterationType payload
    [call (if String.eqb iterationType "loop"
           then "workflowStore.updateLoopCollection"
           else "workflowStore.updateParallelCollection")
          [JStr nodeId; JStr collection]].

(** The store call made for a variable field, by the local action of
    [collaborativeUpdateVariable] and by [handleVariableUpdate]. *)
Definition updateVariableCalls (variableId field : string) (value : jsval)
  : list StoreCallT :=
  if String.eqb field "name" || String.eqb field "value"
     || String.eqb field "type"
  then [call "variablesStore.updateVariable"
             [JStr variableId; JObj [(field, value)]]]
  else [].

Definition collaborativeUpdateVariable (ctx : Ctx) (variableId field : string)
  (value : jsval) (st : HookState) : Result :=
  executeQueuedOperation ctx "variable-update" "variable"
    (JObj [("variableId", JStr variableId); ("field", JStr field);
           ("value", value)])
    (updateVariableCalls variableId field value) st.

Definition collaborativeAddVariable (ctx : Ctx) (variableData : jsval)
  (st : HookState) : Result :=
  let id := randomUUID ctx (uuidsDrawn st) in
  andThen
    (drawUUID st,
     [StoreCall (call "variablesStore.addVariable" [variableData; JStr id])])
    (fun st1 =>
       match processedVariableName ctx id with
       | Some name =>
           executeQueuedOperation ctx "add" "variable"
             (JObj [("variableData", variableData); ("id", JStr id);
                    ("name", JStr name)]) [] st1
       | None => (st1, [])
       end).

Definition collaborativeDeleteVariable (ctx : Ctx) (variableId : string)
  (st : HookState) : Result :=
  andThen (st, [CancelOperationsForVariable variableId])
    (executeQueuedOperation ctx "remove" "variable"
       (JObj [("variableId", JStr variableId)])
       [call "variablesStore.deleteVariable" [JStr variableId]]).

Definition collaborativeDuplicateVariable (ctx : Ctx) (variableId : string)
  (st : HookState) : Result :=
  let newId := randomUUID ctx (uuidsDrawn st) in
  if negb (variableExists ctx variableId) then (drawUUID st, [])
  else
    executeQueuedOperation ctx "duplicate" "variable"
      (JObj [("sourceVariableId", JStr variableId); ("id", JStr newId)])
      [call "variablesStore.duplicateVariable" [JStr variableId; JStr newId]]
      (drawUUID st).

(** The entry points of the hook: the two internal helpers and the
    collaborative functions it returns. *)
Inductive CollabCall :=
  | ExecuteQueuedOperation (operation target : string) (payload : jsval)
                           (localAction : list StoreCallT)
  | ExecuteQueuedDebouncedOperation (operation target : string)
                           (payload : jsval) (localAction : list StoreCallT)
  | AddBlock (id type name : string) (position data parentId extent : jsval)
             (autoConnectEdge : option jsval) (payload : jsval)
  | RemoveBlock (id : string)
  | UpdateBlockPosition (id : string) (position : jsval)
  | UpdateBlockName (id name : string)
  | ToggleBlockEnabled (id : string)
  | UpdateParentId (id parentId : string)
  | ToggleBlockWide (id : string)
  | ToggleBlockAdvancedMode (id : string)
  | ToggleBlockTriggerMode (id : string)
  | ToggleBlockHandles (id : string)
  | DuplicateBlock (sourceId : string) (blockData : string -> jsval)
  | AddEdge (edge : jsval)
  | RemoveEdge (edgeId : string)
  | SetSubblockValue (blockId subblockId : string) (value : jsval)
  | SetTagSelection (blockId subblockId : string) (value : jsval)
  | UpdateVariable (variableId field : string) (value : jsval)
  | AddVariable (variableData : jsval)
  | DeleteVariable (variableId : string)
  | DuplicateVariable (variableId : string)
  | UpdateLoopType (loopId loopType : string) (payload : jsval)
  | UpdateParallelType (parallelId parallelType : string)
                       (newCount newDistribution payload : jsval)
  | UpdateIterationCount (nodeId iterationType : string) (count : Z)
                         (payload : jsval)
  | UpdateIterationCollection (nodeId iterationType collection : string)
                              (payload : jsval).

Definition runCall (fuel : nat) (ctx : Ctx) (c : CollabCall) (st : HookState)
  : option Result :=
  match c with
  | ExecuteQueuedOperation o t p a => Some (executeQueuedOperation ctx o t p a st)
  | ExecuteQueuedDebouncedOperation o t p a =>
      Some (executeQueuedDebouncedOperation ctx o t p a st)
  | AddBlock id type name pos data parent extent edge p =>
      Some (collaborativeAddBlock ctx id type name pos data parent extent edge p st)
  | RemoveBlock id => Some (collaborativeRemoveBlock ctx id st)
  | UpdateBlockPosition id pos => Some (collaborativeUpdateBlockPosition ctx id pos st)
  | UpdateBlockName id name => Some (collaborativeUpdateBlockName ctx id name st)
  | ToggleBlockEnabled id => Some (collaborativeToggleBlockEnabled ctx id st)
  | UpdateParentId id parent => Some (collaborativeUpdateParentId ctx id parent st)
  | ToggleBlockWide id => Some (collaborativeToggleBlockWide ctx id st)
  | ToggleBlockAdvancedMode id => Some (collaborativeToggleBlockAdvancedMode ctx id st)
  | ToggleBlockTriggerMode id => Some (collaborativeToggleBlockTriggerMode ctx id st)
  | ToggleBlockHandles id => Some (collaborativeToggleBlockHandles ctx id st)
  | DuplicateBlock src data => Some (collaborativeDuplicateBlock ctx src data st)
  | AddEdge e => Some (collaborativeAddEdge ctx e st)
  | RemoveEdge e => Some (collaborativeRemoveEdge ctx e st)
  | SetSubblockValue b s v => collaborativeSetSubblockValue fuel ctx b s v st
  | SetTagSelection b s v => Some (collaborativeSetTagSelection ctx b s v st)
  | UpdateVariable v f x => Some (collaborativeUpdateVariable ctx v f x st)
  | AddVariable d => Some (collaborativeAddVariable ctx d st)
  | DeleteVariable v => Some (collaborativeDeleteVariable ctx v st)
  | DuplicateVariable v => Some (collaborativeDuplicateVariable ctx v st)
  | UpdateLoopType l t p => Some (collaborativeUpdateLoopType ctx l t p st)
  | UpdateParallelType i t c d p =>
      Some (collaborativeUpdateParallelType ctx i t c d p st)
  | UpdateIterationCount n t c p =>
      Some (collaborativeUpdateIterationCount ctx n t c p st)
  | UpdateIterationCollection n t c p =>
      Some (collaborativeUpdateIterationCollection ctx n t c p st)
  end.

(** A sequence of calls, one after the other. *)
Fixpoint runCalls (fuel : nat) (ctx : Ctx) (cs : list CollabCall)
  (st : HookState) : option Result :=
  match cs with
  | [] => Some (st, [])
  | c :: rest =>
      match runCall fuel ctx c st with
      | None => None
      | Some (st1, e1) =>
          match runCalls fuel ctx rest st1 with
          | None => None
          | Some (st2, e2) => Some (st2, e1 ++ e2)
          end
      end
  end.

(** ** Handlers of remote events *)

(** The [data] of a remote workflow operation as far as the handler
    distinguishes it: the two operations that touch the position
    timestamps, and every other operation by the store calls it makes. *)
Inductive RemoteOperation :=
  | RemoteUpdatePosition (id : string) (position : jsval) (timestamp : option Z)
  | RemoteRemoveBlock (id : string)
  | RemoteOther (calls : list StoreCallT).

(** [!data.timestamp]. *)
Definition timestampMissing (timestamp : option Z) : bool :=
  match timestamp with
  | None => true
  | Some t => t =? 0
  end.

Definition updatePositionCall (id : string) (position : jsval) : StoreCallT :=
  call "workflowStore.updateBlockPosition" [JStr id; position].

(** [lastPositionTimestamps.current.get(blockId) || 0]. *)
Definition lastTimestampOf (ts : gmap string Z) (blockId : string) : Z :=
  match ts !! blockId with Some t => t | None => 0 end.

(** The body of the [try] block of [handleWorkflowOperation]: the new
    timestamp map and the store calls made. *)
Definition applyRemoteOperation (data : RemoteOperation) (ts : gmap string Z)
  : gmap string Z * list StoreCallT :=
  match data with
  | RemoteUpdatePosition blockId position timestamp =>
      if timestampMissing timestamp then
        (ts, [updatePositionCall blockId position])
      else
        let updateTimestamp := match timestamp with Some t => t | None => 0 end in
        let lastTimestamp := lastTimestampOf ts blockId in
        if updateTimestamp >=? lastTimestamp then
          (<[blockId := updateTimestamp]> ts,
           [updatePositionCall blockId position])
        else (ts, [])
  | RemoteRemoveBlock id =>
      (delete id ts, [call "workflowStore.removeBlock" [JStr id]])
  | RemoteOther calls => (ts, calls)
  end.

(** [handleWorkflowOperation]. *)
Definition handleWorkflowOperation (data : RemoteOperation) (st : HookState)
  : Result :=
  if isApplyingRemoteChange st then (st, [])
  else
    let st1 := setApplying true st in
    let '(ts, calls) := applyRemoteOperation data (lastPositionTimestamps st1) in
    (setApplying false (setTimestamps ts st1), storeCalls calls).

(** [handleSubblockUpdate]. *)
Definition handleSubblockUpdate (blockId subblockId : string) (value : jsval)
  (st : HookState) : Result :=
  if isApplyingRemoteChange st then (st, [])
  else
    let st1 := setApplying true st in
    (setApplying false st1, [StoreCall (setValueCall blockId subblockId value)]).

(** [handleVariableUpdate]. *)
Definition handleVariableUpdate (variableId field : string) (value : jsval)
  (st : HookState) : Result :=
  if isApplyingRemoteChange st then (st, [])
  else
    let st1 := setApplying true st in
    (setApplying false st1,
     storeCalls (updateVariableCalls variableId field value)).

Inductive RemoteEvent :=
  | WorkflowOperation (data : RemoteOperation)
  | SubblockUpdate (blockId subblockId : string) (value : jsval)
  | VariableUpdate (variableId field : string) (value : jsval).

Definition handleRemote (ev : RemoteEvent) (st : HookState) : Result :=
  match ev with
  | WorkflowOperation data => handleWorkflowOperation data st
  | SubblockUpdate b s v => handleSubblockUpdate b s v st
  | VariableUpdate v f x => handleVariableUpdate v f x st
  end.

(** The store calls a remote event makes once the guard has been passed. *)
Definition remoteStoreCalls (ev : RemoteEvent) (ts : gmap string Z)
  : gmap string Z * list StoreCallT :=
  match ev with
  | WorkflowOperation data => applyRemoteOperation data ts
  | SubblockUpdate b s v => (ts, [setValueCall b s v])
  | VariableUpdate v f x => (ts, updateVariableCalls v f x)
  end.

(** A remote event whose store calls make subscribers call back into the
    hook before the handler's [finally] block runs: [callbacks] are those
    calls, in order. They run with the flag set by the handler. *)
Definition handleRemoteWithCallbacks (fuel : nat) (ctx : Ctx) (ev : RemoteEvent)
  (callbacks : list CollabCall) (st : HookState) : option Result :=
  if isApplyingRemoteChange st then Some (st, [])
  else
    let st1 := setApplying true st in
    let '(ts, calls) := remoteStoreCalls ev (lastPositionTimestamps st1) in
    match runCalls fuel ctx callbacks (setTimestamps ts st1) with
    | None => None
    | Some (st2, effs) => Some (setApplying false st2, storeCalls calls ++ effs)
    end.

(** The effect that runs when the active workflow changes:
    [if (activeWorkflowId && currentWorkflowId !== activeWorkflowId)
       lastPositionTimestamps.current.clear()]. *)
Definition onActiveWorkflowChange (ctx : Ctx) (st : HookState) : HookState :=
  if optTruthy (activeWorkflowId ctx)
     && negb (optStringEq (currentWorkflowId ctx) (activeWorkflowId ctx))
  then setTimestamps ∅ st
  else st.

(** A sequence of remote events handled one after the other. *)
Fixpoint handleAll (evs : list RemoteEvent) (st : HookState) : Result :=
  match evs with
  | [] => (st, [])
  | ev :: rest => andThen (handleRemote ev st) (handleAll rest)
  end.

Definition isEnqueueOrEmit (e : Effect) : bool :=
  match e with
  | AddToQueue _ | EmitWorkflowOperation _ _ _ => true
  | _ => false
  end.

Definition isAddToQueue (e : Effect) : bool :=
  match e with AddToQueue _ => true | _ => false end.

Definition isStoreCall (e : Effect) : bool :=
  match e with StoreCall _ => true | _ => false end.

(** The three preconditions of a collaborative edit. *)
Definition mayEdit (ctx : Ctx) (st : HookState) : bool :=
  isInActiveRoom ctx && negb (isShowingDiff ctx)
  && negb (isApplyingRemoteChange st).

End Collab.

(* ===================================================================== *)
(** * apps/sim/app/api/function/execute/route.ts: error enhancement      *)
(* ===================================================================== *)

Module FunctionExecute.

Import Js.

(** The thrown value as the two functions read it. A missing [message] or
    [name] is the empty string. *)
Record VmError := {
  errMessage : string;
  errName : string;
  errStack : option string }.

(** [interface EnhancedError] (without [originalError]). *)
Record EnhancedError := {
  message : string;
  line : option Z;
  column : option Z;
  stack : option string;
  name : string;
  lineContent : option string }.

(** A regular-expression match: the groups [match[1]] and [match[2]]. *)
Abbreviation Groups := (string * option string)%type.

(** The tail [(\d+)(?::(\d+))?] of the frame patterns. *)
Definition lineAndColumn (optionalColumn : bool) (s : string) : option Groups :=
  let '(d1, rest) := spanDigits s in
  if truthy d1 then
    let col :=
      match rest with
      | String ":" rest' =>
          let '(d2, _) := spanDigits rest' in
          if truthy d2 then Some d2 else None
      | _ => None
      end in
    match col with
    | Some d2 => Some (d1, Some d2)
    | None => if optionalColumn then Some (d1, None) else None
    end
  else None.

(** [/user-function\.js:(\d+)(?::(\d+))?/] anchored at the start of [s]. *)
Definition frameAt (s : string) : option Groups :=
  match stripPrefix "user-function.js:" s with
  | Some rest => lineAndColumn true rest
  | None => None
  end.

(** [s.match(/user-function\.js:(\d+)(?::(\d+))?/)]: the leftmost match. *)
Fixpoint matchFrame (s : string) : option Groups :=
  match frameAt s with
  | Some m => Some m
  | None =>
      match s with
      | String _ s' => matchFrame s'
      | EmptyString => None
      end
  end.

(** [/at\s+user-function\.js:(\d+):(\d+)/] anchored at the start of [s]. *)
Definition runtimeFrameAt (s : string) : option Groups :=
  match stripPrefix "at" s with
  | Some (String c rest) =>
      if isWhiteSpace c then
        match stripPrefix "user-function.js:" (trimStart rest) with
        | Some tail => lineAndColumn false tail
        | None => None
        end
      else None
  | _ => None
  end.

(** [s.match(/at\s+user-function\.js:(\d+):(\d+)/)]. *)
Fixpoint matchRuntimeFrame (s : string) : option Groups :=
  match runtimeFrameAt s with
  | Some m => Some m
  | None =>
      match s with
      | String _ s' => matchRuntimeFrame s'
      | EmptyString => None
      end
  end.

(** The three patterns tried on a stack line, in order. *)
Definition matchStackLine (l : string) : option Groups :=
  match matchFrame l with
  | Some m => Some m
  | None =>
      match matchRuntimeFrame l with
      | Some m => Some m
      | None => matchFrame l
      end
  end.

(** [match[2] ? Number.parseInt(match[2], 10) : undefined]. *)
Definition columnOf (g : option string) : option Z :=
  match g with
  | Some d => if truthy d then parseInt10 d else None
  | None => None
  end.

Definition userCodeOf (userCode : option string) : option string :=
  match userCode with
  | Some code => if truthy code then Some code else None
  | None => None
  end.

(** [codeLines[i]] for a number [i]. *)
Definition lineAt (codeLines : list string) (i : Z) : option string :=
  if i <? 0 then None else nth_error codeLines (Z.to_nat i).

Definition isWrapperSyntaxError (error : VmError) (stackLine start : Z) : bool :=
  (stackLine >? start)
  && String.eqb (errName error) "SyntaxError"
  && (includes (errMessage error) "Unexpected token"
      || includes (errMessage error) "Unexpected end of input").

(** What the loop over the stack lines assigns:
    [line], [column] and [lineContent]. *)
Abbreviation Location := (option Z * option Z * option string)%type.

(** The [for (const line of stackLines)] loop; the result is the
    assignment made before the [break], if any. *)
Fixpoint scanStack (error : VmError) (userCodeStartLine : Z)
  (userCode : option string) (stackLines : list string) : option Location :=
  match stackLines with
  | [] => None
  | l :: rest =>
      match matchStackLine l with
      | None => scanStack error userCodeStartLine userCode rest
      | Some (g1, g2) =>
          match parseInt10 g1 with
          | None => scanStack error userCodeStartLine userCode rest
          | Some stackLine =>
              let stackColumn := columnOf g2 in
              let adjustedLine := stackLine - userCodeStartLine + 1 in
              match (if isWrapperSyntaxError error stackLine userCodeStartLine
                     then userCodeOf userCode else None) with
              | Some code =>
                  let codeLines := splitLines code in
                  let lastUserLine := Z.of_nat (length codeLines) in
                  let lastLine := lineAt codeLines (lastUserLine - 1) in
                  Some (Some lastUserLine,
                        Some (match lastLine with
                              | Some t => Z.of_nat (String.length t)
                              | None => 0
                              end),
                        match lastLine with
                        | Some t => Some (trim t)
                        | None => None
                        end)
              | None =>
                  if adjustedLine >? 0 then
                    Some (Some adjustedLine, stackColumn,
                          match userCodeOf userCode with
                          | Some code =>
                              let codeLines := splitLines code in
                              if adjustedLine <=? Z.of_nat (length codeLines)
                              then
                                match lineAt codeLines (adjustedLine - 1) with
                                | Some t => Some (trim t)
                                | None => None
                                end
                              else None
                          | None => None
                          end)
                  else if stackLine <=? userCodeStartLine then
                    Some (Some stackLine, stackColumn, None)
                  else scanStack error userCodeStartLine userCode rest
              end
          end
      end
  end.

(** [line.replace(/\s+at\s+/, '    at ')]: the first match is replaced. *)
Fixpoint normalizeAt (s : string) : string :=
  match s with
  | EmptyString => EmptyString
  | String c s' =>
      if isWhiteSpace c then
        match stripPrefix "at" (trimStart s') with
        | Some (String c2 rest) =>
            if isWhiteSpace c2 then "    at " +:+ trimStart rest
            else String c (normalizeAt s')
        | _ => String c (normalizeAt s')
        end
      else String c (normalizeAt s')
  end.

Definition keepStackLine (l : string) : bool :=
  includes l "user-function.js"
  || (negb (includes l "vm.js") && negb (includes l "internal/")).

Definition cleanStack (stackLines : list string) : list string :=
  map normalizeAt (List.filter keepStackLine stackLines).

Definition orDefault (s fallback : string) : string :=
  if truthy s then s else fallback.

(** [extractEnhancedError]. *)
Definition extractEnhancedError (error : VmError) (userCodeStartLine : Z)
  (userCode : option string) : EnhancedError :=
  let msg := orDefault (errMessage error) "Unknown error" in
  let nm := orDefault (errName error) "Error" in
  match (match errStack error with
         | Some s => if truthy s then Some s else None
         | None => None
         end) with
  | None =>
      {| message := msg; line := None; column := None; stack := None;
         name := nm; lineContent := None |}
  | Some s =>
      let stackLines := splitLines s in
      let loc := scanStack error userCodeStartLine userCode stackLines in
      let cleaned := cleanStack stackLines in
      {| message := msg;
         line := match loc with Some (l, _, _) => l | None => None end;
         column := match loc with Some (_, c, _) => c | None => None end;
         stack := if (0 <? length cleaned)%nat
                  then Some (joinLines cleaned) else Some s;
         name := nm;
         lineContent := match loc with Some (_, _, t) => t | None => None end |}
  end.









End FunctionExecute.

(* ===================================================================== *)
(** * apps/sim/lib/webhooks/utils.ts: verification of incoming requests *)
(* ===================================================================== *)

Module WebhookVerification.

Import Js.

(** The [providerConfig] column of a webhook row: [null] or an object. *)
Abbreviation ProviderConfig := (option (gmap string jsval)).

(** [(row.providerConfig as Record<string, any>) || {}] followed by a
    property read. *)
Definition configProp (cfg : ProviderConfig) (key : string) : jsval :=
  Airtable.getProp (default ∅ cfg) key.

(** [new NextResponse(body, { status })]. *)
Record Response := { status : Z; body : string }.

(** [a === v] for a string [a] and any value [v]. *)
Definition strictEqString (a : string) (v : jsval) : bool :=
  match v with JStr b => String.eqb a b | _ => false end.

(** [a === v] for [a : string | null]. *)
Definition strictEqNullable (a : option string) (v : jsval) : bool :=
  match a, v with
  | Some s, _ => strictEqString s v
  | None, JNull => true
  | None, _ => false
  end.

(** The loop over the active WhatsApp webhooks: whether one of them
    holds the token. *)
Fixpoint tokenMatches (token : string) (webhooks : list ProviderConfig) : bool :=
  match webhooks with
  | [] => false
  | wh :: rest =>
      let verificationToken := configProp wh "verificationToken" in
      if negb (jsTruthy verificationToken) then tokenMatches token rest
      else if strictEqString token verificationToken then true
      else tokenMatches token rest
  end.

(** [handleWhatsAppVerification]; [webhooks] is the result of the query
    for the active WhatsApp webhooks, [None] is [null]. *)
Definition handleWhatsAppVerification (mode token challenge : option string)
  (webhooks : list ProviderConfig) : option Response :=
  match mode, token, challenge with
  | Some m, Some t, Some c =>
      if truthy m && truthy t && truthy c then
        if negb (String.eqb m "subscribe") then
          Some {| status := 400; body := "Invalid mode" |}
        else if tokenMatches t webhooks then
          Some {| status := 200; body := c |}
        else Some {| status := 403; body := "Verification failed" |}
      else None
  | _, _, _ => None
  end.

(** What [request.headers.get] returns for the names the function asks
    for; [None] is [null]. For the configured [secretHeaderName] the
    lookup throws a [TypeError] when the value is not a header name:
    [headerNamed] is then [None]. *)
Record Request := {
  authorization : option string;
  webhookSecret : option string;
  forwardedFor : option string;
  realIp : option string;
  headerNamed : jsval -> option (option string) }.

(** How [verifyProviderWebhook] ends: it returns [null], returns a
    response, or throws. *)
Inductive Verdict :=
  | Accepted
  | Rejected (response : Response)
  | Thrown.

Definition unauthorized : Verdict :=
  Rejected {| status := 401; body := "Unauthorized" |}.

Definition forbidden : Verdict :=
  Rejected {| status := 403; body := "Forbidden - IP not allowed" |}.

(** [authHeader?.startsWith('Bearer ') ? authHeader.substring(7) : null]. *)
Definition bearerToken (authHeader : option string) : option string :=
  match authHeader with
  | Some h => if startsWith h "Bearer " then Some (substringFrom 7 h) else None
  | None => None
  end.

(** [s.split(',')[0]]. *)
Fixpoint firstSegment (s : string) : string :=
  match s with
  | EmptyString => EmptyString
  | String c s' => if Ascii.eqb c "," then EmptyString else String c (firstSegment s')
  end.

Definition orString (a : option string) (fallback : string) : string :=
  match a with
  | Some s => if truthy s then s else fallback
  | None => fallback
  end.

(** [request.headers.get('x-forwarded-for')?.split(',')[0].trim() ||
     request.headers.get('x-real-ip') || 'unknown']. *)
Definition clientIp (request : Request) : string :=
  orString (option_map (fun h => trim (firstSegment h)) (forwardedFor request))
           (orString (realIp request) "unknown").

(** The member read [o.key] of a parsed JSON object: the last entry. *)
Fixpoint member (key : string) (members : list (string * jsval)) : jsval :=
  match members with
  | [] => JUndefined
  | (k, v) :: rest =>
      match member key rest with
      | JUndefined => if String.eqb k key then v else JUndefined
      | later => later
      end
  end.

(** [v.length]. *)
Definition lengthOf (v : jsval) : jsval :=
  match v with
  | JStr s => JNum (Z.of_nat (String.length s))
  | JArr items => JNum (Z.of_nat (length items))
  | JObj members => member "length" members
  | _ => JUndefined
  end.

(** The [gmail] case. *)
Definition verifyGmail (cfg : ProviderConfig) (request : Request) : Verdict :=
  let secret := configProp cfg "secret" in
  if jsTruthy secret then
    match webhookSecret request with
    | None => unauthorized
    | Some secretHeader =>
        if negb (truthy secretHeader)
           || negb (match lengthOf secret with
                    | JNum n => Z.of_nat (String.length secretHeader) =? n
                    | _ => false
                    end)
        then unauthorized
        else
          match secret with
          | JStr s =>
              let result :=
                fold_left (Webhooks.compareStep secretHeader s)
                          (seq 0 (String.length secretHeader)) 0 in
              if negb (result =? 0) then unauthorized else Accepted
          | _ => Thrown (* [secret.charCodeAt] is not a function *)
          end
    end
  else Accepted.

(** [allowedIps.includes(clientIp)]. *)
Definition includesString (items : list jsval) (s : string) : bool :=
  existsb (strictEqString s) items.

(** The IP restriction of the [generic] case. *)
Definition verifyAllowedIps (cfg : ProviderConfig) (request : Request) : Verdict :=
  match configProp cfg "allowedIps" with
  | JArr items =>
      if (0 <? length items)%nat then
        let ip := clientIp request in
        if String.eqb ip "unknown" || negb (includesString items ip)
        then forbidden else Accepted
      else Accepted
  | _ => Accepted
  end.

(** The [generic] case. *)
Definition verifyGeneric (cfg : ProviderConfig) (request : Request) : Verdict :=
  let token := configProp cfg "token" in
  if jsTruthy (configProp cfg "requireAuth") && jsTruthy token then
    if strictEqNullable (bearerToken (authorization request)) token then
      verifyAllowedIps cfg request
    else if jsTruthy (configProp cfg "secretHeaderName") then
      match headerNamed request (configProp cfg "secretHeaderName") with
      | None => Thrown
      | Some customHeaderValue =>
          if strictEqNullable customHeaderValue token
          then verifyAllowedIps cfg request
          else unauthorized
      end
    else unauthorized
  else verifyAllowedIps cfg request.

(** The [default] case. *)
Definition verifyToken (cfg : ProviderConfig) (request : Request) : Verdict :=
  let token := configProp cfg "token" in
  if jsTruthy token then
    let providedToken := bearerToken (authorization request) in
    if negb (Airtable.optTruthy providedToken)
       || negb (strictEqNullable providedToken token)
    then unauthorized else Accepted
  else Accepted.

(** [verifyProviderWebhook]. *)
Definition verifyProviderWebhook (provider : string) (cfg : ProviderConfig)
  (request : Request) : Verdict :=
  if String.eqb provider "github" then Accepted
  else if String.eqb provider "stripe" then Accepted
  else if String.eqb provider "gmail" then verifyGmail cfg request
  else if String.eqb provider "telegram" then Accepted
  else if String.eqb provider "microsoftteams" then Accepted
  else if String.eqb provider "generic" then verifyGeneric cfg request
  else verifyToken cfg request.

End WebhookVerification.

(* ===================================================================== *)
(** * apps/sim/lib/webhooks/utils.ts: set-up of Gmail and Outlook polling *)
(* ===================================================================== *)

Module PollingSetup.

Import Js.

(** The outside world of the two set-up functions. A lookup that throws
    is [None]; one that finds nothing is [Some None]. *)
Record Env := {
  (** [db.select().from(account).where(eq(account.id, credentialId)).limit(1)]:
      the [userId] of the row found *)
  accountOwner : jsval -> option (option string);
  (** [refreshAccessTokenIfNeeded(credentialId, userId, requestId)] *)
  refreshAccessTokenIfNeeded : jsval -> string -> option (option string);
  (** [getOAuthToken(userId, providerId)] *)
  getOAuthToken : string -> string -> option (option string);
  (** whether the [db.update] of the webhook row succeeds *)
  updateSucceeds : bool;
  (** [new Date().toISOString()] *)
  now : string }.

(** What a call returns and what it stored in the [providerConfig]
    column of the webhook row, if anything. *)
Record Outcome := {
  returned : bool;
  stored : option (gmap string jsval) }.

Definition failed : Outcome := {| returned := false; stored := None |}.

(** [typeof v === 'string' ? Number.parseInt(v, 10) || fallback
                           : v || fallback]. *)
Definition numberOr (v : jsval) (fallback : Z) : jsval :=
  match v with
  | JStr s =>
      match parseInt10 s with
      | Some n => if n =? 0 then JNum fallback else JNum n
      | None => JNum fallback
      end
  | _ => if jsTruthy v then v else JNum fallback
  end.

(** [v || fallback]. *)
Definition valueOr (v fallback : jsval) : jsval :=
  if jsTruthy v then v else fallback.

(** The object stored by the update; the two functions differ in the
    keys and the default of the folder filter. *)
Definition pollingConfig (foldersKey : string) (defaultFolder : string)
  (behaviorKey : string) (now : string) (providerConfig : gmap string jsval)
  (effectiveUserId : string) : gmap string jsval :=
  let read := Airtable.getProp providerConfig in
  let credentialId := read "credentialId" in
  let withUser := <["userId" := JStr effectiveUserId]> providerConfig in
  let withCredential :=
    if jsTruthy credentialId then <["credentialId" := credentialId]> withUser
    else withUser in
  <["setupCompleted" := JBool true]>
  (<["lastCheckedTimestamp" := JStr now]>
  (<[behaviorKey := valueOr (read behaviorKey) (JStr "INCLUDE")]>
  (<[foldersKey := valueOr (read foldersKey) (JArr [JStr defaultFolder])]>
  (<["includeRawEmail" := valueOr (read "includeRawEmail") (JBool false)]>
  (<["markAsRead" := valueOr (read "markAsRead") (JBool false)]>
  (<["pollingInterval" := numberOr (read "pollingInterval") 5]>
  (<["maxEmailsPerPoll" := numberOr (read "maxEmailsPerPoll") 25]>
   withCredential))))))).

(** The body shared by [configureGmailPolling] and
    [configureOutlookPolling]. *)
Definition configurePolling (tokenProvider foldersKey defaultFolder
    behaviorKey : string) (env : Env) (userId : string)
  (webhookProviderConfig : option (gmap string jsval)) : Outcome :=
  let providerConfig := default ∅ webhookProviderConfig in
  let credentialId := Airtable.getProp providerConfig "credentialId" in
  let store (effectiveUserId : string) :=
    if updateSucceeds env then
      {| returned := true;
         stored := Some (pollingConfig foldersKey defaultFolder behaviorKey
                           (now env) providerConfig effectiveUserId) |}
    else failed in
  if jsTruthy credentialId then
    match accountOwner env credentialId with
    | None => failed
    | Some None => failed
    | Some (Some effectiveUserId) =>
        match refreshAccessTokenIfNeeded env credentialId effectiveUserId with
        | Some (Some accessToken) =>
            if truthy accessToken then store effectiveUserId else failed
        | _ => failed
        end
    end
  else if negb (truthy userId) then failed
  else
    match getOAuthToken env userId tokenProvider with
    | Some (Some accessToken) =>
        if truthy accessToken then store userId else failed
    | _ => failed
    end.

Definition configureGmailPolling : Env -> string ->
  option (gmap string jsval) -> Outcome :=
  configurePolling "google-email" "labelIds" "INBOX" "labelFilterBehavior".


End PollingSetup.

(* ===================================================================== *)
(** * apps/sim/hooks/use-collaborative-workflow.ts: payloads and names  *)
(* ===================================================================== *)

Module SubflowConfig.

Import Js Collab.

(** [data?.key || fallback] for the [data] object of a block. *)
Definition dataOr (data : option (gmap string jsval)) (key : string)
  (fallback : jsval) : jsval :=
  let v := Airtable.getProp (default ∅ data) key in
  if jsTruthy v then v else fallback.

(** The payload [{ id, type, config }] that
    [collaborativeUpdateIterationCount] hands to [executeQueuedOperation];
    [childNodes] are the ids of the blocks whose [data.parentId] is
    [nodeId], [data] is [currentBlock.data]. *)
Definition iterationCountPayload (nodeId iterationType : string) (count : Z)
  (childNodes : list string) (data : option (gmap string jsval)) : jsval :=
  if String.eqb iterationType "loop" then
    JObj [("id", JStr nodeId); ("type", JStr "loop");
          ("config",
           JObj [("id", JStr nodeId);
                 ("nodes", JArr (map JStr childNodes));
                 ("iterations", JNum (Z.max 1 (Z.min 100 count)));
                 ("loopType", dataOr data "loopType" (JStr "for"));
                 ("forEachItems", dataOr data "collection" (JStr ""))])]
  else
    JObj [("id", JStr nodeId); ("type", JStr "parallel");
          ("config",
           JObj [("id", JStr nodeId);
                 ("nodes", JArr (map JStr childNodes));
                 ("count", JNum (Z.max 1 (Z.min 20 count)));
                 ("distribution", dataOr data "collection" (JStr ""));
                 ("parallelType", dataOr data "parallelType" (JStr "count"))])].

(** [collaborativeUpdateIterationCount] with the payload it builds. *)
Definition updateIterationCount (ctx : Ctx) (nodeId iterationType : string)
  (count : Z) (childNodes : list string) (data : option (gmap string jsval))
  : HookState -> Result :=
  collaborativeUpdateIterationCount ctx nodeId iterationType count
    (iterationCountPayload nodeId iterationType count childNodes data).

End SubflowConfig.

Module DuplicateName.

Import Js.

(** The characters that [.] does not match: line feed and carriage
    return (U+2028 and U+2029 lie outside the code units modelled). *)
Definition isLineTerminator (c : ascii) : bool :=
  Ascii.eqb c "010" || Ascii.eqb c "013".

Fixpoint hasLineTerminator (s : string) : bool :=
  match s with
  | EmptyString => false
  | String c s' => isLineTerminator c || hasLineTerminator s'
  end.

(** The string without its longest suffix of digits, and that suffix. *)
Fixpoint splitTrailingDigits (s : string) : string * string :=
  match s with
  | EmptyString => (EmptyString, EmptyString)
  | String c s' =>
      let '(stem, digits) := splitTrailingDigits s' in
      if truthy stem then (String c stem, digits)
      else if isDigit c then (EmptyString, String c digits)
      else (String c EmptyString, digits)
  end.

(** The part of [s] after its last line terminator. *)
Fixpoint afterLastTerminator (s : string) : string :=
  match s with
  | EmptyString => EmptyString
  | String c s' =>
      if hasLineTerminator s' then afterLastTerminator s'
      else if isLineTerminator c then s' else s
  end.

(** [name.match(/(.*?)(\d+)?$/)]: the groups [match[1]] and [match[2]].
    The lazy first group ends where the longest suffix of digits starts;
    as [.] does not cross a line terminator, the match starts after the
    last one before that suffix. *)
Definition nameMatch (name : string) : string * option string :=
  let '(stem, digits) := splitTrailingDigits name in
  (afterLastTerminator stem, if truthy digits then Some digits else None).

(** [newName] of [collaborativeDuplicateBlock]:
    [match?.[2] ? `${match[1]}${Number.parseInt(match[2]) + 1}`
                : `${sourceBlock.name} 1`]. *)
Definition duplicateName (name : string) : string :=
  match nameMatch name with
  | (stem, Some digits) =>
      stem +:+ match parseInt digits with
               | Some n => numberToString (n + 1)
               | None => "NaN"
               end
  | (_, None) => name +:+ " 1"
  end.

End DuplicateName.

(* ===================================================================== *)
(** * apps/sim/app/api/function/execute/route.ts: the script and its variables *)
(* ===================================================================== *)

Module FunctionScript.

Import Js.

(** [parts.join(sep)]. *)
Fixpoint joinWith (sep : string) (parts : list string) : string :=
  match parts with
  | [] => EmptyString
  | [p] => p
  | p :: ps => p +:+ sep +:+ joinWith sep ps
  end.

(** [Object.keys(executionParams)] for
    [executionParams = { ...params }; executionParams._context = undefined]:
    the keys of [params], with [_context] added at the end unless it is
    already one of them. *)
Definition executionParamKeys (paramKeys : list string) : list string :=
  if existsb (String.eqb "_context") paramKeys then paramKeys
  else paramKeys ++ ["_context"].

(** The [wrapperLines] array of [POST] once the custom-tool declarations
    have been pushed. *)
Definition wrapperLines (isCustomTool : bool) (paramKeys : list string)
  : list string :=
  ["(async () => {"; "  try {"]
  ++ (if isCustomTool then
        "    // For custom tools, make parameters directly accessible"
        :: map (fun key => "    const " +:+ key +:+ " = params." +:+ key +:+ ";")
               (executionParamKeys paramKeys)
      else []).

(** [userCodeStartLine = wrapperLines.length + 1]. *)
Definition userCodeStartLine (isCustomTool : bool) (paramKeys : list string) : Z :=
  Z.of_nat (length (wrapperLines isCustomTool paramKeys)) + 1.

(** The indented user code: [`    ${resolvedCode.split('\n').join('\n    ')}`]. *)
Definition indentedCode (resolvedCode : string) : string :=
  "    " +:+ joinWith (String "010" "    ") (splitLines resolvedCode).

(** [fullScript]. *)
Definition fullScript (isCustomTool : bool) (paramKeys : list string)
  (resolvedCode : string) : string :=
  joinLines
    (wrapperLines isCustomTool paramKeys
     ++ [ indentedCode resolvedCode;
          "  } catch (error) {";
          "    console.error(error);";
          "    throw error;";
          "  }";
          "})()" ]).

End FunctionScript.

Module CodeVariables.

Import Js.

(** [[a-zA-Z0-9_]]. *)
Definition isIdentChar (c : ascii) : bool :=
  let n := N_of_ascii c in
  ((97 <=? n) && (n <=? 122) || (65 <=? n) && (n <=? 90)
   || (48 <=? n) && (n <=? 57) || (n =? 95))%N.

(** [name.replace(/[^a-zA-Z0-9_]/g, '_')]. *)
Fixpoint sanitize (name : string) : string :=
  match name with
  | EmptyString => EmptyString
  | String c rest =>
      String (if isIdentChar c then c else "_"%char) (sanitize rest)
  end.

(** [s.slice(a, -b)]. *)
Definition sliceEnds (a b : nat) (s : string) : string :=
  String.substring a (String.length s - a - b) s.

(** The longest prefix without [stop] (a greedy [[^stop]*]) and the rest. *)
Fixpoint spanNot (stop : ascii) (s : string) : string * string :=
  match s with
  | EmptyString => (EmptyString, EmptyString)
  | String c s' =>
      if Ascii.eqb c stop then (EmptyString, s)
      else let '(run, rest) := spanNot stop s' in (String c run, rest)
  end.

(** [/\{\{([^}]+)\}\}/] anchored at the start of [s]: the matched text. *)
Definition envReferenceAt (s : string) : option string :=
  match stripPrefix "{{" s with
  | Some rest =>
      let '(run, tail) := spanNot "}" rest in
      if truthy run && startsWith tail "}}"
      then Some ("{{" +:+ run +:+ "}}") else None
  | None => None
  end.

(** [s.match(/.../g) || []] for a pattern that matches no empty string:
    the matches from left to right, the search resuming after each one.
    [skip] counts the characters of the last match still to pass. *)
Fixpoint matchesFrom (matchAt : string -> option string) (skip : nat)
  (s : string) : list string :=
  match s with
  | EmptyString => []
  | String _ s' =>
      match skip with
      | S k => matchesFrom matchAt k s'
      | O =>
          match matchAt s with
          | Some m => m :: matchesFrom matchAt (String.length m - 1) s'
          | None => matchesFrom matchAt 0 s'
          end
      end
  end.

Definition envVarMatches (code : string) : list string :=
  matchesFrom envReferenceAt 0 code.

(** [s.replace(new RegExp(escapeRegExp(pattern), 'g'), replacement)] for a
    non-empty [pattern] and a [replacement] without [$]: every occurrence
    of the text [pattern], from left to right, is replaced. *)
Fixpoint replaceFrom (pattern replacement : string) (skip : nat) (s : string)
  : string :=
  match s with
  | EmptyString => EmptyString
  | String c s' =>
      match skip with
      | S k => replaceFrom pattern replacement k s'
      | O =>
          if String.prefix pattern s
          then replacement
               +:+ replaceFrom pattern replacement (String.length pattern - 1) s'
          else String c (replaceFrom pattern replacement 0 s')
      end
  end.

Definition replaceAll (pattern replacement s : string) : string :=
  replaceFrom pattern replacement 0 s.

(** [s.split(sep)] for a one-character separator. *)
Fixpoint splitOn (sep : ascii) (s : string) : list string :=
  match s with
  | EmptyString => [EmptyString]
  | String c s' =>
      if Ascii.eqb c sep then EmptyString :: splitOn sep s'
      else
        match splitOn sep s' with
        | l :: ls => String c l :: ls
        | [] => [String c EmptyString]
        end
  end.

Section Values.

(** The values of the execution context, as far as the functions look at
    them: their truthiness, whether [typeof] gives ['object'], and the
    property read [v[key]] (own or inherited). *)
Variable Value : Type.
Variable isTruthy : Value -> bool.
Variable isObject : Value -> bool.
Variable readProperty : Value -> string -> Value.
Variable undefinedValue : Value.
(** the empty string *)
Variable emptyString : Value.

(** [match.slice(2, -2).trim()]. *)
Definition envVarName (reference : string) : string :=
  trim (sliceEnds 2 2 reference).

Definition envSafeName (reference : string) : string :=
  "__var_" +:+ sanitize (envVarName reference).

(** [envVars[varName] || params[varName] || '']. *)
Definition envVarValue (params envVars : string -> Value) (reference : string)
  : Value :=
  let varName := envVarName reference in
  if isTruthy (envVars varName) then envVars varName
  else if isTruthy (params varName) then params varName
  else emptyString.

(** One pass of the loop over the matches. *)
Definition resolveReference (params envVars : string -> Value)
  (state : string * gmap string Value) (reference : string)
  : string * gmap string Value :=
  let '(resolvedCode, contextVariables) := state in
  (replaceAll reference (envSafeName reference) resolvedCode,
   <[envSafeName reference := envVarValue params envVars reference]>
     contextVariables).

(** [resolveEnvironmentVariables]: the resolved code and the context
    variables after the call. [params] and [envVars] are the property
    reads of the two objects. *)
Definition resolveEnvironmentVariables (code : string)
  (params envVars : string -> Value) (contextVariables : gmap string Value)
  : string * gmap string Value :=
  fold_left (resolveReference params envVars) (envVarMatches code)
            (code, contextVariables).

(** The callback of [reduce] in [getNestedValue]. *)
Definition nestedStep (current : Value) (key : string) : Value :=
  if isTruthy current && isObject current then readProperty current key
  else undefinedValue.

(** [getNestedValue]. *)
Definition getNestedValue (obj : Value) (path : string) : Value :=
  if negb (isTruthy obj) || negb (truthy path) then undefinedValue
  else fold_left nestedStep (splitOn "." path) obj.

End Values.

Arguments envVarValue {Value}.
Arguments resolveReference {Value}.
Arguments resolveEnvironmentVariables {Value}.
Arguments nestedStep {Value}.
Arguments getNestedValue {Value}.

End CodeVariables.

(* ===================================================================== *)
(** * Statements about the Airtable polling loop *)
(* ===================================================================== *)

Module AirtableSpec.

Import Js Airtable.

(** Loop invariant: the requests sent so far are counted by
    [apiCallCount], never more than ten, and the loop condition can only
    hold while the counter is at most ten. *)
Definition capped (st : PollState) : Prop :=
  (fetchCount (events st) <= Nat.min (apiCallCount st) 10)%nat
  /\ (mightHaveMore st = true -> (apiCallCount st <= 10)%nat).

(** An API that always announces more payloads under a new cursor. *)
Definition alwaysMoreEnv : Env :=
  {| fetchPayloads := fun n _ =>
       FetchResponse true
         {| error := JUndefined;
            payloads := Some [];
            cursor := JNum (Z.of_nat n);
            mightHaveMoreField := JBool true |};
     persistSucceeds := fun _ _ => true;
     initCursorSucceeds := true;
     ownerUserId := Some "user-1";
     accessToken := Some "token" |}.

Definition sampleConfig : option (gmap string jsval) :=
  Some (list_to_map [("baseId", JStr "app1"); ("externalId", JStr "ach1");
                     ("credentialId", JStr "cred1")]).

(** The three ways an iteration ends once the API has answered without an
    error. *)
Inductive CursorStep (env : Env) (st : PollState) (body : ResponseBody)
  : PollState -> Prop :=
  | StepPersisted (next : Z) :
      cursor body = JNum next -> next <> 0 -> currentCursor st <> Some next ->
      persistSucceeds env (S (apiCallCount st)) next = true ->
      CursorStep env st body
        {| currentCursor := Some next;
           mightHaveMore := jsTruthy (mightHaveMoreField body);
           payloadsFetched :=
             (payloadsFetched st + length (default [] (payloads body)))%nat;
           apiCallCount := S (apiCallCount st);
           consolidatedChangesMap :=
             consolidate (consolidatedChangesMap st) (default [] (payloads body));
           allPayloads := allPayloads st ++ default [] (payloads body);
           localProviderConfig :=
             <[cursorKey := JNum next]> (localProviderConfig st);
           dbProviderConfig :=
             <[cursorKey := JNum next]> (localProviderConfig st);
           events := (events st
                      ++ [EvFetch (S (apiCallCount st)) (currentCursor st)])
                     ++ [EvPersist (S (apiCallCount st)) next true] |}
  | StepPersistFailed (next : Z) :
      cursor body = JNum next -> next <> 0 -> currentCursor st <> Some next ->
      persistSucceeds env (S (apiCallCount st)) next = false ->
      CursorStep env st body
        {| currentCursor := Some next;
           mightHaveMore := false;
           payloadsFetched :=
             (payloadsFetched st + length (default [] (payloads body)))%nat;
           apiCallCount := S (apiCallCount st);
           consolidatedChangesMap :=
             consolidate (consolidatedChangesMap st) (default [] (payloads body));
           allPayloads := allPayloads st ++ default [] (payloads body);
           localProviderConfig := localProviderConfig st;
           dbProviderConfig := dbProviderConfig st;
           events := (events st
                      ++ [EvFetch (S (apiCallCount st)) (currentCursor st)])
                     ++ [EvPersist (S (apiCallCount st)) next false] |}
  | StepStopped :
      jsTruthy (cursor body) = false \/ isNumber (cursor body) = false
      \/ strictEqCursor (cursor body) (currentCursor st) = true ->
      CursorStep env st body
        {| currentCursor := currentCursor st;
           mightHaveMore := false;
           payloadsFetched :=
             (payloadsFetched st + length (default [] (payloads body)))%nat;
           apiCallCount := S (apiCallCount st);
           consolidatedChangesMap :=
             consolidate (consolidatedChangesMap st) (default [] (payloads body));
           allPayloads := allPayloads st ++ default [] (payloads body);
           localProviderConfig := localProviderConfig st;
           dbProviderConfig := dbProviderConfig st;
           events := events st
                     ++ [EvFetch (S (apiCallCount st)) (currentCursor st)] |}.

(** Every request after the first directly follows the successful
    database update that stored the cursor it sends. *)
Definition persistedBeforeFetch (evs : list Event) : Prop :=
  forall pre n c post,
    evs = pre ++ EvFetch n c :: post -> (2 <= n)%nat ->
    exists pre' k, pre = pre' ++ [EvPersist (n - 1) k true] /\ c = Some k.

(** The loop is about to fetch again only right after a successful
    update of the cursor it holds. *)
Definition readyToFetch (st : PollState) : Prop :=
  mightHaveMore st = true -> (1 <= apiCallCount st)%nat ->
  exists pre k,
    events st = pre ++ [EvPersist (apiCallCount st) k true]
    /\ currentCursor st = Some k
    /\ dbProviderConfig st !! cursorKey = Some (JNum k).

(** An API whose first answer carries cursor [0] and announces more. *)
Definition zeroCursorEnv : Env :=
  {| fetchPayloads := fun _ _ =>
       FetchResponse true
         {| error := JUndefined;
            payloads := Some [];
            cursor := JNum 0;
            mightHaveMoreField := JBool true |};
     persistSucceeds := fun _ _ => true;
     initCursorSucceeds := true;
     ownerUserId := Some "user-1";
     accessToken := Some "token" |}.

(** One entry of [createdRecordsById] or [changedRecordsById], with the
    table it was found under. *)
Inductive Sighting :=
  | SeenCreated (tid rid : string) (r : CreatedRecord)
  | SeenChanged (tid rid : string) (r : ChangedRecord).

Definition sightingId (s : Sighting) : string :=
  match s with SeenCreated _ rid _ | SeenChanged _ rid _ => rid end.

Definition sightingTable (s : Sighting) : string :=
  match s with SeenCreated tid _ _ | SeenChanged tid _ _ => tid end.

Definition sightingFields (s : Sighting) : Fields :=
  match s with
  | SeenCreated _ _ r => orEmpty (cellValuesByFieldId r)
  | SeenChanged _ _ r => currentFieldsOf r
  end.

Definition isChanged (s : Sighting) : bool :=
  match s with SeenChanged _ _ _ => true | SeenCreated _ _ _ => false end.

(** The entries in the order the nested loops visit them: payload by
    payload, table by table, created records before changed records. *)
Definition sightingsOfTable (entry : string * TableChanges) : list Sighting :=
  match createdRecordsById (snd entry) with
  | Some recs => map (fun e => SeenCreated (fst entry) (fst e) (snd e)) recs
  | None => []
  end
  ++ match changedRecordsById (snd entry) with
     | Some recs => map (fun e => SeenChanged (fst entry) (fst e) (snd e)) recs
     | None => []
     end.

Definition sightingsOfPayload (p : Payload) : list Sighting :=
  match changedTablesById p with
  | Some tables => concat (map sightingsOfTable tables)
  | None => []
  end.

Definition sightings (ps : list Payload) : list Sighting :=
  concat (map sightingsOfPayload ps).

Definition sightingsOf (rid : string) (ps : list Payload) : list Sighting :=
  List.filter (fun s => String.eqb (sightingId s) rid) (sightings ps).

(** The consolidated change of a record as the documentation of the loop
    describes it, from the sightings of that record in order: the table of
    the first sighting, ['updated'] as soon as one sighting is an update,
    the fields merged left to right, and the previous fields of the first
    sighting when that one is an update. *)
Definition expectedChange (rid : string) (seen : list Sighting)
  : option AirtableChange :=
  match seen with
  | [] => None
  | first :: later =>
      Some {| tableId := sightingTable first;
              recordId := rid;
              changeType := if existsb isChanged seen then updated else created;
              changedFields :=
                fold_left (fun acc s => spread acc (sightingFields s)) later
                          (sightingFields first);
              previousFields :=
                match first with
                | SeenChanged _ _ r => previousFieldsOf r
                | SeenCreated _ _ _ => None
                end |}
  end.

Definition applySighting (m : ChangesMap) (s : Sighting) : ChangesMap :=
  match s with
  | SeenCreated tid rid r => handleCreated tid m (rid, r)
  | SeenChanged tid rid r => handleChanged tid m (rid, r)
  end.

(** What one sighting does to the entry of its record. *)
Definition recordStep (c : option AirtableChange) (s : Sighting)
  : option AirtableChange :=
  Some
    match c with
    | Some existing =>
        {| tableId := tableId existing;
           recordId := recordId existing;
           changeType := if isChanged s then updated else changeType existing;
           changedFields := spread (changedFields existing) (sightingFields s);
           previousFields := previousFields existing |}
    | None =>
        {| tableId := sightingTable s;
           recordId := sightingId s;
           changeType := if isChanged s then updated else created;
           changedFields := sightingFields s;
           previousFields :=
             match s with
             | SeenChanged _ _ r => previousFieldsOf r
             | SeenCreated _ _ _ => None
             end |}
    end.

(** Well-formed maps: one entry per key, each stored under its record id. *)
Definition keyed (m : ChangesMap) : Prop :=
  NoDup (map fst m) /\ Forall (fun kc => recordId (snd kc) = fst kc) m.

(** The map of the loop is the consolidation of all raw payloads. *)
Definition consolidated (st : PollState) : Prop :=
  consolidatedChangesMap st = consolidate [] (allPayloads st).

(** Two answers of the API: the first creates record ["rec1"] with field
    ["fld1"], the second updates that field and reports its old value. *)
Definition createThenUpdate : list Payload :=
  [ {| changedTablesById := Some [("tbl1",
         {| createdRecordsById := Some [("rec1",
              {| cellValuesByFieldId := Some {["fld1" := JNum 1]} |})];
            changedRecordsById := None |})] |};
    {| changedTablesById := Some [("tbl1",
         {| createdRecordsById := None;
            changedRecordsById := Some [("rec1",
              {| current := Some {| snapshotCellValuesByFieldId :=
                                      Some {["fld1" := JNum 2]} |};
                 previous := Some {| snapshotCellValuesByFieldId :=
                                       Some {["fld1" := JNum 1]} |} |})] |})] |} ].

Definition createThenUpdateEnv : Env :=
  {| fetchPayloads := fun n _ =>
       FetchResponse true
         {| error := JUndefined;
            payloads := option_map (fun p => [p]) (nth_error createThenUpdate (n - 1));
            cursor := JNum (Z.of_nat n);
            mightHaveMoreField := JBool (n <? 2)%nat |};
     persistSucceeds := fun _ _ => true;
     initCursorSucceeds := true;
     ownerUserId := Some "user-1";
     accessToken := Some "token" |}.

End AirtableSpec.

(* ===================================================================== *)
(** * Statements about the collaboration hook *)
(* ===================================================================== *)

Module CollabSpec.

Import Js Collab.

(** Remote operations other than the removal of a block. *)
Definition keepsTimestamps (ev : RemoteEvent) : Prop :=
  match ev with
  | WorkflowOperation (RemoteRemoveBlock _) => False
  | _ => True
  end.

Definition samplePosition : jsval := JObj [("x", JNum 10); ("y", JNum 20)].

Definition trackedState : HookState :=
  {| isApplyingRemoteChange := false;
     lastPositionTimestamps := {["block-1" := 5]};
     uuidsDrawn := 0 |}.


(** The ids of the operations handed to [addToQueue], in order. *)
Definition enqueuedIds (effs : list Effect) : list string :=
  omap (fun e => match e with AddToQueue op => Some (opId op) | _ => None end)
       effs.

Definition isQueueOrStore (e : Effect) : bool := isAddToQueue e || isStoreCall e.

(** A run from [st] to [st'] that only enqueues and calls stores, keeps
    the refs, and uses exactly the UUIDs it draws as operation ids. *)
Definition traced (ctx : Ctx) (st st' : HookState) (effs : list Effect) : Prop :=
  isApplyingRemoteChange st' = isApplyingRemoteChange st
  /\ lastPositionTimestamps st' = lastPositionTimestamps st
  /\ (uuidsDrawn st <= uuidsDrawn st')%nat
  /\ Forall (fun e => isQueueOrStore e = true) effs
  /\ enqueuedIds effs
     = map (randomUUID ctx)
           (seq (uuidsDrawn st) (uuidsDrawn st' - uuidsDrawn st)).

(** A client in its active room, with an ["agent"] block whose ["apiKey"]
    sub-block depends on its ["model"] sub-block. *)
Definition roomCtx : Ctx :=
  {| isShowingDiff := false;
     currentWorkflowId := Some "wf-1";
     activeWorkflowId := Some "wf-1";
     sessionUserId := Some "user-1";
     randomUUID := fun n => "uuid-" +:+ numberToString (Z.of_nat n);
     blocks := fun id =>
       if String.eqb id "block-1"
       then Some {| blockType := "agent"; isWide := false;
                    advancedMode := false; triggerMode := false;
                    horizontalHandles := true |}
       else None;
     getBlock := fun type =>
       if String.eqb type "agent"
       then Some {| subBlocks := Some
                      [ {| subBlockId := Some "model"; dependsOn := None |};
                        {| subBlockId := Some "apiKey";
                           dependsOn := Some ["model"] |} ] |}
       else None;
     subBlockValues := fun _ => [];
     variableExists := fun _ => false;
     processedVariableName := fun _ => None |}.

Definition idle : HookState :=
  {| isApplyingRemoteChange := false;
     lastPositionTimestamps := ∅;
     uuidsDrawn := 0 |}.

Definition quiet (e : Effect) : Prop := isEnqueueOrEmit e = false.

(** The outcome of a call made while the flag is set. *)
Definition suppressed (r : option Result) : Prop :=
  exists st' effs, r = Some (st', effs)
                   /\ isApplyingRemoteChange st' = true /\ Forall quiet effs.

Definition applying : HookState :=
  {| isApplyingRemoteChange := true;
     lastPositionTimestamps := ∅;
     uuidsDrawn := 0 |}.

End CollabSpec.

(* ===================================================================== *)
(** * Statements about the error enhancement *)
(* ===================================================================== *)

Module FunctionExecuteSpec.

Import Js FunctionExecute.






End FunctionExecuteSpec.

(* ===================================================================== *)
(** * Statements about the rest of the webhook utilities                *)
(* ===================================================================== *)

Module AirtableExtraSpec.

Import Js Airtable.

(** The set-up phase reaches the polling loop: the configuration names a
    base, a webhook and a credential, the owner of the credential is found
    and an access token is obtained. *)
Definition readyToPoll (env : Env) (cfg : option (gmap string jsval)) : bool :=
  jsTruthy (getProp (default ∅ cfg) "baseId")
  && jsTruthy (getProp (default ∅ cfg) "externalId")
  && jsTruthy (getProp (default ∅ cfg) "credentialId")
  && optTruthy (ownerUserId env)
  && optTruthy (accessToken env).

(** The cursor a stored configuration provides: a number other than zero. *)
Definition storedCursor (cfg : option (gmap string jsval)) : option Z :=
  match default ∅ cfg !! cursorKey with
  | Some (JNum n) => if n =? 0 then None else Some n
  | _ => None
  end.



(** Each identifier once, in the order of its first occurrence. *)
Fixpoint firstSeen (ids : list string) : list string :=
  match ids with
  | [] => []
  | x :: rest => x :: filter (fun y => y <> x) (firstSeen rest)
  end.

(** Three raw payloads touching records r2, r1, r2 in that order. *)
Definition interleaved : list Payload :=
  [ {| changedTablesById := Some [("tbl1",
         {| createdRecordsById := Some [("r2", {| cellValuesByFieldId := None |})];
            changedRecordsById :=
              Some [("r1", {| current := None; previous := None |})] |})] |};
    {| changedTablesById := Some [("tbl1",
         {| createdRecordsById := None;
            changedRecordsById :=
              Some [("r2", {| current := None; previous := None |})] |})] |} ].

(** An API that answers the first request with an HTTP error. *)
Definition failingEnv : Env :=
  {| fetchPayloads := fun _ _ => FetchThrows;
     persistSucceeds := fun _ _ => true;
     initCursorSucceeds := true;
     ownerUserId := Some "user-1";
     accessToken := Some "token" |}.

Definition cursorConfig : option (gmap string jsval) :=
  Some (list_to_map [("baseId", JStr "app1"); ("externalId", JStr "ach1");
                     ("credentialId", JStr "cred1");
                     ("externalWebhookCursor", JNum 7)]).



End AirtableExtraSpec.

Module WebhookVerificationSpec.

Import Js WebhookVerification.

(** The token of a webhook: a non-empty string under [key]. *)
Definition hasToken (key token : string) (cfg : ProviderConfig) : Prop :=
  token <> "" /\ default ∅ cfg !! key = Some (JStr token).

Definition whatsappRows : list ProviderConfig :=
  [ None; Some {["verificationToken" := JStr "s3cret"]} ].



Definition bearerRequest (header : option string) : Request :=
  {| authorization := header;
     webhookSecret := Some "hunter2";
     forwardedFor := None;
     realIp := None;
     headerNamed := fun _ => Some None |}.


(** The providers for which [verifyProviderWebhook] checks nothing. *)
Definition unchecked (provider : string) : Prop :=
  provider = "github" \/ provider = "stripe" \/ provider = "telegram"
  \/ provider = "microsoftteams".

(** The providers handled by the [default] case. *)
Definition byToken (provider : string) : Prop :=
  ~ unchecked provider /\ provider <> "gmail" /\ provider <> "generic".

End WebhookVerificationSpec.

Module PollingSetupSpec.

Import Js PollingSetup.



Definition sampleEnv : Env :=
  {| accountOwner := fun _ => Some (Some "user-7");
     refreshAccessTokenIfNeeded := fun _ _ => Some (Some "ya29.token");
     getOAuthToken := fun _ _ => Some None;
     updateSucceeds := true;
     now := "2025-01-01T00:00:00.000Z" |}.

Definition sampleGmailConfig : option (gmap string jsval) :=
  Some (list_to_map [("credentialId", JStr "cred-1");
                     ("maxEmailsPerPoll", JStr "0");
                     ("pollingInterval", JStr "abc");
                     ("labelIds", JArr [JStr "Label_1"]);
                     ("path", JStr "/hook")]).

End PollingSetupSpec.

Module HexSpec.

Import Js.

(** [[0-9a-f]]. *)
Definition isLowerHex (c : ascii) : bool :=
  let n := N_of_ascii c in
  ((48 <=? n) && (n <=? 57) || (97 <=? n) && (n <=? 102))%N.

Fixpoint allLowerHex (s : string) : bool :=
  match s with
  | EmptyString => true
  | String c s' => isLowerHex c && allLowerHex s'
  end.

(** The bytes that a string of pairs of hexadecimal digits stands for. *)
Fixpoint hexDecode (s : string) : option (list Byte.byte) :=
  match s with
  | EmptyString => Some []
  | String _ EmptyString => None
  | String a (String b rest) =>
      match hexValue a, hexValue b, hexDecode rest with
      | Some x, Some y, Some bytes =>
          option_map (fun v => v :: bytes) (Byte.of_N (Z.to_N (16 * x + y)))
      | _, _, _ => None
      end
  end.

End HexSpec.

(* ===================================================================== *)
(** * Statements about the rest of the collaboration hook               *)
(* ===================================================================== *)

Module CollabExtraSpec.

Import Js Collab CollabSpec.

(** A run from [st] to [st'] that leaves the two refs alone and takes the
    id of every operation it enqueues from its own call of
    [crypto.randomUUID()]: the ids are the draws numbered [idxs], in
    order, each draw used at most once. *)
Definition drawsIds (ctx : Ctx) (st st' : HookState) (effs : list Effect) : Prop :=
  isApplyingRemoteChange st' = isApplyingRemoteChange st
  /\ lastPositionTimestamps st' = lastPositionTimestamps st
  /\ (uuidsDrawn st <= uuidsDrawn st')%nat
  /\ exists idxs : list nat,
       enqueuedIds effs = map (randomUUID ctx) idxs
       /\ sublist idxs (seq (uuidsDrawn st) (uuidsDrawn st' - uuidsDrawn st)).

Definition isTagSelection (c : CollabCall) : bool :=
  match c with SetTagSelection _ _ _ => true | _ => false end.

(** The client shows a diff, or is outside the room of the active
    workflow. *)
Definition roomCtxWith (diff : bool) (current : option string) : Ctx :=
  {| isShowingDiff := diff;
     currentWorkflowId := current;
     activeWorkflowId := activeWorkflowId roomCtx;
     sessionUserId := sessionUserId roomCtx;
     randomUUID := randomUUID roomCtx;
     blocks := blocks roomCtx;
     getBlock := getBlock roomCtx;
     subBlockValues := subBlockValues roomCtx;
     variableExists := variableExists roomCtx;
     processedVariableName := fun _ => Some "variable1" |}.

Definition sampleCalls : list CollabCall :=
  [ SetSubblockValue "block-1" "model" (JStr "gpt-4o");
    AddVariable (JObj [("name", JStr "variable1")]);
    RemoveBlock "block-1";
    UpdateBlockPosition "block-1" samplePosition;
    DuplicateBlock "block-1" (fun id => JObj [("id", JStr id)]) ].

(** The two conditions under which an entry point may not reach the
    queue or the socket. *)
Definition blocked (ctx : Ctx) (c : CollabCall) : Prop :=
  isInActiveRoom ctx = false
  \/ (isShowingDiff ctx = true /\ isTagSelection c = false).

(** The number under [config.iterations] (loops) or [config.count]
    (parallels) of a subflow payload. *)
Definition configuredCount (payload : jsval) : option Z :=
  match payload with
  | JObj members =>
      match WebhookVerification.member "config" members with
      | JObj config =>
          match WebhookVerification.member "iterations" config,
                WebhookVerification.member "count" config with
          | JNum n, _ => Some n
          | _, JNum n => Some n
          | _, _ => None
          end
      | _ => None
      end
  | _ => None
  end.

(** The largest count the server is told: 100 for loops, 20 for
    parallels. *)
Definition countLimit (iterationType : string) : Z :=
  if String.eqb iterationType "loop" then 100 else 20.

(** A workflow with a loop block. *)
Definition loopCtx : Ctx :=
  {| isShowingDiff := false;
     currentWorkflowId := Some "wf-1";
     activeWorkflowId := Some "wf-1";
     sessionUserId := Some "user-1";
     randomUUID := randomUUID roomCtx;
     blocks := fun id =>
       if String.eqb id "loop-1"
       then Some {| blockType := "loop"; isWide := false;
                    advancedMode := false; triggerMode := false;
                    horizontalHandles := true |}
       else None;
     getBlock := fun _ => None;
     subBlockValues := fun _ => [];
     variableExists := fun _ => false;
     processedVariableName := fun _ => None |}.

End CollabExtraSpec.

Module DuplicateNameSpec.

Import Js DuplicateName.

(** The last character of the string is not a digit. *)
Fixpoint endsWithoutDigit (s : string) : bool :=
  match s with
  | EmptyString => true
  | String c EmptyString => negb (isDigit c)
  | String _ s' => endsWithoutDigit s'
  end.

(** Value of a decimal numeral read from the left. *)
Fixpoint uintValue (d : Decimal.uint) (acc : Z) : Z :=
  match d with
  | Decimal.Nil => acc
  | Decimal.D0 l => uintValue l (10 * acc)
  | Decimal.D1 l => uintValue l (10 * acc + 1)
  | Decimal.D2 l => uintValue l (10 * acc + 2)
  | Decimal.D3 l => uintValue l (10 * acc + 3)
  | Decimal.D4 l => uintValue l (10 * acc + 4)
  | Decimal.D5 l => uintValue l (10 * acc + 5)
  | Decimal.D6 l => uintValue l (10 * acc + 6)
  | Decimal.D7 l => uintValue l (10 * acc + 7)
  | Decimal.D8 l => uintValue l (10 * acc + 8)
  | Decimal.D9 l => uintValue l (10 * acc + 9)
  end.

End DuplicateNameSpec.

(* ===================================================================== *)
(** * Statements about the script and its variables                     *)
(* ===================================================================== *)

Module FunctionScriptSpec.

Import Js FunctionExecute FunctionScript.

(** A string without a line feed. *)
Fixpoint singleLine (s : string) : bool :=
  match s with
  | EmptyString => true
  | String c s' => negb (Ascii.eqb c "010") && singleLine s'
  end.

(** The line of the script that a stack frame [user-function.js:L] names
    (lines are counted from 1). *)
Definition scriptLine (script : string) (L : Z) : option string :=
  lineAt (splitLines script) (L - 1).

Definition threeLines : string :=
  "const a = 1" +:+ String "010" ("  a.b.c()" +:+ String "010" "return a").


End FunctionScriptSpec.

Module FunctionExecuteExtraSpec.

Import Js FunctionExecute.

(** Strings of decimal digits. *)
Fixpoint allDigits (s : string) : bool :=
  match s with
  | EmptyString => true
  | String c s' => isDigit c && allDigits s'
  end.

(** Unbalanced user code: the VM reports the syntax error on the closing
    lines of the wrapper. *)
Definition unclosedCode : string :=
  "const a = 1" +:+ String "010" "if (a) {".

Definition wrapperSyntaxError : VmError :=
  {| errMessage := "Unexpected token '}'";
     errName := "SyntaxError";
     errStack :=
       Some ("user-function.js:5" +:+ String "010" "  } catch (error) {") |}.


(** An error thrown from the first line of the wrapper. *)
Definition wrapperFrameError : VmError :=
  {| errMessage := "boom";
     errName := "Error";
     errStack := Some ("Error: boom" +:+ String "010" "    at user-function.js:1:1") |}.

End FunctionExecuteExtraSpec.

Module CodeVariablesSpec.

Import Js CodeVariables.

(** A JavaScript identifier made of ASCII letters, digits and [_] that
    does not start with a digit. *)
Fixpoint identChars (s : string) : bool :=
  match s with
  | EmptyString => true
  | String c rest => isIdentChar c && identChars rest
  end.


(** Property read of a parsed JSON value: own members of objects (the
    last entry of a name), nothing else. *)
Definition jsonRead (v : jsval) (key : string) : jsval :=
  match v with
  | JObj members => WebhookVerification.member key members
  | _ => JUndefined
  end.

Definition jsonIsObject (v : jsval) : bool :=
  match v with JNull | JArr _ | JObj _ => true | _ => false end.

Definition sampleBlockData : jsval :=
  JObj [("agent1", JObj [("response", JObj [("content", JStr "hello")])])].

Definition sampleEnvVars (name : string) : jsval :=
  if String.eqb name "API_KEY" then JStr "sk-123" else JUndefined.

Definition sampleParams (name : string) : jsval :=
  if String.eqb name "API_KEY" then JStr "from-params"
  else if String.eqb name "user-id" then JNum 7
  else JUndefined.

Definition sampleCode : string :=
  "fetch(url, {{API_KEY}}, {{ user-id }}, {{API_KEY}})".

End CodeVariablesSpec.

(* ===================================================================== *)
(** * Facts about the JavaScript primitives                              *)
(* ===================================================================== *)

Module JsFacts.

Lemma truthy_nonempty (s : string) : Js.truthy s = true <-> s <> "".
Proof. destruct s; simpl; split; done. Qed.

End JsFacts.

(* ===================================================================== *)
(** * Properties of the signature validators                             *)
(* ===================================================================== *)

Module WebhooksProofs.

Import Webhooks JsFacts.

Lemma charCode_inj (c d : ascii) :
  Z.of_N (N_of_ascii c) = Z.of_N (N_of_ascii d) -> c = d.
Proof.
  intros H. apply N2Z.inj in H.
  rewrite <- (ascii_N_embedding c), <- (ascii_N_embedding d). by rewrite H.
Qed.

(** The accumulator of the loop is zero at the end exactly when it was zero
    at the start and every visited pair of char codes agrees. *)
Lemma fold_compareStep_zero (a b : string) (idx : list nat) (acc : Z) :
  fold_left (compareStep a b) idx acc = 0 <->
  acc = 0 /\ Forall (fun i => Js.toInt32 (Js.charCodeAt a i)
                              = Js.toInt32 (Js.charCodeAt b i)) idx.
Proof.
  revert acc. induction idx as [|i idx IH]; intros acc; simpl.
  - split; [intros ->; by split | by intros [-> _]].
  - rewrite IH. unfold compareStep. rewrite Z.lor_eq_0_iff, Z.lxor_eq_0_iff.
    rewrite Forall_cons. tauto.
Qed.

Lemma charCodeAt_cons (c : ascii) (s : string) (i : nat) :
  Js.charCodeAt (String c s) (S i) = Js.charCodeAt s i.
Proof. reflexivity. Qed.

Lemma same_codes_eq (a : string) : forall b : string,
  String.length a = String.length b ->
  Forall (fun i => Js.toInt32 (Js.charCodeAt a i)
                   = Js.toInt32 (Js.charCodeAt b i)) (seq 0 (String.length a)) ->
  a = b.
Proof.
  induction a as [|c a IH]; intros [|d b] Hlen Hall; simpl in *; try done.
  apply Forall_cons in Hall as [H0 Hrest].
  f_equal.
  - by apply charCode_inj.
  - apply IH; [lia|].
    rewrite <- seq_shift in Hrest. apply Forall_map in Hrest.
    eapply Forall_impl; [exact Hrest|]. intros i Hi. simpl in Hi. exact Hi.
Qed.

Lemma constantTimeCompare_true_iff (a b : string) :
  constantTimeCompare a b = true <-> a = b.
Proof.
  unfold constantTimeCompare. split.
  - destruct (Nat.eqb_spec (String.length a) (String.length b)) as [Hlen|]; simpl; [|done].
    intros H. apply Z.eqb_eq in H. apply fold_compareStep_zero in H as [_ H].
    by apply same_codes_eq.
  - intros <-. rewrite Nat.eqb_refl. simpl. apply Z.eqb_eq.
    apply fold_compareStep_zero. split; [done|]. by apply Forall_forall.
Qed.


(** C5. The comparison loop of [validateSlackSignature] and
    [validateMicrosoftTeamsSignature] (reject on a length mismatch, OR the
    XOR of each pair of char codes, accept on a zero accumulator) computes
    plain string equality: it returns [true] exactly when the computed
    signature equals the provided one. *)
Theorem constantTimeCompare_is_string_equality (computed provided : string) :
  constantTimeCompare computed provided = stringEquals computed provided
  /\ (constantTimeCompare computed provided = true <-> computed = provided).
Proof.
  split; [|apply constantTimeCompare_true_iff].
  unfold stringEquals.
  destruct (String.eqb_spec computed provided) as [->|Hne].
  - by apply constantTimeCompare_true_iff.
  - apply not_true_is_false. intros H. by apply constantTimeCompare_true_iff in H.
Qed.

Section CryptoFacts.

Variable utf8Encode : string -> list Byte.byte.
Variable hmacSha256 : list Byte.byte -> list Byte.byte -> option (list Byte.byte).
Variable base64Decode : string -> list Byte.byte.
Variable base64Encode : list Byte.byte -> string.

(** When [validateMicrosoftTeamsSignature] accepts. *)
Lemma validateMicrosoftTeamsSignature_true_iff (hmacSecret signature body : string) :
  validateMicrosoftTeamsSignature utf8Encode hmacSha256 base64Decode
    base64Encode hmacSecret signature body = true
  <->
  hmacSecret <> "" /\ signature <> "" /\ body <> ""
  /\ Js.startsWith signature "HMAC " = true
  /\ exists mac,
       hmacSha256 (base64Decode hmacSecret) (utf8Encode body) = Some mac
       /\ Js.substringFrom 5 signature = base64Encode mac.
Proof.
  unfold validateMicrosoftTeamsSignature.
  rewrite <- !truthy_nonempty.
  destruct (Js.truthy hmacSecret), (Js.truthy signature), (Js.truthy body);
    simpl; try (split; [done | by intros (? & ? & ? & ? & ?)]).
  destruct (Js.startsWith signature "HMAC "); simpl;
    [|split; [done | by intros (? & ? & ? & ? & ?)]].
  destruct (hmacSha256 _ _) as [mac|].
  - rewrite constantTimeCompare_true_iff. split.
    + intros <-. eauto 10.
    + intros (_ & _ & _ & _ & mac' & [= <-] & ->). done.
  - split; [done|]. intros (_ & _ & _ & _ & mac' & [=] & _).
Qed.

(** C4. [validateMicrosoftTeamsSignature] returns [true] if and only if
    the three arguments are non-empty, the signature starts with
    ['HMAC '] and its remainder is the base64 encoding of the HMAC-SHA256
    of the UTF-8 body under the base64-decoded secret; in every other
    case, a throwing crypto layer included, it returns [false]. *)
Theorem validateMicrosoftTeamsSignature_spec (hmacSecret signature body : string) :
  (validateMicrosoftTeamsSignature utf8Encode hmacSha256 base64Decode
     base64Encode hmacSecret signature body = true
   <->
   hmacSecret <> "" /\ signature <> "" /\ body <> ""
   /\ Js.startsWith signature "HMAC " = true
   /\ exists mac,
        hmacSha256 (base64Decode hmacSecret) (utf8Encode body) = Some mac
        /\ Js.substringFrom 5 signature = base64Encode mac)
  /\ (validateMicrosoftTeamsSignature utf8Encode hmacSha256 base64Decode
        base64Encode hmacSecret signature body = false
      <->
      ~ (hmacSecret <> "" /\ signature <> "" /\ body <> ""
         /\ Js.startsWith signature "HMAC " = true
         /\ exists mac,
              hmacSha256 (base64Decode hmacSecret) (utf8Encode body) = Some mac
              /\ Js.substringFrom 5 signature = base64Encode mac)).
Proof.
  pose proof (validateMicrosoftTeamsSignature_true_iff hmacSecret signature body)
    as Hiff.
  split; [exact Hiff|].
  rewrite <- Hiff. split; [by intros -> | apply not_true_is_false].
Qed.

(** What [validateSlackSignature] computes: the replay window only
    rejects a timestamp that [parseInt] can read. *)
Lemma validateSlackSignature_true_iff (now : Z)
  (signingSecret signature timestamp body : string) :
  validateSlackSignature utf8Encode hmacSha256 now signingSecret signature
    timestamp body = true
  <->
  signingSecret <> "" /\ signature <> "" /\ timestamp <> "" /\ body <> ""
  /\ (forall t, Js.parseInt timestamp = Some t -> Z.abs (now / 1000 - t) <= 300)
  /\ exists mac,
       hmacSha256 (utf8Encode signingSecret)
         (utf8Encode (slackBaseString timestamp body)) = Some mac
       /\ signature = "v0=" +:+ hexEncode mac.
Proof.
  unfold validateSlackSignature.
  rewrite <- !truthy_nonempty.
  destruct (Js.truthy signingSecret), (Js.truthy signature),
    (Js.truthy timestamp), (Js.truthy body);
    simpl; try (split; [done | by intros (? & ? & ? & ? & ?)]).
  destruct (Js.parseInt timestamp) as [t|].
  - destruct (Z.gtb_spec (Z.abs (now / 1000 - t)) 300) as [Hold|Hok].
    + split; [done|]. intros (_ & _ & _ & _ & Hw & _).
      specialize (Hw t eq_refl). lia.
    + destruct (hmacSha256 _ _) as [mac|].
      * rewrite constantTimeCompare_true_iff. split.
        -- intros <-. repeat split; try done.
           ++ by intros ? [= <-].
           ++ by exists mac.
        -- intros (_ & _ & _ & _ & _ & mac' & [= <-] & ->). done.
      * split; [done|]. intros (_ & _ & _ & _ & _ & mac' & [=] & _).
  - destruct (hmacSha256 _ _) as [mac|].
    + rewrite constantTimeCompare_true_iff. split.
      * intros <-. repeat split; try done. by exists mac.
      * intros (_ & _ & _ & _ & _ & mac' & [= <-] & ->). done.
    + split; [done|]. intros (_ & _ & _ & _ & _ & mac' & [=] & _).
Qed.

(** C1 (the code fails the claim). A request whose timestamp header
    [parseInt] cannot read passes the replay check: with a matching
    signature [validateSlackSignature] returns [true], although no
    timestamp within 300 seconds of the current time was presented. *)
Theorem validateSlackSignature_accepts_unreadable_timestamp (now : Z)
  (signingSecret timestamp body : string) (mac : list Byte.byte) :
  signingSecret <> "" -> timestamp <> "" -> body <> "" ->
  Js.parseInt timestamp = None ->
  hmacSha256 (utf8Encode signingSecret)
    (utf8Encode (slackBaseString timestamp body)) = Some mac ->
  validateSlackSignature utf8Encode hmacSha256 now signingSecret
    ("v0=" +:+ hexEncode mac) timestamp body = true
  /\ ~ (exists t, Js.parseInt timestamp = Some t
                  /\ Z.abs (now / 1000 - t) <= 300).
Proof.
  intros Hs Ht Hb Hparse Hmac. split.
  - apply validateSlackSignature_true_iff. repeat split; try done.
    + intros t Hsome. congruence.
    + by exists mac.
  - intros (t & Hsome & _). congruence.
Qed.

End CryptoFacts.

(** An accepted Teams request, with stand-ins for the crypto layer (the
    "MAC" is the message itself, base64 is the identity). *)
Lemma validateMicrosoftTeamsSignature_spec_witness :
  validateMicrosoftTeamsSignature (fun s => String.list_byte_of_string s)
    (fun key msg => Some msg) (fun s => String.list_byte_of_string s)
    (fun bytes => String.string_of_list_byte bytes)
    "c2VjcmV0" "HMAC {}" "{}" = true.
Proof.
  apply (validateMicrosoftTeamsSignature_spec
           (fun s => String.list_byte_of_string s) (fun key msg => Some msg)
           (fun s => String.list_byte_of_string s)
           (fun bytes => String.string_of_list_byte bytes)
           "c2VjcmV0" "HMAC {}" "{}").
  repeat split; try done. by exists (String.list_byte_of_string "{}").
Defined.

Example constantTimeCompare_examples :
  constantTimeCompare "v0=ab12" "v0=ab12" = true
  /\ constantTimeCompare "v0=ab12" "v0=ab13" = false
  /\ constantTimeCompare "v0=ab12" "v0=ab1" = false.
Proof. repeat split. Qed.

(** The failing input of C1 with a stand-in for the crypto layer: secret
    ["s"], timestamp ["abc"], body ["b"]. *)
Lemma validateSlackSignature_accepts_unreadable_timestamp_witness :
  validateSlackSignature (fun s => String.list_byte_of_string s)
    (fun key msg => Some msg) 1700000000000 "s"
    ("v0=" +:+ hexEncode (String.list_byte_of_string "v0:abc:b")) "abc" "b" = true
  /\ ~ (exists t, Js.parseInt "abc" = Some t
                  /\ Z.abs (1700000000000 / 1000 - t) <= 300).
Proof.
  apply (validateSlackSignature_accepts_unreadable_timestamp
           (fun s => String.list_byte_of_string s) (fun key msg => Some msg)
           1700000000000 "s" "abc" "b"); try done.
Defined.

End WebhooksProofs.

(* ===================================================================== *)
(** * Properties of the Airtable polling loop                            *)
(* ===================================================================== *)

Module AirtableProofs.

Import Js Airtable AirtableSpec.

(** Case analysis on every branch of one loop iteration. *)
Ltac iteration_cases :=
  unfold pollIteration, stopPolling; repeat case_match; simpl in *.

Lemma fetchCount_app (a b : list Event) :
  fetchCount (a ++ b) = (fetchCount a + fetchCount b)%nat.
Proof. unfold fetchCount. by rewrite filter_app, length_app. Qed.

(** The counter is incremented at the top of every iteration. *)
Lemma pollIteration_count (env : Env) (st : PollState) :
  apiCallCount (pollIteration env st) = S (apiCallCount st).
Proof. iteration_cases; reflexivity. Qed.

(** Past the tenth call the iteration breaks without fetching. *)
Lemma pollIteration_safety_break (env : Env) (st : PollState) :
  (10 <= apiCallCount st)%nat ->
  events (pollIteration env st) = events st
  /\ mightHaveMore (pollIteration env st) = false.
Proof.
  intros H. unfold pollIteration.
  destruct (Nat.ltb_spec 10 (S (apiCallCount st))); [done | lia].
Qed.

(** An iteration issues at most one request, and none past the cap. *)
Lemma pollIteration_fetches (env : Env) (st : PollState) :
  (fetchCount (events (pollIteration env st)) <= S (fetchCount (events st)))%nat
  /\ ((10 <= apiCallCount st)%nat ->
      fetchCount (events (pollIteration env st)) = fetchCount (events st)).
Proof.
  split.
  - iteration_cases; rewrite ?fetchCount_app; unfold fetchCount; simpl; lia.
  - intros H. by destruct (pollIteration_safety_break env st H) as [-> _].
Qed.

Lemma pollIteration_capped (env : Env) (st : PollState) :
  capped st -> capped (pollIteration env st).
Proof.
  intros [Hf Hm]. unfold capped.
  rewrite pollIteration_count.
  destruct (le_lt_dec 10 (apiCallCount st)) as [Hge|Hlt].
  - destruct (pollIteration_safety_break env st Hge) as [-> ->].
    split; [lia | done].
  - destruct (pollIteration_fetches env st) as [Hle _].
    split; [lia|].
    intros _. lia.
Qed.

(** The loop terminates within eleven iterations and keeps the invariant. *)
Lemma pollLoop_terminates (env : Env) (fuel : nat) : forall st : PollState,
  capped st -> (11 <= apiCallCount st + fuel)%nat ->
  exists st', pollLoop fuel env st = Some st' /\ capped st'
              /\ mightHaveMore st' = false.
Proof.
  induction fuel as [|fuel IH]; intros st Hc Hfuel; simpl.
  - destruct (mightHaveMore st) eqn:Hm; [|eauto].
    destruct Hc as [_ Hc]. specialize (Hc Hm). lia.
  - destruct (mightHaveMore st) eqn:Hm; [|eauto].
    apply IH; [by apply pollIteration_capped|].
    rewrite pollIteration_count. lia.
Qed.

Lemma setup_capped (env : Env) (cfg : option (gmap string jsval)) (st : PollState) :
  setup env cfg = inl st -> capped st /\ apiCallCount st = 0%nat.
Proof.
  unfold setup. intros H. repeat case_match; simplify_eq; unfold capped; simpl;
    (split; [split; [unfold fetchCount; simpl; lia | lia] | done]).
Qed.

Lemma setup_early_no_fetch (env : Env) (cfg : option (gmap string jsval))
  (evs : list Event) :
  setup env cfg = inr evs -> fetchCount evs = 0%nat.
Proof.
  unfold setup. intros H. repeat case_match; simplify_eq; reflexivity.
Qed.

(** Below the cap the iteration sends the request numbered by the
    incremented counter. *)
Lemma pollIteration_fetch_event (env : Env) (st : PollState) :
  (apiCallCount st < 10)%nat ->
  exists rest,
    events (pollIteration env st)
    = events st ++ EvFetch (S (apiCallCount st)) (currentCursor st) :: rest.
Proof.
  intros H. unfold pollIteration.
  destruct (Nat.ltb_spec 10 (S (apiCallCount st))); [lia|].
  unfold stopPolling. repeat case_match; simpl; rewrite <- ?app_assoc; eauto.
Qed.

(** C2. Every invocation of [fetchAndProcessAirtablePayloads] returns (the
    polling loop terminates within eleven passes, whatever the API answers
    for [mightHaveMore]) and sends at most ten requests to the Airtable
    API: each pass increments [apiCallCount] first, sends the request
    with that number while it is at most ten, and breaks without fetching
    once it exceeds ten. *)
Theorem polling_sends_at_most_ten_requests (env : Env)
  (providerConfig : option (gmap string jsval)) (fuel : nat) :
  (11 <= fuel)%nat ->
  (exists outcome,
     fetchAndProcessAirtablePayloads fuel env providerConfig = Some outcome
     /\ (fetchCount (outcomeEvents outcome) <= 10)%nat)
  /\ (forall st,
        apiCallCount (pollIteration env st) = S (apiCallCount st)
        /\ ((apiCallCount st < 10)%nat ->
            exists rest,
              events (pollIteration env st)
              = events st
                ++ EvFetch (S (apiCallCount st)) (currentCursor st) :: rest)
        /\ ((10 <= apiCallCount st)%nat ->
            events (pollIteration env st) = events st
            /\ mightHaveMore (pollIteration env st) = false)).
Proof.
  intros Hfuel. split.
  - unfold fetchAndProcessAirtablePayloads.
    destruct (setup env providerConfig) as [st0|evs] eqn:Hsetup.
    + destruct (setup_capped _ _ _ Hsetup) as [Hc H0].
      destruct (pollLoop_terminates env fuel st0 Hc) as (st' & -> & [Hf _] & _);
        [lia|].
      eexists. split; [reflexivity|]. simpl. lia.
    + eexists. split; [reflexivity|]. simpl.
      rewrite (setup_early_no_fetch _ _ _ Hsetup). lia.
  - intros st. split; [apply pollIteration_count|]. split.
    + apply pollIteration_fetch_event.
    + apply pollIteration_safety_break.
Qed.

Lemma polling_sends_at_most_ten_requests_witness :
  (11 <= 11)%nat
  /\ (exists outcome,
        fetchAndProcessAirtablePayloads 11 alwaysMoreEnv sampleConfig = Some outcome
        /\ (fetchCount (outcomeEvents outcome) <= 10)%nat).
Proof.
  split; [lia|].
  apply (polling_sends_at_most_ten_requests alwaysMoreEnv sampleConfig 11). lia.
Defined.

(** With that API the loop uses the ten requests and stops at the cap. *)
Example alwaysMore_uses_ten_requests :
  match fetchAndProcessAirtablePayloads 11 alwaysMoreEnv sampleConfig with
  | Some outcome => fetchCount (outcomeEvents outcome) = 10%nat
  | None => False
  end.
Proof. vm_compute. reflexivity. Qed.

(** ** Cursor persistence *)

Lemma strictEqCursor_num (n : Z) (cur : option Z) :
  strictEqCursor (JNum n) cur = true <-> cur = Some n.
Proof.
  destruct cur as [c|]; unfold strictEqCursor; [|done].
  rewrite Z.eqb_eq. split; [by intros -> | by intros [= ->]].
Qed.

#[local] Arguments strictEqCursor : simpl never.

Lemma pollIteration_answered (env : Env) (st : PollState) (body : ResponseBody) :
  (apiCallCount st < 10)%nat ->
  fetchPayloads env (S (apiCallCount st)) (currentCursor st)
    = FetchResponse true body ->
  jsTruthy (error body) = false ->
  CursorStep env st body (pollIteration env st).
Proof.
  intros Hcount Hfetch Herr. unfold pollIteration.
  destruct (Nat.ltb_spec 10 (S (apiCallCount st))); [lia|].
  rewrite Hfetch, Herr. simpl.
  replace (match payloads body with Some ps => ps | None => [] end)
    with (default [] (payloads body)) by by destruct (payloads body).
  destruct (cursor body) as [| |b|n|s|l|l] eqn:Hcur; simpl;
    try (apply StepStopped; rewrite Hcur; simpl; by auto).
  - destruct b; simpl; apply StepStopped; rewrite Hcur; simpl; by auto.
  - destruct (Z.eqb_spec n 0) as [->|Hnz]; simpl.
    { apply StepStopped. rewrite Hcur. simpl. by auto. }
    destruct (strictEqCursor (JNum n) (currentCursor st)) eqn:Heq; simpl.
    { apply StepStopped. rewrite Hcur. by auto. }
    assert (currentCursor st <> Some n) as Hne.
    { intros Hc. apply strictEqCursor_num in Hc. congruence. }
    destruct (persistSucceeds env (S (apiCallCount st)) n) eqn:Hp.
    + by apply (StepPersisted env st body n).
    + by apply (StepPersistFailed env st body n).
  - destruct (truthy s); simpl; apply StepStopped; rewrite Hcur; simpl; by auto.
Qed.

(** When the request fails (rejection, HTTP error, error member) the
    iteration stops without touching the cursor. *)
Lemma pollIteration_failed (env : Env) (st : PollState) :
  (apiCallCount st < 10)%nat ->
  match fetchPayloads env (S (apiCallCount st)) (currentCursor st) with
  | FetchThrows => True
  | FetchResponse ok body => ok = false \/ jsTruthy (error body) = true
  end ->
  mightHaveMore (pollIteration env st) = false
  /\ currentCursor (pollIteration env st) = currentCursor st
  /\ dbProviderConfig (pollIteration env st) = dbProviderConfig st
  /\ events (pollIteration env st)
     = events st ++ [EvFetch (S (apiCallCount st)) (currentCursor st)].
Proof.
  intros Hcount Hfail. unfold pollIteration.
  destruct (Nat.ltb_spec 10 (S (apiCallCount st))); [lia|].
  destruct (fetchPayloads env _ _) as [|ok body]; [done|].
  destruct Hfail as [->| ->]; simpl; [done|].
  by rewrite orb_true_r.
Qed.

Lemma persistedBeforeFetch_snoc_other (evs : list Event) (e : Event) :
  persistedBeforeFetch evs -> isFetch e = false ->
  persistedBeforeFetch (evs ++ [e]).
Proof.
  intros Hord He pre n c post Heq Hn.
  destruct post as [|z post _] using rev_ind.
  - apply app_inj_tail in Heq as [_ ->]. done.
  - rewrite app_comm_cons, app_assoc in Heq.
    apply app_inj_tail in Heq as [-> _]. by eapply Hord.
Qed.

Lemma persistedBeforeFetch_snoc_fetch (evs : list Event) (m : nat) (x : option Z) :
  persistedBeforeFetch evs ->
  ((2 <= m)%nat ->
   exists pre' k, evs = pre' ++ [EvPersist (m - 1) k true] /\ x = Some k) ->
  persistedBeforeFetch (evs ++ [EvFetch m x]).
Proof.
  intros Hord Hlast pre n c post Heq Hn.
  destruct post as [|z post _] using rev_ind.
  - apply app_inj_tail in Heq as [-> [= -> ->]]. by apply Hlast.
  - rewrite app_comm_cons, app_assoc in Heq.
    apply app_inj_tail in Heq as [-> _]. by eapply Hord.
Qed.

Lemma pollIteration_ordered (env : Env) (st : PollState) :
  mightHaveMore st = true ->
  persistedBeforeFetch (events st) /\ readyToFetch st ->
  persistedBeforeFetch (events (pollIteration env st))
  /\ readyToFetch (pollIteration env st).
Proof.
  intros Hmore [Hord Hready].
  destruct (le_lt_dec 10 (apiCallCount st)) as [Hge|Hlt].
  { destruct (pollIteration_safety_break env st Hge) as [He Hm].
    rewrite He. split; [done|]. intros Hcontra. congruence. }
  assert (persistedBeforeFetch
            (events st ++ [EvFetch (S (apiCallCount st)) (currentCursor st)]))
    as Hfetch.
  { apply persistedBeforeFetch_snoc_fetch; [done|]. intros Hn.
    destruct Hready as (pre & k & He & Hc & _); [done | lia |].
    exists pre, k. split; [|done].
    by replace (S (apiCallCount st) - 1)%nat with (apiCallCount st) by lia. }
  destruct (fetchPayloads env (S (apiCallCount st)) (currentCursor st))
    as [|ok body] eqn:Hresp.
  - destruct (pollIteration_failed env st Hlt) as (Hm & _ & _ & He);
      [by rewrite Hresp|].
    rewrite He. split; [done|]. intros Hcontra. congruence.
  - destruct ok, (jsTruthy (error body)) eqn:Herr;
      try (destruct (pollIteration_failed env st Hlt) as (Hm & _ & _ & He);
           [rewrite Hresp; by auto|];
           rewrite He; split; [done|]; intros Hcontra; congruence).
    destruct (pollIteration_answered env st body Hlt Hresp Herr).
    + simpl. split.
      * by apply persistedBeforeFetch_snoc_other.
      * intros _ _. simpl. eexists _, next. split; [reflexivity|].
        split; [done|]. apply lookup_insert_eq.
    + simpl. split; [by apply persistedBeforeFetch_snoc_other|].
      intros Hcontra. simpl in Hcontra. congruence.
    + simpl. split; [done|]. intros Hcontra. simpl in Hcontra. congruence.
Qed.

Lemma pollLoop_ordered (env : Env) (fuel : nat) : forall st st' : PollState,
  persistedBeforeFetch (events st) /\ readyToFetch st ->
  pollLoop fuel env st = Some st' ->
  persistedBeforeFetch (events st').
Proof.
  induction fuel as [|fuel IH]; intros st st' Hinv Hrun; simpl in Hrun.
  - destruct (mightHaveMore st); [done|]. injection Hrun as <-. apply Hinv.
  - destruct (mightHaveMore st) eqn:Hm.
    + eapply IH; [|exact Hrun]. by apply pollIteration_ordered.
    + injection Hrun as <-. apply Hinv.
Qed.

Lemma setup_ordered (env : Env) (cfg : option (gmap string jsval)) (st : PollState) :
  setup env cfg = inl st ->
  persistedBeforeFetch (events st) /\ readyToFetch st.
Proof.
  intros H. destruct (setup_capped _ _ _ H) as [_ H0].
  split.
  - intros pre n c post Heq _. exfalso.
    unfold setup in H. repeat case_match; simplify_eq; simpl in Heq;
      destruct pre as [|? [|? ?]]; simplify_eq.
  - intros _ H1. lia.
Qed.

(** C3 (amended). Once the API has answered without an error: a cursor
    that is a non-zero number different from the current one is written
    to the row's [providerConfig.externalWebhookCursor] before anything
    else happens, and the loop goes on only if that write succeeded; a
    failed write stops the loop; a cursor that is missing, zero, not a
    number or equal to the current one stops the loop and leaves the
    stored cursor alone. In a whole run every request after the first
    directly follows the successful write of the cursor it sends. *)
Theorem cursor_persisted_before_next_fetch (env : Env) :
  (forall st body,
     (apiCallCount st < 10)%nat ->
     fetchPayloads env (S (apiCallCount st)) (currentCursor st)
       = FetchResponse true body ->
     jsTruthy (error body) = false ->
     let st' := pollIteration env st in
     (forall next,
        cursor body = JNum next -> next <> 0 -> currentCursor st <> Some next ->
        if persistSucceeds env (S (apiCallCount st)) next then
          dbProviderConfig st' !! cursorKey = Some (JNum next)
          /\ currentCursor st' = Some next
          /\ mightHaveMore st' = jsTruthy (mightHaveMoreField body)
          /\ events st'
             = events st ++ [EvFetch (S (apiCallCount st)) (currentCursor st);
                             EvPersist (S (apiCallCount st)) next true]
        else
          mightHaveMore st' = false
          /\ dbProviderConfig st' = dbProviderConfig st)
     /\ (jsTruthy (cursor body) = false \/ isNumber (cursor body) = false
         \/ strictEqCursor (cursor body) (currentCursor st) = true ->
         mightHaveMore st' = false
         /\ currentCursor st' = currentCursor st
         /\ dbProviderConfig st' = dbProviderConfig st))
  /\ (forall fuel providerConfig st result,
        fetchAndProcessAirtablePayloads fuel env providerConfig
          = Some (Polled st result) ->
        persistedBeforeFetch (events st)).
Proof.
  split.
  - intros st body Hcount Hresp Herr st'. subst st'.
    destruct (pollIteration_answered env st body Hcount Hresp Herr)
      as [next Hcur Hnz Hne Hp | next Hcur Hnz Hne Hp | Hstop].
    + split.
      * intros next' Hcur' _ _. assert (next' = next) as -> by congruence.
        rewrite Hp. simpl. rewrite lookup_insert_eq, <- app_assoc. repeat split.
      * intros [H|[H|H]]; rewrite Hcur in H; simpl in H.
        -- apply negb_false_iff, Z.eqb_eq in H. done.
        -- done.
        -- by apply strictEqCursor_num in H.
    + split.
      * intros next' Hcur' _ _. assert (next' = next) as -> by congruence.
        by rewrite Hp.
      * intros [H|[H|H]]; rewrite Hcur in H; simpl in H.
        -- apply negb_false_iff, Z.eqb_eq in H. done.
        -- done.
        -- by apply strictEqCursor_num in H.
    + split; [|done].
      intros next Hcur Hnz Hne. exfalso.
      destruct Hstop as [H|[H|H]]; rewrite Hcur in H; simpl in H.
      * apply negb_false_iff, Z.eqb_eq in H. done.
      * done.
      * by apply strictEqCursor_num in H.
  - intros fuel cfg st result Hrun.
    unfold fetchAndProcessAirtablePayloads in Hrun.
    destruct (setup env cfg) as [st0|] eqn:Hsetup; [|done].
    destruct (pollLoop fuel env st0) as [st1|] eqn:Hloop; [|done].
    injection Hrun as <- _.
    eapply pollLoop_ordered; [|exact Hloop]. by eapply setup_ordered.
Qed.

(** C3 as stated fails: the response carries the numeric cursor [0], the
    current cursor is [null], yet nothing is written to the database (the
    stored cursor stays [null]) and the loop stops. *)
Lemma zero_cursor_is_not_persisted :
  match fetchAndProcessAirtablePayloads 11 zeroCursorEnv sampleConfig with
  | Some (Polled st _) =>
      isNumber (JNum 0) = true
      /\ strictEqCursor (JNum 0) None = false
      /\ events st = [EvInitCursor true; EvFetch 1 None]
      /\ dbProviderConfig st !! cursorKey = Some JNull
      /\ currentCursor st = None
  | _ => False
  end.
Proof. vm_compute. repeat split. Qed.

Lemma cursor_persisted_before_next_fetch_witness :
  let st0 :=
    {| currentCursor := None; mightHaveMore := true; payloadsFetched := 0;
       apiCallCount := 0; consolidatedChangesMap := []; allPayloads := [];
       localProviderConfig := ∅; dbProviderConfig := ∅; events := [] |} in
  dbProviderConfig (pollIteration alwaysMoreEnv st0) !! cursorKey = Some (JNum 1)
  /\ events (pollIteration alwaysMoreEnv st0)
     = [EvFetch 1 None; EvPersist 1 1 true].
Proof.
  intros st0.
  destruct (cursor_persisted_before_next_fetch alwaysMoreEnv) as [Hstep _].
  specialize (Hstep st0 _ ltac:(simpl; lia) eq_refl eq_refl).
  destruct Hstep as [Hpersist _].
  specialize (Hpersist 1 eq_refl ltac:(lia) ltac:(done)).
  simpl in Hpersist. destruct Hpersist as (Hdb & _ & _ & Hev). by split.
Defined.


(** ** Consolidation of the changes per record *)

Lemma fold_left_map {A B C} (f : A -> B -> A) (g : C -> B) (l : list C) (a : A) :
  fold_left f (map g l) a = fold_left (fun acc x => f acc (g x)) l a.
Proof. revert a. induction l as [|x l IH]; intros a; simpl; [done | apply IH]. Qed.

Lemma fold_left_concat {A B} (f : A -> B -> A) (ls : list (list B)) (a : A) :
  fold_left f (concat ls) a = fold_left (fun acc l => fold_left f l acc) ls a.
Proof.
  revert a. induction ls as [|l ls IH]; intros a; simpl; [done|].
  by rewrite fold_left_app, IH.
Qed.

Lemma fold_left_pointwise {A B} (f g : A -> B -> A) (l : list B) (a : A) :
  (forall acc x, f acc x = g acc x) -> fold_left f l a = fold_left g l a.
Proof.
  intros H. revert a. induction l as [|x l IH]; intros a; simpl; [done|].
  by rewrite H, IH.
Qed.

Lemma handleCreated_sightings (tid : string) (recs : list (string * CreatedRecord))
  (m : ChangesMap) :
  fold_left (handleCreated tid) recs m
  = fold_left applySighting
      (map (fun e => SeenCreated tid (fst e) (snd e)) recs) m.
Proof. rewrite fold_left_map. apply fold_left_pointwise. by intros acc []. Qed.

Lemma handleChanged_sightings (tid : string) (recs : list (string * ChangedRecord))
  (m : ChangesMap) :
  fold_left (handleChanged tid) recs m
  = fold_left applySighting
      (map (fun e => SeenChanged tid (fst e) (snd e)) recs) m.
Proof. rewrite fold_left_map. apply fold_left_pointwise. by intros acc []. Qed.

Lemma handleTable_sightings (m : ChangesMap) (entry : string * TableChanges) :
  handleTable m entry = fold_left applySighting (sightingsOfTable entry) m.
Proof.
  destruct entry as [tid tc]. unfold handleTable, sightingsOfTable. simpl.
  rewrite fold_left_app.
  destruct (createdRecordsById tc) as [cs|], (changedRecordsById tc) as [us|];
    simpl; by rewrite ?handleCreated_sightings, ?handleChanged_sightings.
Qed.

Lemma handlePayload_sightings (m : ChangesMap) (p : Payload) :
  handlePayload m p = fold_left applySighting (sightingsOfPayload p) m.
Proof.
  unfold handlePayload, sightingsOfPayload.
  destruct (changedTablesById p) as [tables|]; [|done].
  rewrite fold_left_concat, fold_left_map.
  apply fold_left_pointwise. intros acc x. apply handleTable_sightings.
Qed.

(** The nested loops visit the sightings one by one. *)
Lemma consolidate_sightings (m : ChangesMap) (ps : list Payload) :
  consolidate m ps = fold_left applySighting (sightings ps) m.
Proof.
  unfold consolidate, sightings.
  rewrite fold_left_concat, fold_left_map.
  apply fold_left_pointwise. intros acc x. apply handlePayload_sightings.
Qed.

Lemma mapGet_mapSet_eq (k : string) (v : AirtableChange) (m : ChangesMap) :
  mapGet k (mapSet k v m) = Some v.
Proof.
  induction m as [|[k' v'] m IH]; simpl.
  - by rewrite String.eqb_refl.
  - destruct (String.eqb_spec k' k) as [->|Hne]; simpl.
    + by rewrite String.eqb_refl.
    + destruct (String.eqb_spec k' k); [done | apply IH].
Qed.

Lemma mapGet_mapSet_ne (k k' : string) (v : AirtableChange) (m : ChangesMap) :
  k <> k' -> mapGet k' (mapSet k v m) = mapGet k' m.
Proof.
  intros Hne. induction m as [|[k0 v0] m IH]; simpl.
  - destruct (String.eqb_spec k k'); [done | reflexivity].
  - destruct (String.eqb_spec k0 k) as [->|Hk]; simpl.
    + destruct (String.eqb_spec k k'); [done | reflexivity].
    + destruct (String.eqb_spec k0 k'); [reflexivity | apply IH].
Qed.

Lemma mapGet_None_keys (k : string) (m : ChangesMap) :
  mapGet k m = None <-> k ∉ map fst m.
Proof.
  induction m as [|[k0 v0] m IH]; simpl.
  - split; [intros _; apply not_elem_of_nil | done].
  - rewrite not_elem_of_cons, <- IH.
    destruct (String.eqb_spec k0 k) as [->|Hk].
    + split; [done | by intros [? _]].
    + split; [intros H; split; [congruence | done] | by intros [_ ?]].
Qed.

Lemma mapSet_keys (k : string) (v : AirtableChange) (m : ChangesMap) :
  map fst (mapSet k v m)
  = match mapGet k m with
    | Some _ => map fst m
    | None => map fst m ++ [k]
    end.
Proof.
  induction m as [|[k0 v0] m IH]; simpl; [done|].
  destruct (String.eqb_spec k0 k) as [->|Hk]; simpl; [done|].
  rewrite IH. by destruct (mapGet k m).
Qed.

Lemma mapSet_keyed (k : string) (v : AirtableChange) (m : ChangesMap) :
  keyed m -> recordId v = k -> keyed (mapSet k v m).
Proof.
  intros [Hnd Hall] Hv. split.
  - rewrite mapSet_keys. destruct (mapGet k m) eqn:Hg; [done|].
    apply NoDup_app. split; [done|]. split.
    + intros x Hx Hx'. apply list_elem_of_singleton in Hx' as ->.
      by apply mapGet_None_keys in Hg.
    + apply NoDup_singleton.
  - clear Hnd. induction m as [|[k0 v0] m IH]; simpl.
    + by repeat constructor.
    + apply Forall_cons in Hall as [H0 Hall].
      destruct (String.eqb_spec k0 k) as [->|Hk].
      * by constructor.
      * constructor; [done | by apply IH].
Qed.

Lemma mapGet_keyed (k : string) (c : AirtableChange) (m : ChangesMap) :
  keyed m -> mapGet k m = Some c -> recordId c = k.
Proof.
  intros [_ Hall] Hg. induction m as [|[k0 v0] m IH]; simpl in *; [done|].
  apply Forall_cons in Hall as [H0 Hall].
  destruct (String.eqb_spec k0 k) as [->|Hk]; [|by apply IH].
  by injection Hg as <-.
Qed.

Lemma applySighting_keyed (m : ChangesMap) (s : Sighting) :
  keyed m -> keyed (applySighting m s).
Proof.
  intros Hk. destruct s as [tid rid r|tid rid r]; simpl;
    unfold handleCreated, handleChanged;
    destruct (mapGet rid m) as [c|] eqn:Hg;
    apply mapSet_keyed; try done; simpl; by eapply mapGet_keyed.
Qed.

Lemma applySighting_get (m : ChangesMap) (s : Sighting) (rid : string) :
  keyed m ->
  mapGet rid (applySighting m s)
  = if String.eqb (sightingId s) rid then recordStep (mapGet rid m) s
    else mapGet rid m.
Proof.
  intros Hk.
  destruct s as [tid id r|tid id r]; simpl;
    unfold handleCreated, handleChanged;
    (destruct (String.eqb_spec id rid) as [->|Hne];
     [ destruct (mapGet rid m) as [c|] eqn:Hg;
       rewrite mapGet_mapSet_eq; unfold recordStep; simpl; reflexivity
     | destruct (mapGet id m); by rewrite mapGet_mapSet_ne ]).
Qed.

Lemma sightings_keyed (ss : list Sighting) (m : ChangesMap) :
  keyed m -> keyed (fold_left applySighting ss m).
Proof.
  revert m. induction ss as [|s ss IH]; intros m Hk; simpl; [done|].
  by apply IH, applySighting_keyed.
Qed.

(** The entry of a record only depends on the sightings of that record. *)
Lemma sightings_get (ss : list Sighting) (rid : string) (m : ChangesMap) :
  keyed m ->
  mapGet rid (fold_left applySighting ss m)
  = fold_left recordStep
      (List.filter (fun s => String.eqb (sightingId s) rid) ss) (mapGet rid m).
Proof.
  revert m. induction ss as [|s ss IH]; intros m Hk; simpl; [done|].
  rewrite IH by by apply applySighting_keyed.
  rewrite applySighting_get by done.
  by destruct (String.eqb (sightingId s) rid).
Qed.



(** Later sightings of a record that is already in the map merge their
    fields into it, may turn its type to ['updated'], and leave the table,
    the record id and the previous fields alone. *)
Lemma recordStep_later (later : list Sighting) : forall c : AirtableChange,
  fold_left recordStep later (Some c)
  = Some {| tableId := tableId c;
            recordId := recordId c;
            changeType :=
              if existsb isChanged later then updated else changeType c;
            changedFields :=
              fold_left (fun acc s => spread acc (sightingFields s)) later
                        (changedFields c);
            previousFields := previousFields c |}.
Proof.
  induction later as [|s later IH]; intros c.
  - by destruct c.
  - change (fold_left recordStep (s :: later) (Some c))
      with (fold_left recordStep later (recordStep (Some c) s)).
    unfold recordStep at 2. rewrite IH. simpl.
    by destruct (isChanged s), (existsb isChanged later).
Qed.

Lemma recordStep_all (rid : string) (seen : list Sighting) :
  Forall (fun s => sightingId s = rid) seen ->
  fold_left recordStep seen None = expectedChange rid seen.
Proof.
  destruct seen as [|first later]; [done|].
  intros Hall. apply Forall_cons in Hall as [<- _].
  change (fold_left recordStep (first :: later) None)
    with (fold_left recordStep later (recordStep None first)).
  unfold recordStep at 2. rewrite recordStep_later. simpl.
  by destruct (isChanged first), (existsb isChanged later).
Qed.


Lemma keyed_empty : keyed [].
Proof. split; [apply NoDup_nil_2 | constructor]. Qed.


Lemma consolidate_app (m : ChangesMap) (ps qs : list Payload) :
  consolidate m (ps ++ qs) = consolidate (consolidate m ps) qs.
Proof. unfold consolidate. apply fold_left_app. Qed.

Lemma pollIteration_consolidated (env : Env) (st : PollState) :
  consolidated st -> consolidated (pollIteration env st).
Proof.
  unfold consolidated. intros H.
  iteration_cases; rewrite ?consolidate_app, ?app_nil_r, <- ?H; done.
Qed.

Lemma pollLoop_consolidated (env : Env) (fuel : nat) : forall st st',
  consolidated st -> pollLoop fuel env st = Some st' -> consolidated st'.
Proof.
  induction fuel as [|fuel IH]; intros st st' Hc Hrun; simpl in Hrun.
  - destruct (mightHaveMore st); [done|]. by injection Hrun as <-.
  - destruct (mightHaveMore st).
    + eapply IH; [|exact Hrun]. by apply pollIteration_consolidated.
    + by injection Hrun as <-.
Qed.

Lemma setup_consolidated (env : Env) (cfg : option (gmap string jsval)) (st : PollState) :
  setup env cfg = inl st -> consolidated st.
Proof.
  unfold setup, consolidated. intros H. repeat case_match; by simplify_eq.
Qed.



Lemma consolidate_expected (ps : list Payload) (rid : string) :
  mapGet rid (consolidate [] ps) = expectedChange rid (sightingsOf rid ps).
Proof.
  rewrite consolidate_sightings, sightings_get by apply keyed_empty. simpl.
  apply recordStep_all. unfold sightingsOf.
  apply Forall_forall. intros s Hs.
  apply list_elem_of_In, filter_In in Hs as [_ Hs].
  by apply String.eqb_eq.
Qed.


(** A record that is in the map keeps its previous fields, its table and
    its id whatever payloads follow. *)
Lemma previousFields_never_overwritten (m : ChangesMap) (ps : list Payload)
  (rid : string) (c : AirtableChange) :
  keyed m -> mapGet rid m = Some c ->
  exists c', mapGet rid (consolidate m ps) = Some c'
             /\ previousFields c' = previousFields c
             /\ tableId c' = tableId c /\ recordId c' = recordId c.
Proof.
  intros Hk Hg. rewrite consolidate_sightings, sightings_get by done.
  rewrite Hg, recordStep_later. eexists. split; [reflexivity|]. done.
Qed.

(** A record seen in [changedRecordsById] ends as ['updated']. *)
Lemma changed_record_is_updated (ps : list Payload) (rid : string) :
  existsb isChanged (sightingsOf rid ps) = true ->
  exists c, mapGet rid (consolidate [] ps) = Some c /\ changeType c = updated.
Proof.
  intros H. rewrite consolidate_expected.
  destruct (sightingsOf rid ps) as [|first later]; [done|].
  eexists. split; [reflexivity|]. simpl in *. by rewrite H.
Qed.

Example createThenUpdate_result :
  match fetchAndProcessAirtablePayloads 11 createThenUpdateEnv sampleConfig with
  | Some (Polled st (Some input)) =>
      fetchCount (events st) = 2%nat
      /\ match airtableChanges input with
         | [c] => recordId c = "rec1" /\ changeType c = updated
                  /\ changedFields c !! "fld1" = Some (JNum 2)
                  /\ previousFields c = None
         | _ => False
         end
  | _ => False
  end.
Proof. vm_compute. repeat split. Qed.


End AirtableProofs.

(* ===================================================================== *)
(** * Properties of the collaboration hook                               *)
(* ===================================================================== *)

Module CollabProofs.

Import Js Collab CollabSpec.

(** ** Ordering of remote position updates *)

(** The stored timestamp of a block never decreases under a position
    update, and the timestamps of other blocks are untouched. *)
Lemma position_update_monotone (id : string) (position : jsval)
  (timestamp : option Z) (ts : gmap string Z) (other : string) :
  lastTimestampOf ts other
  <= lastTimestampOf
       (fst (applyRemoteOperation (RemoteUpdatePosition id position timestamp) ts))
       other.
Proof.
  simpl. destruct (timestampMissing timestamp); simpl; [lia|].
  destruct timestamp as [t|]; simpl.
  - destruct (Z.geb_spec t (lastTimestampOf ts id)) as [Hge|Hlt]; simpl; [|lia].
    unfold lastTimestampOf at 2. destruct (decide (id = other)) as [->|Hne].
    + rewrite lookup_insert_eq. lia.
    + rewrite lookup_insert_ne by done. fold (lastTimestampOf ts other). lia.
  - destruct (Z.geb_spec 0 (lastTimestampOf ts id)); simpl; [|lia].
    unfold lastTimestampOf at 2. destruct (decide (id = other)) as [->|Hne].
    + rewrite lookup_insert_eq. lia.
    + rewrite lookup_insert_ne by done. fold (lastTimestampOf ts other). lia.
Qed.

Lemma handleRemote_flag (ev : RemoteEvent) (st : HookState) :
  isApplyingRemoteChange st = false ->
  isApplyingRemoteChange (fst (handleRemote ev st)) = false.
Proof.
  intros Hf. destruct ev as [data| |]; simpl;
    unfold handleWorkflowOperation, handleSubblockUpdate, handleVariableUpdate;
    rewrite Hf; try done.
  by destruct (applyRemoteOperation data _).
Qed.

Lemma handleRemote_monotone (ev : RemoteEvent) (st : HookState) (id : string) :
  keepsTimestamps ev ->
  lastTimestampOf (lastPositionTimestamps st) id
  <= lastTimestampOf (lastPositionTimestamps (fst (handleRemote ev st))) id.
Proof.
  intros Hk. destruct ev as [data| |]; simpl;
    unfold handleWorkflowOperation, handleSubblockUpdate, handleVariableUpdate;
    destruct (isApplyingRemoteChange st); simpl; try lia.
  destruct data as [b p t| |calls]; [|done|simpl; lia].
  pose proof (position_update_monotone b p t (lastPositionTimestamps st) id) as H.
  destruct (applyRemoteOperation _ _) as [ts calls]. simpl in *. exact H.
Qed.

Lemma handleAll_app (evs1 evs2 : list RemoteEvent) (st : HookState) :
  fst (handleAll (evs1 ++ evs2) st)
  = fst (handleAll evs2 (fst (handleAll evs1 st))).
Proof.
  revert st. induction evs1 as [|ev evs1 IH]; intros st; simpl; [done|].
  unfold andThen. destruct (handleRemote ev st) as [st1 e1]. simpl.
  specialize (IH st1).
  destruct (handleAll (evs1 ++ evs2) st1) as [st2 e2].
  destruct (handleAll evs1 st1) as [st3 e3]. simpl in *. done.
Qed.

Lemma handleAll_monotone (evs : list RemoteEvent) : forall (st : HookState) (id : string),
  Forall keepsTimestamps evs ->
  lastTimestampOf (lastPositionTimestamps st) id
  <= lastTimestampOf (lastPositionTimestamps (fst (handleAll evs st))) id.
Proof.
  induction evs as [|ev evs IH]; intros st id Hall; simpl; [lia|].
  apply Forall_cons in Hall as [Hev Hall].
  pose proof (handleRemote_monotone ev st id Hev) as H1.
  unfold andThen. destruct (handleRemote ev st) as [st1 e1]. simpl in H1.
  specialize (IH st1 id Hall).
  destruct (handleAll evs st1) as [st2 e2]. simpl in *. lia.
Qed.

(** C6 (amended). For a remote ['update-position'] the handler calls
    [updateBlockPosition] if and only if the timestamp is missing or zero
    (falsy), or is at least the stored last timestamp of the block
    (0 when none is stored); it makes no store call otherwise and leaves
    the timestamps alone. An update applied with a non-zero timestamp
    records that timestamp, and every applied non-zero timestamp is at
    least the stored one. Over any sequence of remote events without block
    removals the stored timestamp of each block never decreases. *)
Theorem position_updates_are_ordered :
  (forall (id : string) (position : jsval) (timestamp : option Z)
          (st : HookState),
     isApplyingRemoteChange st = false ->
     let result :=
       handleWorkflowOperation (RemoteUpdatePosition id position timestamp) st in
     let applies :=
       timestampMissing timestamp
       || (default 0 timestamp
           >=? lastTimestampOf (lastPositionTimestamps st) id) in
     snd result
       = (if applies then [StoreCall (updatePositionCall id position)] else [])
     /\ (applies = false -> fst result = st)
     /\ (forall t, timestamp = Some t -> t <> 0 -> applies = true ->
           lastTimestampOf (lastPositionTimestamps st) id <= t
           /\ lastPositionTimestamps (fst result) !! id = Some t))
  /\ (forall (evs1 evs2 : list RemoteEvent) (st : HookState) (id : string),
        Forall keepsTimestamps evs2 ->
        lastTimestampOf (lastPositionTimestamps (fst (handleAll evs1 st))) id
        <= lastTimestampOf
             (lastPositionTimestamps (fst (handleAll (evs1 ++ evs2) st))) id).
Proof.
  split.
  - intros id position timestamp st Hflag result applies.
    subst result applies. unfold handleWorkflowOperation. rewrite Hflag.
    simpl. destruct timestamp as [t|]; simpl.
    + destruct (Z.eqb_spec t 0) as [->|Hnz]; simpl.
      * split; [done|]. split; [done|]. by intros ? [= <-].
      * destruct (Z.geb_spec t (lastTimestampOf (lastPositionTimestamps st) id))
          as [Hge|Hlt]; simpl.
        -- split; [done|]. split; [done|].
           intros ? [= <-] _ _. split; [lia | apply lookup_insert_eq].
        -- split; [done|]. split; [|done].
           intros _. destruct st. simpl in *. by subst.
    + split; [done|]. split; done.
  - intros evs1 evs2 st id Hall. rewrite handleAll_app.
    by apply handleAll_monotone.
Qed.

(** C6 as stated fails: the block's last applied timestamp is 5 and the
    update carries timestamp 0, which is strictly older, yet the position
    is applied (0 is falsy, so the update counts as having no timestamp). *)
Lemma zero_timestamp_update_is_applied :
  handleWorkflowOperation
    (RemoteUpdatePosition "block-1" samplePosition (Some 0)) trackedState
  = (trackedState, [StoreCall (updatePositionCall "block-1" samplePosition)])
  /\ 0 < lastTimestampOf (lastPositionTimestamps trackedState) "block-1".
Proof. split; [reflexivity | by vm_compute]. Qed.

Lemma position_updates_are_ordered_witness :
  snd (handleWorkflowOperation
         (RemoteUpdatePosition "block-1" samplePosition (Some 3)) trackedState)
  = []
  /\ lastPositionTimestamps
       (fst (handleWorkflowOperation
               (RemoteUpdatePosition "block-1" samplePosition (Some 7))
               trackedState)) !! "block-1" = Some 7.
Proof.
  destruct position_updates_are_ordered as [Hstep _]. split.
  - destruct (Hstep "block-1" samplePosition (Some 3) trackedState eq_refl)
      as [Hcalls _]. exact Hcalls.
  - destruct (Hstep "block-1" samplePosition (Some 7) trackedState eq_refl)
      as (_ & _ & Hrec).
    destruct (Hrec 7 eq_refl ltac:(lia) ltac:(by vm_compute)) as [_ H]. exact H.
Defined.


(** ** Termination of the declarative clearing *)








(** ** What a cascade does *)

Lemma enqueuedIds_app (a b : list Effect) :
  enqueuedIds (a ++ b) = enqueuedIds a ++ enqueuedIds b.
Proof. unfold enqueuedIds. apply omap_app. Qed.

Lemma traced_refl (ctx : Ctx) (st : HookState) : traced ctx st st [].
Proof.
  unfold traced. repeat split; try done.
  by replace (uuidsDrawn st - uuidsDrawn st)%nat with 0%nat by lia.
Qed.

Lemma traced_trans (ctx : Ctx) (st st1 st2 : HookState) (e1 e2 : list Effect) :
  traced ctx st st1 e1 -> traced ctx st1 st2 e2 -> traced ctx st st2 (e1 ++ e2).
Proof.
  intros (Hf1 & Ht1 & Hu1 & Ha1 & Hi1) (Hf2 & Ht2 & Hu2 & Ha2 & Hi2).
  unfold traced. repeat split; try congruence; try lia.
  - by apply Forall_app.
  - rewrite enqueuedIds_app, Hi1, Hi2, <- map_app. f_equal.
    replace (uuidsDrawn st2 - uuidsDrawn st)%nat
      with ((uuidsDrawn st1 - uuidsDrawn st)
            + (uuidsDrawn st2 - uuidsDrawn st1))%nat by lia.
    rewrite seq_app. do 2 f_equal. lia.
Qed.

Lemma traced_first (ctx : Ctx) (st : HookState) (op : QueuedOperation)
  (c : StoreCallT) :
  opId op = randomUUID ctx (uuidsDrawn st) ->
  traced ctx st (drawUUID st) [AddToQueue op; StoreCall c].
Proof.
  intros Hid. unfold traced. simpl. repeat split; try done; try lia.
  - by repeat constructor.
  - replace (S (uuidsDrawn st) - uuidsDrawn st)%nat with 1%nat by lia.
    simpl. by rewrite Hid.
Qed.

Lemma cascade_traced (ctx : Ctx)
  (recur : string -> gset string -> HookState -> option (gset string * Result))
  (subblockId : string) :
  (forall d visited st visited' st' effs,
     recur d visited st = Some (visited', (st', effs)) -> traced ctx st st' effs) ->
  forall (deps : list SubBlockConfig) (v : gset string) (st0 st : HookState)
         (effs : list Effect) (v' : gset string) (st' : HookState)
         (effs' : list Effect),
    traced ctx st0 st effs ->
    cascade recur subblockId deps (v, (st, effs)) = Some (v', (st', effs')) ->
    traced ctx st0 st' effs' /\ exists more, effs' = effs ++ more.
Proof.
  intros Hrec deps.
  induction deps as [|dep deps IH]; intros v st0 st effs v' st' effs' Ht Hrun;
    simpl in Hrun.
  - injection Hrun as <- <- <-. split; [done|]. exists []. by rewrite app_nil_r.
  - destruct (subBlockId dep) as [depId|]; [|by eapply IH].
    destruct (negb (truthy depId) || String.eqb depId subblockId); [by eapply IH|].
    destruct (recur depId v st) as [[v1 [st1 e1]]|] eqn:Hcall; [|done].
    destruct (IH v1 st0 st1 (effs ++ e1) v' st' effs') as [Ht' [more ->]];
      [|exact Hrun|].
    + eapply traced_trans; [exact Ht|]. by eapply Hrec.
    + split; [done|]. exists (e1 ++ more). by rewrite app_assoc.
Qed.

(** Outside the three preconditions the call does nothing; inside, it
    first enqueues one operation under a fresh UUID and sets the value,
    then runs the cascade, which only enqueues and sets values. *)
Lemma setSubblockValue_traced (ctx : Ctx) (blockId : string) (fuel : nat) :
  forall (subblockId : string) (value : jsval) (visited : gset string)
         (st : HookState) (visited' : gset string) (st' : HookState)
         (effs : list Effect),
    setSubblockValue fuel ctx blockId subblockId value visited st
      = Some (visited', (st', effs)) ->
    traced ctx st st' effs
    /\ if mayEdit ctx st then
         exists rest,
           effs = AddToQueue (queuedOperation ctx (randomUUID ctx (uuidsDrawn st))
                                "subblock-update" "subblock"
                                (subblockPayload blockId subblockId value) false)
                  :: StoreCall (setValueCall blockId subblockId value) :: rest
       else st' = st /\ effs = [].
Proof.
  induction fuel as [|fuel IH]; intros s value visited st v' st' effs Hrun; [done|].
  simpl in Hrun. unfold mayEdit.
  destruct (isApplyingRemoteChange st) eqn:Hflag.
  { injection Hrun as <- <- <-. rewrite andb_false_r.
    split; [apply traced_refl | done]. }
  destruct (isShowingDiff ctx) eqn:Hdiff.
  { injection Hrun as <- <- <-. rewrite andb_false_r.
    split; [apply traced_refl | done]. }
  destruct (isInActiveRoom ctx) eqn:Hroom; simpl in *.
  2:{ injection Hrun as <- <- <-. split; [apply traced_refl | done]. }
  destruct (bool_decide (s ∈ visited)).
  { injection Hrun as <- <- <-. split; [by apply traced_first | by exists []]. }
  eapply cascade_traced in Hrun as [Ht [more ->]].
  - split; [exact Ht|]. by exists more.
  - intros d v0 st0 v1 st1 e1 Hcall. by destruct (IH _ _ _ _ _ _ _ Hcall).
  - by apply traced_first.
Qed.


(** ** Optimistic application of local edits *)

Lemma mayEdit_false (ctx : Ctx) (st : HookState) :
  mayEdit ctx st = false ->
  isApplyingRemoteChange st = true \/ isShowingDiff ctx = true
  \/ isInActiveRoom ctx = false.
Proof.
  unfold mayEdit.
  destruct (isApplyingRemoteChange st), (isShowingDiff ctx), (isInActiveRoom ctx);
    simpl; auto.
Qed.

Lemma executeQueuedOperation_spec (ctx : Ctx) (operation target : string)
  (payload : jsval) (localAction : list StoreCallT) (st : HookState) :
  executeQueuedOperation ctx operation target payload localAction st
  = if mayEdit ctx st then
      (drawUUID st,
       AddToQueue (queuedOperation ctx (randomUUID ctx (uuidsDrawn st))
                     operation target payload false)
         :: storeCalls localAction)
    else (st, []).
Proof.
  unfold executeQueuedOperation, mayEdit.
  by destruct (isApplyingRemoteChange st), (isShowingDiff ctx), (isInActiveRoom ctx).
Qed.




(** With the three preconditions met, one call of
    [collaborativeSetSubblockValue] on a sub-block that another one
    depends on adds two pending operations to the queue: its own and the
    one that clears the dependent. *)
Example dependent_subblock_edit_enqueues_twice :
  mayEdit roomCtx idle = true
  /\ collaborativeSetSubblockValue 4 roomCtx "block-1" "model" (JStr "gpt-4o") idle
     = Some
         (drawUUID (drawUUID idle),
          [AddToQueue (queuedOperation roomCtx "uuid-0" "subblock-update"
                         "subblock"
                         (subblockPayload "block-1" "model" (JStr "gpt-4o")) false);
           StoreCall (setValueCall "block-1" "model" (JStr "gpt-4o"));
           AddToQueue (queuedOperation roomCtx "uuid-1" "subblock-update"
                         "subblock"
                         (subblockPayload "block-1" "apiKey" (JStr "")) false);
           StoreCall (setValueCall "block-1" "apiKey" (JStr ""))]).
Proof. split; vm_compute; reflexivity. Qed.


(** A tag selection made while a diff is shown is still enqueued and
    applied: that entry point does not test [isShowingDiff]. *)
Example tag_selection_ignores_diff_mode :
  let diffCtx :=
    {| isShowingDiff := true;
       currentWorkflowId := currentWorkflowId roomCtx;
       activeWorkflowId := activeWorkflowId roomCtx;
       sessionUserId := sessionUserId roomCtx;
       randomUUID := randomUUID roomCtx;
       blocks := blocks roomCtx;
       getBlock := getBlock roomCtx;
       subBlockValues := subBlockValues roomCtx;
       variableExists := variableExists roomCtx;
       processedVariableName := processedVariableName roomCtx |} in
  mayEdit diffCtx idle = false
  /\ snd (collaborativeSetTagSelection diffCtx "block-1" "model" (JStr "x") idle)
     = [StoreCall (setValueCall "block-1" "model" (JStr "x"));
        AddToQueue (queuedOperation diffCtx "uuid-0" "subblock-update"
                      "subblock" (subblockPayload "block-1" "model" (JStr "x"))
                      true)].
Proof. split; vm_compute; reflexivity. Qed.



(** ** Suppression of outgoing operations while a remote change is applied *)

Lemma storeCalls_quiet (cs : list StoreCallT) : Forall quiet (storeCalls cs).
Proof. unfold storeCalls. apply Forall_map. by apply Forall_forall. Qed.

Lemma executeQueuedOperation_flagged (ctx : Ctx) (operation target : string)
  (payload : jsval) (localAction : list StoreCallT) (st : HookState) :
  isApplyingRemoteChange st = true ->
  executeQueuedOperation ctx operation target payload localAction st = (st, []).
Proof. intros H. unfold executeQueuedOperation. by rewrite H. Qed.

Lemma executeQueuedDebouncedOperation_flagged (ctx : Ctx)
  (operation target : string) (payload : jsval)
  (localAction : list StoreCallT) (st : HookState) :
  isApplyingRemoteChange st = true ->
  executeQueuedDebouncedOperation ctx operation target payload localAction st
  = (st, []).
Proof. intros H. unfold executeQueuedDebouncedOperation. by rewrite H. Qed.

Lemma setSubblockValue_flagged (ctx : Ctx) (blockId subblockId : string)
  (value : jsval) (st : HookState) (fuel : nat) :
  (1 <= fuel)%nat -> isApplyingRemoteChange st = true ->
  collaborativeSetSubblockValue fuel ctx blockId subblockId value st
  = Some (st, []).
Proof.
  intros Hfuel H. destruct fuel as [|fuel]; [lia|].
  unfold collaborativeSetSubblockValue. simpl. by rewrite H.
Qed.

Lemma collaborativeSetTagSelection_flagged (ctx : Ctx)
  (blockId subblockId : string) (value : jsval) (st : HookState) :
  isApplyingRemoteChange st = true ->
  collaborativeSetTagSelection ctx blockId subblockId value st = (st, []).
Proof. intros H. unfold collaborativeSetTagSelection. by rewrite H. Qed.

Lemma suppressed_unchanged (st : HookState) :
  isApplyingRemoteChange st = true -> suppressed (Some (st, [])).
Proof. intros H. exists st, []. by repeat split. Qed.

Lemma suppressed_store (st : HookState) (cs : list StoreCallT) :
  isApplyingRemoteChange st = true -> suppressed (Some (st, storeCalls cs)).
Proof.
  intros H. exists st, (storeCalls cs). repeat split; [done|].
  apply storeCalls_quiet.
Qed.

Ltac via_executeQueued H :=
  rewrite ?executeQueuedOperation_flagged, ?executeQueuedDebouncedOperation_flagged
    by exact H.

Lemma runCall_flagged (fuel : nat) (ctx : Ctx) (c : CollabCall) (st : HookState) :
  (1 <= fuel)%nat -> isApplyingRemoteChange st = true ->
  suppressed (runCall fuel ctx c st).
Proof.
  intros Hfuel H. destruct c; simpl.
  - via_executeQueued H. by apply suppressed_unchanged.
  - via_executeQueued H. by apply suppressed_unchanged.
  - unfold collaborativeAddBlock. rewrite H.
    destruct (isShowingDiff ctx); [by apply suppressed_unchanged|].
    destruct (negb (isInActiveRoom ctx)); [by apply suppressed_unchanged|].
    destruct (getBlock ctx type); [by apply suppressed_unchanged|].
    destruct (isSubflowType type); [|by apply suppressed_unchanged].
    by apply suppressed_store.
  - unfold collaborativeRemoveBlock, andThen. via_executeQueued H.
    exists st, [CancelOperationsForBlock id]. repeat split; [done|].
    by repeat constructor.
  - unfold collaborativeUpdateBlockPosition. via_executeQueued H.
    by apply suppressed_unchanged.
  - unfold collaborativeUpdateBlockName. via_executeQueued H.
    by apply suppressed_unchanged.
  - unfold collaborativeToggleBlockEnabled. via_executeQueued H.
    by apply suppressed_unchanged.
  - unfold collaborativeUpdateParentId. via_executeQueued H.
    by apply suppressed_unchanged.
  - unfold collaborativeToggleBlockWide, toggleVia.
    destruct (blocks ctx id); via_executeQueued H; by apply suppressed_unchanged.
  - unfold collaborativeToggleBlockAdvancedMode, toggleVia.
    destruct (blocks ctx id); via_executeQueued H; by apply suppressed_unchanged.
  - unfold collaborativeToggleBlockTriggerMode, toggleVia.
    destruct (blocks ctx id); via_executeQueued H; by apply suppressed_unchanged.
  - unfold collaborativeToggleBlockHandles, toggleVia.
    destruct (blocks ctx id); via_executeQueued H; by apply suppressed_unchanged.
  - unfold collaborativeDuplicateBlock, andThen.
    destruct (negb (isInActiveRoom ctx)); [by apply suppressed_unchanged|].
    destruct (blocks ctx sourceId); [|by apply suppressed_unchanged].
    rewrite executeQueuedOperation_flagged by exact H.
    eexists _, _. split; [reflexivity|]. split; [exact H|]. by repeat constructor.
  - unfold collaborativeAddEdge. via_executeQueued H.
    by apply suppressed_unchanged.
  - unfold collaborativeRemoveEdge. via_executeQueued H.
    by apply suppressed_unchanged.
  - rewrite setSubblockValue_flagged by done. by apply suppressed_unchanged.
  - rewrite collaborativeSetTagSelection_flagged by done.
    by apply suppressed_unchanged.
  - unfold collaborativeUpdateVariable. via_executeQueued H.
    by apply suppressed_unchanged.
  - unfold collaborativeAddVariable, andThen.
    destruct (processedVariableName ctx _).
    + rewrite executeQueuedOperation_flagged by exact H.
      eexists _, _. split; [reflexivity|]. split; [exact H|]. by repeat constructor.
    + eexists _, _. split; [reflexivity|]. split; [exact H|]. by repeat constructor.
  - unfold collaborativeDeleteVariable, andThen. via_executeQueued H.
    exists st, [CancelOperationsForVariable variableId]. repeat split; [done|].
    by repeat constructor.
  - unfold collaborativeDuplicateVariable.
    destruct (negb (variableExists ctx variableId)).
    + eexists _, _. split; [reflexivity|]. split; [exact H | constructor].
    + rewrite executeQueuedOperation_flagged by exact H.
      eexists _, _. split; [reflexivity|]. split; [exact H | constructor].
  - unfold collaborativeUpdateLoopType, subflowUpdate.
    destruct (blocks ctx loopId) as [b|]; [|by apply suppressed_unchanged].
    destruct (negb _); via_executeQueued H; by apply suppressed_unchanged.
  - unfold collaborativeUpdateParallelType, subflowUpdate.
    destruct (blocks ctx parallelId) as [b|]; [|by apply suppressed_unchanged].
    destruct (negb _); via_executeQueued H; by apply suppressed_unchanged.
  - unfold collaborativeUpdateIterationCount, subflowUpdate.
    destruct (blocks ctx nodeId) as [b|]; [|by apply suppressed_unchanged].
    destruct (negb _); via_executeQueued H; by apply suppressed_unchanged.
  - unfold collaborativeUpdateIterationCollection, subflowUpdate.
    destruct (blocks ctx nodeId) as [b|]; [|by apply suppressed_unchanged].
    destruct (negb _); via_executeQueued H; by apply suppressed_unchanged.
Qed.

Lemma runCalls_flagged (fuel : nat) (ctx : Ctx) (cs : list CollabCall) :
  forall st : HookState,
    (1 <= fuel)%nat -> isApplyingRemoteChange st = true ->
    suppressed (runCalls fuel ctx cs st).
Proof.
  induction cs as [|c cs IH]; intros st Hfuel H; simpl.
  - by apply suppressed_unchanged.
  - destruct (runCall_flagged fuel ctx c st Hfuel H) as (st1 & e1 & -> & H1 & Hq1).
    destruct (IH st1 Hfuel H1) as (st2 & e2 & -> & H2 & Hq2).
    exists st2, (e1 ++ e2). repeat split; [done|]. by apply Forall_app.
Qed.

Lemma handleRemote_flagged (ev : RemoteEvent) (st : HookState) :
  isApplyingRemoteChange st = true -> handleRemote ev st = (st, []).
Proof.
  intros H. destruct ev; simpl;
    unfold handleWorkflowOperation, handleSubblockUpdate, handleVariableUpdate;
    by rewrite H.
Qed.

(** C7. While [isApplyingRemoteChange] is set, no entry point of the hook
    enqueues or emits: [executeQueuedOperation],
    [executeQueuedDebouncedOperation], [collaborativeSetSubblockValue] and
    [collaborativeSetTagSelection] return at once, every other entry point
    ends without a call of [addToQueue] or of the socket, and the handlers
    of remote events return at once. So the calls made back into the hook
    while a remote change is being applied leave no outgoing operation in
    the handler's trace. *)
Theorem remote_changes_do_not_echo (ctx : Ctx) :
  (forall st : HookState,
     isApplyingRemoteChange st = true ->
     (forall operation target payload localAction blockId subblockId value fuel,
        (1 <= fuel)%nat ->
        executeQueuedOperation ctx operation target payload localAction st
        = (st, [])
        /\ executeQueuedDebouncedOperation ctx operation target payload
             localAction st = (st, [])
        /\ collaborativeSetSubblockValue fuel ctx blockId subblockId value st
           = Some (st, [])
        /\ collaborativeSetTagSelection ctx blockId subblockId value st
           = (st, []))
     /\ (forall fuel c,
           (1 <= fuel)%nat ->
           exists st' effs,
             runCall fuel ctx c st = Some (st', effs)
             /\ isApplyingRemoteChange st' = true
             /\ Forall (fun e => isEnqueueOrEmit e = false) effs)
     /\ (forall ev, handleRemote ev st = (st, [])))
  /\ (forall (st : HookState) fuel ev callbacks,
        (1 <= fuel)%nat ->
        exists st' effs,
          handleRemoteWithCallbacks fuel ctx ev callbacks st = Some (st', effs)
          /\ Forall (fun e => isEnqueueOrEmit e = false) effs).
Proof.
  split.
  - intros st H. split; [|split].
    + intros. repeat split.
      * by apply executeQueuedOperation_flagged.
      * by apply executeQueuedDebouncedOperation_flagged.
      * by apply setSubblockValue_flagged.
      * by apply collaborativeSetTagSelection_flagged.
    + intros fuel c Hfuel. by apply runCall_flagged.
    + intros ev. by apply handleRemote_flagged.
  - intros st fuel ev callbacks Hfuel. unfold handleRemoteWithCallbacks.
    destruct (isApplyingRemoteChange st) eqn:H.
    { exists st, []. by split. }
    destruct (remoteStoreCalls ev _) as [ts calls].
    destruct (runCalls_flagged fuel ctx callbacks
                (setTimestamps ts (setApplying true st)) Hfuel eq_refl)
      as (st2 & effs & -> & _ & Hq).
    eexists _, _. split; [reflexivity|].
    apply Forall_app. split; [apply storeCalls_quiet | exact Hq].
Qed.

Lemma remote_changes_do_not_echo_witness :
  isApplyingRemoteChange applying = true
  /\ runCall 1 roomCtx (SetSubblockValue "block-1" "model" (JStr "gpt-4o")) applying
     = Some (applying, [])
  /\ exists st' effs,
       handleRemoteWithCallbacks 1 roomCtx
         (SubblockUpdate "block-1" "model" (JStr "gpt-4o"))
         [SetSubblockValue "block-1" "model" (JStr "gpt-4o");
          UpdateBlockPosition "block-1" samplePosition]
         idle = Some (st', effs)
       /\ Forall (fun e => isEnqueueOrEmit e = false) effs.
Proof.
  destruct (remote_changes_do_not_echo roomCtx) as [Hflagged Hecho].
  destruct (Hflagged applying eq_refl) as (Hnamed & _ & _).
  split; [reflexivity|]. split.
  - destruct (Hnamed "" "" JNull [] "block-1" "model" (JStr "gpt-4o") 1%nat
                ltac:(lia)) as (_ & _ & Hset & _).
    exact Hset.
  - apply Hecho. lia.
Defined.

End CollabProofs.

(* ===================================================================== *)
(** * Properties of the error enhancement                                *)
(* ===================================================================== *)

Module FunctionExecuteProofs.

Import Js FunctionExecute JsFacts FunctionExecuteSpec.

(** ** The three patterns find the same frames *)

Lemma append_cons (c : ascii) (a b : string) :
  String c a +:+ b = String c (a +:+ b).
Proof. reflexivity. Qed.

Lemma append_empty (b : string) : "" +:+ b = b.
Proof. reflexivity. Qed.

Lemma stripPrefix_Some (p s r : string) :
  stripPrefix p s = Some r -> s = p +:+ r.
Proof.
  revert s. induction p as [|a p IH]; intros s H; simpl in *.
  - by injection H as ->.
  - destruct s as [|b s]; [done|].
    destruct (Ascii.eqb_spec a b) as [->|]; [|done].
    rewrite append_cons. f_equal. by apply IH.
Qed.

Lemma trimStart_suffix (s : string) : exists p, s = p +:+ trimStart s.
Proof.
  induction s as [|c s [p IH]]; simpl.
  - by exists "".
  - destruct (isWhiteSpace c).
    + exists (String c p). rewrite append_cons. by f_equal.
    + by exists "".
Qed.

Lemma matchFrame_None_suffix (p t : string) :
  matchFrame (p +:+ t) = None -> frameAt t = None.
Proof.
  induction p as [|c p IH].
  - rewrite append_empty. destruct t as [|a t]; simpl; [done|].
    by destruct (frameAt (String a t)).
  - rewrite append_cons. simpl.
    destruct (frameAt (String c (p +:+ t))); [done|]. exact IH.
Qed.

Lemma lineAndColumn_optional (s : string) (m : Groups) :
  lineAndColumn false s = Some m -> lineAndColumn true s = Some m.
Proof.
  unfold lineAndColumn. destruct (spanDigits s) as [d1 rest].
  destruct (truthy d1); [|done].
  by destruct (match rest with String ":" _ => _ | _ => None end).
Qed.

Lemma runtimeFrameAt_frame (u : string) (m : Groups) :
  runtimeFrameAt u = Some m -> exists p t, u = p +:+ t /\ frameAt t = Some m.
Proof.
  unfold runtimeFrameAt. intros H.
  destruct (stripPrefix "at" u) as [[|c rest]|] eqn:Hat; try done.
  destruct (isWhiteSpace c); [|done].
  destruct (stripPrefix "user-function.js:" (trimStart rest)) as [tail|] eqn:Huf;
    [|done].
  apply stripPrefix_Some in Hat. destruct (trimStart_suffix rest) as [q Hq].
  exists ("at" +:+ String c q), (trimStart rest). split.
  - rewrite Hat, !append_cons, !append_empty, append_cons. do 3 f_equal. exact Hq.
  - unfold frameAt. rewrite Huf. by apply lineAndColumn_optional.
Qed.

Lemma matchRuntimeFrame_frame (l : string) (m : Groups) :
  matchRuntimeFrame l = Some m -> exists p t, l = p +:+ t /\ frameAt t = Some m.
Proof.
  induction l as [|c l IH]; simpl.
  - done.
  - destruct (runtimeFrameAt (String c l)) eqn:H.
    + intros [= <-]. by apply runtimeFrameAt_frame.
    + intros Hm. destruct (IH Hm) as (p & t & -> & Ht).
      exists (String c p), t. by rewrite append_cons.
Qed.

(** The second and third pattern never find a frame that the first one
    did not find. *)
Lemma matchStackLine_matchFrame (l : string) : matchStackLine l = matchFrame l.
Proof.
  unfold matchStackLine. destruct (matchFrame l) eqn:Hf; [done|].
  destruct (matchRuntimeFrame l) as [m|] eqn:Hr; [|done].
  destruct (matchRuntimeFrame_frame l m Hr) as (p & t & -> & Ht).
  apply matchFrame_None_suffix in Hf. congruence.
Qed.


(** ** Location of the first frame *)

Lemma scanStack_skip (error : VmError) (start : Z) (userCode : option string)
  (before rest : list string) :
  Forall (fun l => matchFrame l = None) before ->
  scanStack error start userCode (before ++ rest)
  = scanStack error start userCode rest.
Proof.
  induction before as [|l before IH]; intros Hall; [done|].
  apply Forall_cons in Hall as [Hl Hall].
  simpl. rewrite matchStackLine_matchFrame, Hl. by apply IH.
Qed.



(** ** Shape of the user-facing message *)

Lemma append_assoc' (a b c : string) : (a +:+ b) +:+ c = a +:+ b +:+ c.
Proof.
  induction a as [|x a IH]; [done|]. rewrite !append_cons. by f_equal.
Qed.









End FunctionExecuteProofs.

(* ===================================================================== *)
(** * Further properties of the Airtable polling loop                   *)
(* ===================================================================== *)

Module AirtableExtraProofs.

Import Js Airtable AirtableSpec AirtableExtraSpec.

Ltac iteration_cases :=
  unfold pollIteration, stopPolling; repeat case_match; simpl in *.

(** A property kept by every iteration holds when the loop ends. *)
Lemma pollLoop_invariant (P : PollState -> Prop) (env : Env) :
  (forall st, P st -> P (pollIteration env st)) ->
  forall (fuel : nat) (st st' : PollState),
    P st -> pollLoop fuel env st = Some st' -> P st'.
Proof.
  intros Hstep. induction fuel as [|fuel IH]; intros st st' HP Hrun; simpl in Hrun.
  - destruct (mightHaveMore st); [done|]. by injection Hrun as <-.
  - destruct (mightHaveMore st).
    + eapply IH; [|exact Hrun]. by apply Hstep.
    + by injection Hrun as <-.
Qed.

(** The event log only grows. *)
Lemma pollIteration_events_grow (env : Env) (st : PollState) :
  exists rest, events (pollIteration env st) = events st ++ rest.
Proof.
  iteration_cases;
    try (by exists []; rewrite app_nil_r);
    try (by eexists; rewrite <- ?app_assoc).
Qed.

Lemma pollLoop_events_grow (env : Env) (fuel : nat) (st st' : PollState) :
  pollLoop fuel env st = Some st' ->
  exists rest, events st' = events st ++ rest.
Proof.
  intros Hrun.
  apply (pollLoop_invariant
           (fun s => exists rest, events s = events st ++ rest) env) with fuel st;
    [|by exists []; rewrite app_nil_r|done].
  intros s [rest Hs]. destruct (pollIteration_events_grow env s) as [more Hm].
  exists (rest ++ more). by rewrite Hm, Hs, app_assoc.
Qed.

Lemma setup_ready (env : Env) (cfg : option (gmap string jsval)) :
  match setup env cfg with
  | inl st =>
      readyToPoll env cfg = true
      /\ mightHaveMore st = true /\ apiCallCount st = 0%nat
      /\ currentCursor st = storedCursor cfg
      /\ fetchCount (events st) = 0%nat
  | inr evs => readyToPoll env cfg = false /\ fetchCount evs = 0%nat
  end.
Proof.
  unfold setup, readyToPoll, storedCursor, getProp.
  destruct cfg as [cfg|]; simpl.
  - destruct (jsTruthy _); simpl; [|done].
    destruct (jsTruthy _); simpl; [|done].
    destruct (jsTruthy _); simpl; [|done].
    destruct (optTruthy (ownerUserId env)); simpl; [|done].
    destruct (optTruthy (accessToken env)); simpl.
    + repeat split; try done.
      * destruct (cfg !! cursorKey) as [[| |b|n|s|l|l]|]; simpl; try done.
        -- by destruct b.
        -- by destruct (n =? 0).
        -- by destruct (truthy s).
      * by destruct (cfg !! cursorKey) as [[]|].
    + split; [done|]. by destruct (cfg !! cursorKey) as [[]|].
  - rewrite lookup_empty. done.
Qed.

(** The first iteration of a run that reached the loop sends request 1. *)
Lemma run_first_request (fuel : nat) (env : Env)
  (cfg : option (gmap string jsval)) (st : PollState) (result : option WorkflowInput) :
  fetchAndProcessAirtablePayloads fuel env cfg = Some (Polled st result) ->
  exists pre rest,
    events st = pre ++ EvFetch 1 (storedCursor cfg) :: rest
    /\ fetchCount pre = 0%nat.
Proof.
  unfold fetchAndProcessAirtablePayloads. intros Hrun.
  pose proof (setup_ready env cfg) as Hs.
  destruct (setup env cfg) as [st0|evs]; [|done].
  destruct Hs as (_ & Hm & Hc & Hcur & Hf).
  destruct (pollLoop fuel env st0) as [st1|] eqn:Hloop; [|done].
  injection Hrun as <- <-.
  destruct fuel as [|fuel]; simpl in Hloop; rewrite Hm in Hloop; [done|].
  destruct (pollLoop_events_grow _ _ _ _ Hloop) as [more Hmore].
  assert (apiCallCount st0 < 10)%nat as Hlt by lia.
  unfold pollIteration in Hmore.
  destruct (Nat.ltb_spec 10 (S (apiCallCount st0))) as [?|_]; [lia|].
  rewrite Hc, Hcur in Hmore.
  exists (events st0).
  destruct (fetchPayloads env 1 (storedCursor cfg)) as [|ok body];
    [simpl in Hmore; rewrite <- app_assoc in Hmore; eauto|].
  destruct (negb ok || jsTruthy (error body));
    [simpl in Hmore; rewrite <- app_assoc in Hmore; eauto|].
  repeat case_match; simpl in Hmore; rewrite <- ?app_assoc in Hmore; simpl in Hmore;
    eauto.
Qed.

Lemma run_total (fuel : nat) (env : Env) (cfg : option (gmap string jsval)) :
  (11 <= fuel)%nat ->
  exists o, fetchAndProcessAirtablePayloads fuel env cfg = Some o.
Proof.
  intros Hfuel. unfold fetchAndProcessAirtablePayloads.
  destruct (setup env cfg) as [st0|evs] eqn:Hsetup; [|eauto].
  destruct (AirtableProofs.setup_capped _ _ _ Hsetup) as [Hc H0].
  destruct (AirtableProofs.pollLoop_terminates env fuel st0 Hc) as (st' & -> & _);
    [lia | eauto].
Qed.

(** X1: the Airtable API is contacted exactly when the set-up phase
    succeeds; otherwise the function returns early, having at most tried to
    initialise the stored cursor. *)
Theorem api_contacted_iff_ready (fuel : nat) (env : Env)
  (cfg : option (gmap string jsval)) :
  (11 <= fuel)%nat ->
  exists o,
    fetchAndProcessAirtablePayloads fuel env cfg = Some o
    /\ (readyToPoll env cfg = true <-> (1 <= fetchCount (outcomeEvents o))%nat)
    /\ (readyToPoll env cfg = false ->
        exists evs, o = EarlyReturn evs
                    /\ (evs = [] \/ evs = [EvInitCursor (initCursorSucceeds env)])).
Proof.
  intros Hfuel. destruct (run_total fuel env cfg Hfuel) as [o Hrun].
  exists o. split; [exact Hrun|].
  destruct o as [evs|st r].
  - unfold fetchAndProcessAirtablePayloads in Hrun.
    pose proof (setup_ready env cfg) as Hs.
    destruct (setup env cfg) as [st0|evs0] eqn:Hsetup.
    + by destruct (pollLoop fuel env st0).
    + injection Hrun as <-. destruct Hs as [Hready Hf]. simpl. split.
      * rewrite Hready, Hf. split; [done | lia].
      * intros _. exists evs0. split; [done|].
        unfold setup in Hsetup. repeat case_match; simplify_eq; auto.
  - pose proof (run_first_request _ _ _ _ _ Hrun) as (pre & rest & Hev & Hpre).
    unfold fetchAndProcessAirtablePayloads in Hrun.
    pose proof (setup_ready env cfg) as Hs.
    destruct (setup env cfg) as [st0|evs0]; [|done].
    destruct Hs as (Hready & _). simpl. rewrite Hready, Hev. split.
    + split; [|done]. intros _.
      rewrite AirtableProofs.fetchCount_app. unfold fetchCount. simpl. lia.
    + done.
Qed.

Lemma api_contacted_iff_ready_witness :
  (11 <= 11)%nat
  /\ exists o,
       fetchAndProcessAirtablePayloads 11 failingEnv sampleConfig = Some o
       /\ (readyToPoll failingEnv sampleConfig = true
           <-> (1 <= fetchCount (outcomeEvents o))%nat).
Proof.
  split; [lia|].
  destruct (api_contacted_iff_ready 11 failingEnv sampleConfig ltac:(lia))
    as (o & Ho & Hiff & _).
  exists o. split; [exact Ho | exact Hiff].
Defined.


(** X2: the first request of a run carries the cursor stored in the
    configuration when that is a number other than zero, and no cursor
    otherwise; nothing is requested before it. *)
Theorem first_request_uses_stored_cursor (fuel : nat) (env : Env)
  (cfg : option (gmap string jsval)) :
  (11 <= fuel)%nat -> readyToPoll env cfg = true ->
  exists st result pre rest,
    fetchAndProcessAirtablePayloads fuel env cfg = Some (Polled st result)
    /\ events st = pre ++ EvFetch 1 (storedCursor cfg) :: rest
    /\ fetchCount pre = 0%nat.
Proof.
  intros Hfuel Hready. destruct (run_total fuel env cfg Hfuel) as [o Hrun].
  destruct o as [evs|st r].
  - unfold fetchAndProcessAirtablePayloads in Hrun.
    pose proof (setup_ready env cfg) as Hs.
    destruct (setup env cfg) as [st0|evs0].
    + by destruct (pollLoop fuel env st0).
    + destruct Hs as [Hs _]. congruence.
  - destruct (run_first_request _ _ _ _ _ Hrun) as (pre & rest & Hev & Hpre).
    by exists st, r, pre, rest.
Qed.

Lemma first_request_uses_stored_cursor_witness :
  exists st result pre rest,
    fetchAndProcessAirtablePayloads 11 failingEnv cursorConfig
      = Some (Polled st result)
    /\ events st = pre ++ EvFetch 1 (Some 7) :: rest
    /\ fetchCount pre = 0%nat.
Proof.
  exact (first_request_uses_stored_cursor 11 failingEnv cursorConfig
           ltac:(lia) eq_refl).
Defined.







Lemma run_polled (fuel : nat) (env : Env) (cfg : option (gmap string jsval)) :
  (11 <= fuel)%nat -> readyToPoll env cfg = true ->
  exists st0 st,
    setup env cfg = inl st0 /\ pollLoop fuel env st0 = Some st
    /\ fetchAndProcessAirtablePayloads fuel env cfg
       = Some (Polled st (buildInput st)).
Proof.
  intros Hfuel Hready. unfold fetchAndProcessAirtablePayloads.
  pose proof (setup_ready env cfg) as Hs.
  destruct (setup env cfg) as [st0|evs] eqn:Hsetup; [|destruct Hs; congruence].
  destruct (AirtableProofs.setup_capped _ _ _ Hsetup) as [Hc H0].
  destruct (AirtableProofs.pollLoop_terminates env fuel st0 Hc) as (st' & Hl & _);
    [lia|].
  exists st0, st'. by rewrite Hl.
Qed.



Lemma pollIteration_counted (env : Env) (st : PollState) :
  payloadsFetched st = length (allPayloads st) ->
  payloadsFetched (pollIteration env st) = length (allPayloads (pollIteration env st)).
Proof.
  intros H. iteration_cases; rewrite ?length_app, ?H; simpl; lia.
Qed.

Lemma consolidate_nil_length (st : PollState) :
  consolidatedChangesMap st = consolidate [] (allPayloads st) ->
  allPayloads st = [] -> buildInput st = None.
Proof.
  intros Hc Hnil. unfold buildInput, mapValues. by rewrite Hc, Hnil.
Qed.

(** X4: the function hands an input to the workflow exactly when at least
    one raw payload was fetched; the input then holds all raw payloads in
    the order received, the last of them as the latest one, and the
    consolidation of all of them. *)
Theorem input_returned_iff_payload_fetched (fuel : nat) (env : Env)
  (cfg : option (gmap string jsval)) :
  (11 <= fuel)%nat -> readyToPoll env cfg = true ->
  exists st result,
    fetchAndProcessAirtablePayloads fuel env cfg = Some (Polled st result)
    /\ payloadsFetched st = length (allPayloads st)
    /\ (result = None <-> allPayloads st = [])
    /\ (forall input, result = Some input ->
          inputPayloads input = allPayloads st
          /\ latestPayload input = last (allPayloads st)
          /\ airtableChanges input
             = mapValues (consolidate [] (allPayloads st))).
Proof.
  intros Hfuel Hready.
  destruct (run_polled fuel env cfg Hfuel Hready) as (st0 & st & Hsetup & Hloop & Hrun).
  exists st, (buildInput st). split; [exact Hrun|].
  assert (consolidated st) as Hc.
  { eapply AirtableProofs.pollLoop_consolidated; [|exact Hloop].
    by eapply AirtableProofs.setup_consolidated. }
  unfold consolidated in Hc. split; [|split].
  - eapply (pollLoop_invariant
              (fun s => payloadsFetched s = length (allPayloads s)));
      [apply pollIteration_counted | | exact Hloop].
    unfold setup in Hsetup. repeat case_match; by simplify_eq.
  - split.
    + unfold buildInput. destruct (allPayloads st) as [|p ps]; [done|].
      simpl. by rewrite orb_true_r.
    + by apply consolidate_nil_length.
  - intros input Hin. unfold buildInput in Hin.
    destruct (_ || _); [|done]. injection Hin as <-. simpl. by rewrite Hc.
Qed.

Lemma input_returned_iff_payload_fetched_witness :
  exists st result,
    fetchAndProcessAirtablePayloads 11 createThenUpdateEnv sampleConfig
      = Some (Polled st result)
    /\ payloadsFetched st = length (allPayloads st).
Proof.
  destruct (input_returned_iff_payload_fetched 11 createThenUpdateEnv sampleConfig
              ltac:(lia) eq_refl) as (st & result & Hrun & Hlen & _).
  by exists st, result.
Defined.

Lemma applySighting_keys (m : ChangesMap) (s : Sighting) :
  map fst (applySighting m s)
  = if decide (sightingId s ∈ map fst m) then map fst m
    else map fst m ++ [sightingId s].
Proof.
  destruct s as [tid rid r|tid rid r]; simpl;
    unfold handleCreated, handleChanged;
    (destruct (mapGet rid m) as [c|] eqn:Hg;
     [ rewrite AirtableProofs.mapSet_keys, Hg; simpl;
       destruct (decide (rid ∈ map fst m)) as [|Hn]; [done|];
       apply AirtableProofs.mapGet_None_keys in Hn; congruence
     | rewrite AirtableProofs.mapSet_keys, Hg; simpl;
       destruct (decide (rid ∈ map fst m)) as [Hi|]; [|done];
       by apply AirtableProofs.mapGet_None_keys in Hg ]).
Qed.

Lemma sightings_keys (ss : list Sighting) : forall m : ChangesMap,
  map fst (fold_left applySighting ss m)
  = map fst m
    ++ filter (fun y => y ∉ map fst m) (firstSeen (map sightingId ss)).
Proof.
  induction ss as [|s ss IH]; intros m; simpl.
  - by rewrite app_nil_r.
  - rewrite IH, applySighting_keys.
    destruct (decide (sightingId s ∈ map fst m)) as [Hin|Hnin].
    + rewrite filter_cons_False by (intros Hx; exact (Hx Hin)).
      rewrite list_filter_filter. f_equal. apply list_filter_iff.
      intros y. split; [|by intros [Hy _]].
      intros Hy. split; [done|]. by intros ->.
    + rewrite filter_cons_True by done.
      rewrite <- app_assoc. simpl. f_equal. f_equal.
      rewrite list_filter_filter. apply list_filter_iff.
      intros y. rewrite not_elem_of_app, not_elem_of_cons. split.
      * intros (? & ? & _). done.
      * intros [? ?]. repeat split; [done|done|apply not_elem_of_nil].
Qed.

(** X5: the consolidated changes are listed once per record, in the order
    in which the records are first met in the raw payloads. *)
Theorem changes_in_order_of_first_sighting (ps : list Payload) :
  map recordId (mapValues (consolidate [] ps))
  = firstSeen (map sightingId (sightings ps)).
Proof.
  assert (keyed (consolidate [] ps)) as [_ Hall].
  { rewrite AirtableProofs.consolidate_sightings.
    apply AirtableProofs.sightings_keyed, AirtableProofs.keyed_empty. }
  assert (map recordId (mapValues (consolidate [] ps))
          = map fst (consolidate [] ps)) as ->.
  { unfold mapValues. rewrite map_map.
    induction Hall as [|kc m Hkc Hall IH]; simpl; [done|]. by rewrite Hkc, IH. }
  rewrite AirtableProofs.consolidate_sightings, sightings_keys. simpl.
  generalize (firstSeen (map sightingId (sightings ps))).
  induction l as [|x l IH]; [done|].
  rewrite filter_cons_True by apply not_elem_of_nil. by f_equal.
Qed.

Example interleaved_order :
  map recordId (mapValues (consolidate [] interleaved)) = ["r2"; "r1"].
Proof. reflexivity. Qed.

End AirtableExtraProofs.

(* ===================================================================== *)
(** * Properties of the verification of incoming requests               *)
(* ===================================================================== *)

Module WebhookVerificationProofs.

Import Js WebhookVerification WebhookVerificationSpec.

Lemma strictEqString_true (a : string) (v : jsval) :
  strictEqString a v = true <-> v = JStr a.
Proof.
  destruct v; simpl; try (split; [done | by intros [=]]).
  destruct (String.eqb_spec a s) as [->|Hne]; split; try done.
  by intros [= ->].
Qed.

Lemma tokenMatches_true (token : string) (webhooks : list ProviderConfig) :
  token <> "" ->
  tokenMatches token webhooks = true
  <-> exists wh, wh ∈ webhooks /\ hasToken "verificationToken" token wh.
Proof.
  intros Hne. induction webhooks as [|wh rest IH]; simpl.
  - split; [done|]. intros (wh & Hin & _). by apply elem_of_nil in Hin.
  - assert (strictEqString token (configProp wh "verificationToken") = true
            <-> hasToken "verificationToken" token wh) as Hhere.
    { rewrite strictEqString_true. unfold hasToken, configProp, Airtable.getProp.
      destruct (default ∅ wh !! "verificationToken") as [v|].
      - split; [by intros -> | by intros [_ [= ->]]].
      - split; [done | by intros [_ ?]]. }
    destruct (jsTruthy (configProp wh "verificationToken")) eqn:Htruthy; simpl.
    + destruct (strictEqString token _) eqn:Heq.
      * split; [|done]. intros _. exists wh. split; [by left | by apply Hhere].
      * rewrite IH. split.
        -- intros (w & Hin & Hw). exists w. split; [by right | done].
        -- intros (w & Hin & Hw). apply elem_of_cons in Hin as [->|Hin].
           ++ apply Hhere in Hw. congruence.
           ++ by exists w.
    + rewrite IH. split.
      * intros (w & Hin & Hw). exists w. split; [by right | done].
      * intros (w & Hin & Hw). apply elem_of_cons in Hin as [->|Hin].
        -- apply Hhere in Hw. apply strictEqString_true in Hw.
           rewrite Hw in Htruthy. simpl in Htruthy.
           by destruct token.
        -- by exists w.
Qed.

(** X6: the WhatsApp verification request is answered with status 200
    and the challenge as body exactly when the mode is ['subscribe'] and
    the token is the verification token of one of the active WhatsApp
    webhooks (of any path); no other answer is given when one of the
    three parameters is missing or empty. *)
Theorem whatsapp_challenge_needs_matching_token (mode token challenge : option string)
  (webhooks : list ProviderConfig) (answer : string) :
  (handleWhatsAppVerification mode token challenge webhooks
   = Some {| status := 200; body := answer |}
   <-> mode = Some "subscribe"
       /\ challenge = Some answer /\ answer <> ""
       /\ exists t wh, token = Some t /\ wh ∈ webhooks
                       /\ hasToken "verificationToken" t wh)
  /\ (handleWhatsAppVerification mode token challenge webhooks = None
      <-> Airtable.optTruthy mode && Airtable.optTruthy token
          && Airtable.optTruthy challenge = false).
Proof.
  unfold handleWhatsAppVerification.
  destruct mode as [m|]; [|split; split; [done | by intros [? _] | done | done]].
  destruct token as [t|]; simpl.
  2:{ rewrite andb_false_r. split; split; try done.
      by intros (_ & _ & _ & t & wh & ? & _). }
  destruct challenge as [c|]; simpl.
  2:{ rewrite andb_false_r. split; split; try done. by intros (_ & ? & _). }
  destruct (truthy m) eqn:Hm; simpl.
  2:{ split; split; try done. intros ([= ->] & _). done. }
  destruct (truthy t) eqn:Ht; simpl.
  2:{ split; split; try done.
      intros (_ & _ & _ & t' & wh & [= <-] & _ & [Hne _]). by destruct t. }
  destruct (truthy c) eqn:Hc; simpl.
  2:{ split; split; try done. intros (_ & [= <-] & Hne & _). by destruct c. }
  assert (t <> "") as Hne by (by destruct t).
  split; [|by repeat case_match].
  destruct (String.eqb_spec m "subscribe") as [->|Hmode]; simpl.
  - destruct (tokenMatches t webhooks) eqn:Hmatch.
    + apply (tokenMatches_true t webhooks Hne) in Hmatch as (wh & Hin & Hwh).
      split.
      * intros [= <-]. repeat split; try done; [by destruct c|]. by exists t, wh.
      * by intros (_ & [= ->] & _).
    + split; [done|]. intros (_ & _ & _ & t' & wh & [= <-] & Hin & Hwh).
      assert (tokenMatches t webhooks = true) as Hyes
        by (apply tokenMatches_true; [done | by exists wh]).
      congruence.
  - split; [done|]. by intros ([= ->] & _).
Qed.

Example whatsapp_verification_example :
  handleWhatsAppVerification (Some "subscribe") (Some "s3cret") (Some "1158201444")
    whatsappRows = Some {| status := 200; body := "1158201444" |}
  /\ handleWhatsAppVerification (Some "subscribe") (Some "guess") (Some "1158201444")
       whatsappRows = Some {| status := 403; body := "Verification failed" |}.
Proof. by split. Qed.


Lemma prefix_substring (p h : string) :
  String.prefix p h = true -> h = p +:+ substringFrom (String.length p) h.
Proof.
  revert h. induction p as [|a p IH]; intros h H; simpl in *.
  - by destruct h.
  - destruct h as [|b h]; [done|].
    change (String.prefix (String a p) (String b h))
      with (if Ascii.ascii_dec a b then String.prefix p h else false) in H.
    destruct (Ascii.ascii_dec a b) as [->|Hne]; [|done].
    rewrite FunctionExecuteProofs.append_cons. f_equal. by apply IH.
Qed.

Lemma prefix_append (p t : string) : String.prefix p (p +:+ t) = true.
Proof.
  induction p as [|a p IH]; [by destruct t|].
  rewrite FunctionExecuteProofs.append_cons.
  change (String.prefix (String a p) (String a (p +:+ t)))
    with (if Ascii.ascii_dec a a then String.prefix p (p +:+ t) else false).
  by destruct (Ascii.ascii_dec a a).
Qed.

Lemma substring_append (p t : string) :
  substringFrom (String.length p) (p +:+ t) = t.
Proof.
  induction p as [|a p IH]; [by destruct t|].
  rewrite FunctionExecuteProofs.append_cons. exact IH.
Qed.

Lemma bearerToken_Some (authHeader : option string) (t : string) :
  bearerToken authHeader = Some t <-> authHeader = Some ("Bearer " +:+ t).
Proof.
  unfold bearerToken, startsWith. destruct authHeader as [h|]; [|done].
  destruct (String.prefix "Bearer " h) eqn:Hp.
  - apply prefix_substring in Hp. change (String.length "Bearer ") with 7%nat in Hp.
    split.
    + intros [= <-]. by f_equal.
    + intros [= ->]. reflexivity.
  - split; [done|]. intros [= ->].
    by rewrite (prefix_append "Bearer " t) in Hp.
Qed.

Lemma bearer_matches (authHeader : option string) (t : string) :
  strictEqNullable (bearerToken authHeader) (JStr t) = true
  <-> authHeader = Some ("Bearer " +:+ t).
Proof.
  rewrite <- bearerToken_Some.
  destruct (bearerToken authHeader) as [b|]; simpl; [|done].
  destruct (String.eqb_spec b t) as [->|Hne]; split; try done.
  by intros [= ->].
Qed.

Lemma verifyGmail_string (cfg : ProviderConfig) (request : Request) (s : string) :
  configProp cfg "secret" = JStr s -> s <> "" ->
  verifyGmail cfg request
  = match webhookSecret request with
    | Some secretHeader =>
        if Webhooks.constantTimeCompare secretHeader s then Accepted
        else unauthorized
    | None => unauthorized
    end.
Proof.
  intros Hs Hne. unfold verifyGmail. rewrite Hs. simpl.
  destruct s as [|c0 s0]; [done|]. simpl truthy. cbv iota.
  destruct (webhookSecret request) as [h|]; [|done].
  unfold Webhooks.constantTimeCompare.
  destruct (Nat.eqb_spec (String.length h) (String.length (String c0 s0)))
    as [Hlen|Hlen].
  - assert ((Z.of_nat (String.length h) =? Z.of_nat (String.length (String c0 s0)))
            = true) as -> by (apply Z.eqb_eq; lia).
    destruct h as [|hc h0]; [done|]. simpl truthy. simpl negb. simpl orb. cbv iota.
    by destruct (_ =? 0).
  - assert ((Z.of_nat (String.length h) =? Z.of_nat (String.length (String c0 s0)))
            = false) as -> by (apply Z.eqb_neq; lia).
    simpl. by rewrite orb_true_r.
Qed.

(** X7: a Gmail webhook with a secret (a non-empty string) lets a
    request through exactly when its [X-Webhook-Secret] header is the
    secret; every other request gets 401. Without a secret every request
    passes, and a secret that is not a string lets none through. *)
Theorem gmail_secret_must_match (cfg : ProviderConfig) (request : Request) :
  let verdict := verifyProviderWebhook "gmail" cfg request in
  (jsTruthy (configProp cfg "secret") = false -> verdict = Accepted)
  /\ (forall s, configProp cfg "secret" = JStr s -> s <> "" ->
        (verdict = Accepted <-> webhookSecret request = Some s)
        /\ (verdict = Accepted \/ verdict = unauthorized))
  /\ (jsTruthy (configProp cfg "secret") = true ->
      (forall s, configProp cfg "secret" <> JStr s) -> verdict <> Accepted).
Proof.
  intros verdict. subst verdict. change (verifyProviderWebhook "gmail" cfg request)
    with (verifyGmail cfg request).
  split; [|split].
  - intros H. unfold verifyGmail. by rewrite H.
  - intros s Hs Hne. rewrite (verifyGmail_string cfg request s Hs Hne).
    destruct (webhookSecret request) as [h|]; [|split; [split; done | by right]].
    destruct (Webhooks.constantTimeCompare h s) eqn:Hcmp.
    + apply WebhooksProofs.constantTimeCompare_true_iff in Hcmp as ->.
      split; [done | by left].
    + split; [|by right]. split; [done|]. intros [= ->].
      assert (Webhooks.constantTimeCompare s s = true) as Hrefl
        by (by apply WebhooksProofs.constantTimeCompare_true_iff).
      congruence.
  - intros Htruthy Hnot. unfold verifyGmail. rewrite Htruthy.
    destruct (webhookSecret request) as [h|]; [|done].
    destruct (negb (truthy h) || _); [done|].
    destruct (configProp cfg "secret") as [| | | |s| |]; try done.
    by destruct (Hnot s).
Qed.

Lemma gmail_secret_must_match_witness :
  verifyProviderWebhook "gmail" (Some {["secret" := JStr "hunter2"]})
    (bearerRequest None) = Accepted.
Proof.
  destruct (gmail_secret_must_match (Some {["secret" := JStr "hunter2"]})
              (bearerRequest None)) as (_ & Hstring & _).
  destruct (Hstring "hunter2" eq_refl ltac:(done)) as [Hiff _].
  by apply Hiff.
Defined.







(** X10: for the providers github, stripe, telegram and microsoftteams
    the function never rejects a request; for every provider of the
    default case (slack, airtable, whatsapp, ...) with a token (a
    non-empty string) a request passes exactly when its [Authorization]
    header is ['Bearer ' + token], and gets 401 otherwise; without a
    token every request passes. *)
Theorem provider_token_check (provider : string) (cfg : ProviderConfig)
  (request : Request) :
  let verdict := verifyProviderWebhook provider cfg request in
  (unchecked provider -> verdict = Accepted)
  /\ (byToken provider ->
      (jsTruthy (configProp cfg "token") = false -> verdict = Accepted)
      /\ forall token,
           configProp cfg "token" = JStr token -> token <> "" ->
           (verdict = Accepted
            <-> authorization request = Some ("Bearer " +:+ token))
           /\ (verdict = Accepted \/ verdict = unauthorized)).
Proof.
  intros verdict. subst verdict. split.
  - intros [-> | [-> | [-> | ->]]]; reflexivity.
  - intros (Hun & Hgmail & Hgeneric).
    assert (verifyProviderWebhook provider cfg request = verifyToken cfg request)
      as ->.
    { unfold verifyProviderWebhook, unchecked in *.
      destruct (String.eqb_spec provider "github"); [tauto|].
      destruct (String.eqb_spec provider "stripe"); [tauto|].
      destruct (String.eqb_spec provider "gmail"); [tauto|].
      destruct (String.eqb_spec provider "telegram"); [tauto|].
      destruct (String.eqb_spec provider "microsoftteams"); [tauto|].
      by destruct (String.eqb_spec provider "generic"). }
    unfold verifyToken. split; [by intros ->|].
    intros token Htok Hne. rewrite Htok.
    assert (jsTruthy (JStr token) = true) as -> by (by destruct token).
    destruct (strictEqNullable (bearerToken (authorization request)) (JStr token))
      eqn:Hb.
    + pose proof Hb as Hb'. apply bearer_matches in Hb'.
      apply bearerToken_Some in Hb'. rewrite Hb'. simpl.
      destruct token; [done|]. simpl. split; [|by left]. split; [|done].
      intros _. by apply bearerToken_Some.
    + rewrite orb_true_r. split; [|by right]. split; [done|].
      intros H. apply bearer_matches in H. congruence.
Qed.

Lemma provider_token_check_witness :
  verifyProviderWebhook "slack" (Some {["token" := JStr "tok"]})
    (bearerRequest (Some "Bearer tok")) = Accepted.
Proof.
  destruct (provider_token_check "slack" (Some {["token" := JStr "tok"]})
              (bearerRequest (Some "Bearer tok"))) as [_ Hdefault].
  destruct Hdefault as [_ Htoken].
  - repeat split; try done. unfold unchecked. intros [H|[H|[H|H]]]; done.
  - destruct (Htoken "tok" eq_refl ltac:(done)) as [Hiff _]. by apply Hiff.
Defined.

End WebhookVerificationProofs.

(* ===================================================================== *)
(** * Properties of the set-up of Gmail and Outlook polling             *)
(* ===================================================================== *)

Module PollingSetupProofs.

Import Js PollingSetup PollingSetupSpec.






(** A stored ["0"] and an unreadable interval are replaced by the
    defaults; the labels and the unrelated key are kept. *)
Example gmail_setup_example :
  match stored (configureGmailPolling sampleEnv "" sampleGmailConfig) with
  | Some written =>
      written !! "maxEmailsPerPoll" = Some (JNum 25)
      /\ written !! "pollingInterval" = Some (JNum 5)
      /\ written !! "labelIds" = Some (JArr [JStr "Label_1"])
      /\ written !! "userId" = Some (JStr "user-7")
      /\ written !! "path" = Some (JStr "/hook")
  | None => False
  end.
Proof. vm_compute. done. Qed.

End PollingSetupProofs.

(* ===================================================================== *)
(** * Shape of the Slack signature                                      *)
(* ===================================================================== *)

Module HexProofs.

Import Js Webhooks HexSpec.

Lemma hex_byte (b : Byte.byte) :
  exists c1 c2,
    padStart2 (toString16 (Byte.to_N b)) = String c1 (String c2 EmptyString)
    /\ isLowerHex c1 = true /\ isLowerHex c2 = true
    /\ (forall rest bytes, hexDecode rest = Some bytes ->
          hexDecode (String c1 (String c2 rest)) = Some (b :: bytes)).
Proof.
  destruct b; eexists _, _; (split; [reflexivity|]);
    (split; [reflexivity|]); (split; [reflexivity|]);
    intros rest bytes Hrest; cbn [hexDecode]; rewrite Hrest; reflexivity.
Qed.

(** The hexadecimal rendering of the MAC writes every byte as two digits
    out of [0-9a-f] and can be read back. *)
Lemma hex_encoding_shape (bytes : list Byte.byte) :
  hexDecode (hexEncode bytes) = Some bytes
  /\ String.length (hexEncode bytes) = (2 * length bytes)%nat
  /\ allLowerHex (hexEncode bytes) = true.
Proof.
  induction bytes as [|b bytes (Hdec & Hlen & Hhex)]; [done|].
  simpl hexEncode.
  destruct (hex_byte b) as (c1 & c2 & -> & H1 & H2 & Hround).
  change (String c1 (String c2 "") +:+ hexEncode bytes)
    with (String c1 (String c2 (hexEncode bytes))).
  split; [by apply Hround|]. split.
  - simpl. rewrite Hlen. lia.
  - simpl. by rewrite H1, H2, Hhex.
Qed.

Section SlackFacts.

Variable utf8Encode : string -> list Byte.byte.
Variable hmacSha256 : list Byte.byte -> list Byte.byte -> option (list Byte.byte).

(** X12: a Slack request whose timestamp can be read is accepted only
    within 300 seconds of the current time, in the past or in the
    future, whatever signature it carries; and an accepted signature is
    ['v0='] followed by two lower-case hexadecimal digits per byte of the
    MAC, which it determines. *)
Theorem slack_signature_window_and_shape (now : Z)
  (signingSecret signature timestamp body : string) :
  (forall t, Js.parseInt timestamp = Some t -> 300 < Z.abs (now / 1000 - t) ->
     validateSlackSignature utf8Encode hmacSha256 now signingSecret signature
       timestamp body = false)
  /\ (validateSlackSignature utf8Encode hmacSha256 now signingSecret signature
        timestamp body = true ->
      exists mac,
        hmacSha256 (utf8Encode signingSecret)
          (utf8Encode (slackBaseString timestamp body)) = Some mac
        /\ Js.startsWith signature "v0=" = true
        /\ String.length signature = (3 + 2 * length mac)%nat
        /\ allLowerHex (Js.substringFrom 3 signature) = true
        /\ hexDecode (Js.substringFrom 3 signature) = Some mac).
Proof.
  split.
  - intros t Ht Hold. apply not_true_is_false. intros Hok.
    apply (WebhooksProofs.validateSlackSignature_true_iff utf8Encode hmacSha256)
      in Hok as (_ & _ & _ & _ & Hwin & _).
    specialize (Hwin t Ht). lia.
  - intros Hok.
    apply (WebhooksProofs.validateSlackSignature_true_iff utf8Encode hmacSha256)
      in Hok as (_ & _ & _ & _ & _ & mac & Hmac & ->).
    exists mac. destruct (hex_encoding_shape mac) as (Hdec & Hlen & Hhex).
    split; [done|].
    change ("v0=" +:+ hexEncode mac)
      with (String "v" (String "0" (String "=" (hexEncode mac)))).
    repeat split; try done.
    + unfold Js.startsWith. simpl. by destruct (hexEncode mac).
    + simpl. by rewrite Hlen.
Qed.

End SlackFacts.

Lemma slack_signature_window_and_shape_witness :
  validateSlackSignature (fun s => String.list_byte_of_string s)
    (fun key msg => Some msg) 1700000000000 "s" "v0=00" "1600000000" "b" = false.
Proof.
  destruct (slack_signature_window_and_shape
              (fun s => String.list_byte_of_string s) (fun key msg => Some msg)
              1700000000000 "s" "v0=00" "1600000000" "b") as [Hstale _].
  apply (Hstale 1600000000); [reflexivity | vm_compute; reflexivity].
Defined.

End HexProofs.

(* ===================================================================== *)
(** * Further properties of the collaboration hook                      *)
(* ===================================================================== *)

Module CollabExtraProofs.

Import Js Collab CollabSpec CollabExtraSpec.

Lemma enqueuedIds_storeCalls (cs : list StoreCallT) :
  enqueuedIds (storeCalls cs) = [].
Proof. induction cs as [|c cs IH]; [done|]. exact IH. Qed.

Lemma drawsIds_none (ctx : Ctx) (st st' : HookState) (effs : list Effect) :
  isApplyingRemoteChange st' = isApplyingRemoteChange st ->
  lastPositionTimestamps st' = lastPositionTimestamps st ->
  (uuidsDrawn st <= uuidsDrawn st')%nat ->
  enqueuedIds effs = [] ->
  drawsIds ctx st st' effs.
Proof.
  intros Hf Ht Hu He. repeat split; try done.
  exists []. split; [done | apply sublist_nil_l].
Qed.

Lemma drawsIds_trans (ctx : Ctx) (st st1 st2 : HookState) (e1 e2 : list Effect) :
  drawsIds ctx st st1 e1 -> drawsIds ctx st1 st2 e2 ->
  drawsIds ctx st st2 (e1 ++ e2).
Proof.
  intros (Hf1 & Ht1 & Hu1 & i1 & Hi1 & Hs1) (Hf2 & Ht2 & Hu2 & i2 & Hi2 & Hs2).
  repeat split; try congruence; try lia.
  exists (i1 ++ i2). split.
  - by rewrite CollabProofs.enqueuedIds_app, Hi1, Hi2, map_app.
  - replace (uuidsDrawn st2 - uuidsDrawn st)%nat
      with ((uuidsDrawn st1 - uuidsDrawn st)
            + (uuidsDrawn st2 - uuidsDrawn st1))%nat by lia.
    rewrite seq_app. apply sublist_app; [done|].
    by replace (uuidsDrawn st + (uuidsDrawn st1 - uuidsDrawn st))%nat
      with (uuidsDrawn st1) by lia.
Qed.

Lemma drawsIds_traced (ctx : Ctx) (st st' : HookState) (effs : list Effect) :
  traced ctx st st' effs -> drawsIds ctx st st' effs.
Proof.
  intros (Hf & Ht & Hu & _ & Hi). repeat split; try done.
  by eexists.
Qed.

Lemma drawsIds_draw (ctx : Ctx) (st : HookState) (op : QueuedOperation)
  (before after : list Effect) :
  opId op = randomUUID ctx (uuidsDrawn st) ->
  enqueuedIds before = [] -> enqueuedIds after = [] ->
  drawsIds ctx st (drawUUID st) (before ++ AddToQueue op :: after).
Proof.
  intros Hid Hb Ha. repeat split; simpl; try done; try lia.
  exists [uuidsDrawn st]. split.
  - rewrite CollabProofs.enqueuedIds_app, Hb. simpl.
    change (enqueuedIds (AddToQueue op :: after)) with (opId op :: enqueuedIds after).
    by rewrite Ha, Hid.
  - replace (S (uuidsDrawn st) - uuidsDrawn st)%nat with 1%nat by lia. done.
Qed.

Lemma executeQueuedOperation_draws (ctx : Ctx) (operation target : string)
  (payload : jsval) (localAction : list StoreCallT) (st : HookState) :
  drawsIds ctx st
    (fst (executeQueuedOperation ctx operation target payload localAction st))
    (snd (executeQueuedOperation ctx operation target payload localAction st)).
Proof.
  unfold executeQueuedOperation.
  destruct (isApplyingRemoteChange st) eqn:Hf; [by apply drawsIds_none|].
  destruct (isShowingDiff ctx); [by apply drawsIds_none|].
  destruct (negb (isInActiveRoom ctx)); [by apply drawsIds_none|].
  simpl. apply (drawsIds_draw ctx st _ []); [done | done|].
  apply enqueuedIds_storeCalls.
Qed.

Lemma executeQueuedDebouncedOperation_draws (ctx : Ctx) (operation target : string)
  (payload : jsval) (localAction : list StoreCallT) (st : HookState) :
  drawsIds ctx st
    (fst (executeQueuedDebouncedOperation ctx operation target payload
            localAction st))
    (snd (executeQueuedDebouncedOperation ctx operation target payload
            localAction st)).
Proof.
  unfold executeQueuedDebouncedOperation.
  destruct (isApplyingRemoteChange st) eqn:Hf; [by apply drawsIds_none|].
  destruct (isShowingDiff ctx); [by apply drawsIds_none|].
  destruct (negb (isInActiveRoom ctx)); [by apply drawsIds_none|].
  simpl. apply drawsIds_none; try done.
  by rewrite CollabProofs.enqueuedIds_app, enqueuedIds_storeCalls.
Qed.

Lemma andThen_draws (ctx : Ctx) (st st1 : HookState) (e1 : list Effect)
  (k : HookState -> Result) :
  drawsIds ctx st st1 e1 ->
  drawsIds ctx st1 (fst (k st1)) (snd (k st1)) ->
  drawsIds ctx st (fst (andThen (st1, e1) k)) (snd (andThen (st1, e1) k)).
Proof.
  intros H1 H2. unfold andThen. destruct (k st1) as [st2 e2]. simpl in *.
  by eapply drawsIds_trans.
Qed.

Lemma subflowUpdate_draws (ctx : Ctx) (nodeId expectedType : string)
  (payload : jsval) (localAction : list StoreCallT) (st : HookState) :
  drawsIds ctx st
    (fst (subflowUpdate ctx nodeId expectedType payload localAction st))
    (snd (subflowUpdate ctx nodeId expectedType payload localAction st)).
Proof.
  unfold subflowUpdate.
  destruct (blocks ctx nodeId) as [b|]; [|by apply drawsIds_none].
  destruct (negb _); [by apply drawsIds_none|].
  apply executeQueuedOperation_draws.
Qed.

Lemma toggleVia_draws (ctx : Ctx) (operation field storeMethod : string)
  (current : BlockState -> bool) (id : string) (st : HookState) :
  drawsIds ctx st
    (fst (toggleVia ctx operation field storeMethod current id st))
    (snd (toggleVia ctx operation field storeMethod current id st)).
Proof.
  unfold toggleVia.
  destruct (blocks ctx id) as [b|]; [|by apply drawsIds_none].
  apply executeQueuedOperation_draws.
Qed.

Lemma runCall_draws (fuel : nat) (ctx : Ctx) (c : CollabCall)
  (st st' : HookState) (effs : list Effect) :
  runCall fuel ctx c st = Some (st', effs) -> drawsIds ctx st st' effs.
Proof.
  destruct c; simpl; intros Hrun;
    try (injection Hrun as Hrun;
         apply (f_equal fst) in Hrun as Hst; apply (f_equal snd) in Hrun as Heffs;
         simpl in Hst, Heffs; subst st' effs).
  - apply executeQueuedOperation_draws.
  - apply executeQueuedDebouncedOperation_draws.
  - unfold collaborativeAddBlock.
    destruct (isShowingDiff ctx); [by apply drawsIds_none|].
    destruct (negb (isInActiveRoom ctx)); [by apply drawsIds_none|].
    destruct (getBlock ctx type).
    + destruct (isApplyingRemoteChange st); [by apply drawsIds_none|].
      simpl. apply (drawsIds_draw ctx st _ []); [done | done|].
      apply enqueuedIds_storeCalls.
    + destruct (isSubflowType type); [|by apply drawsIds_none].
      destruct (isApplyingRemoteChange st).
      * apply drawsIds_none; try done. apply enqueuedIds_storeCalls.
      * simpl. apply (drawsIds_draw ctx st _ []); [done | done|].
        apply enqueuedIds_storeCalls.
  - unfold collaborativeRemoveBlock. apply andThen_draws.
    + by apply drawsIds_none.
    + apply executeQueuedOperation_draws.
  - apply executeQueuedDebouncedOperation_draws.
  - apply executeQueuedOperation_draws.
  - apply executeQueuedOperation_draws.
  - apply executeQueuedOperation_draws.
  - apply toggleVia_draws.
  - apply toggleVia_draws.
  - apply toggleVia_draws.
  - apply toggleVia_draws.
  - unfold collaborativeDuplicateBlock.
    destruct (negb (isInActiveRoom ctx)); [by apply drawsIds_none|].
    destruct (blocks ctx sourceId) as [b|]; [|by apply drawsIds_none].
    apply andThen_draws.
    + apply drawsIds_none; simpl; try done. lia.
    + apply executeQueuedOperation_draws.
  - apply executeQueuedOperation_draws.
  - apply executeQueuedOperation_draws.
  - unfold collaborativeSetSubblockValue in Hrun.
    destruct (setSubblockValue fuel ctx blockId subblockId value ∅ st)
      as [[v [st1 e1]]|] eqn:Hset; [|done].
    injection Hrun as <- <-.
    apply drawsIds_traced.
    by destruct (CollabProofs.setSubblockValue_traced _ _ _ _ _ _ _ _ _ _ Hset).
  - unfold collaborativeSetTagSelection.
    destruct (isApplyingRemoteChange st) eqn:Hf; [by apply drawsIds_none|].
    destruct (negb (isInActiveRoom ctx)); [by apply drawsIds_none|].
    simpl. by apply (drawsIds_draw ctx st _ [StoreCall _] []).
  - apply executeQueuedOperation_draws.
  - unfold collaborativeAddVariable. apply andThen_draws.
    + apply drawsIds_none; simpl; try done. lia.
    + destruct (processedVariableName ctx _).
      * apply executeQueuedOperation_draws.
      * by apply drawsIds_none.
  - unfold collaborativeDeleteVariable. apply andThen_draws.
    + by apply drawsIds_none.
    + apply executeQueuedOperation_draws.
  - unfold collaborativeDuplicateVariable.
    destruct (negb (variableExists ctx variableId)).
    + apply drawsIds_none; simpl; try done. lia.
    + eapply drawsIds_trans with (e1 := []) (st1 := drawUUID st).
      * apply drawsIds_none; simpl; try done. lia.
      * apply executeQueuedOperation_draws.
  - apply subflowUpdate_draws.
  - apply subflowUpdate_draws.
  - apply subflowUpdate_draws.
  - apply subflowUpdate_draws.
Qed.

Lemma runCalls_draws (fuel : nat) (ctx : Ctx) (cs : list CollabCall) :
  forall (st st' : HookState) (effs : list Effect),
    runCalls fuel ctx cs st = Some (st', effs) -> drawsIds ctx st st' effs.
Proof.
  induction cs as [|c cs IH]; intros st st' effs Hrun; simpl in Hrun.
  - injection Hrun as <- <-. by apply drawsIds_none.
  - destruct (runCall fuel ctx c st) as [[st1 e1]|] eqn:Hc; [|done].
    destruct (runCalls fuel ctx cs st1) as [[st2 e2]|] eqn:Hcs; [|done].
    injection Hrun as <- <-.
    eapply drawsIds_trans; [by eapply runCall_draws | by eapply IH].
Qed.

(** X13: whatever sequence of entry points of the hook is called, every
    operation handed to the queue gets its id from its own call of
    [crypto.randomUUID()]: the ids are draws made during the sequence,
    in order, no draw used twice. With a UUID source that never repeats,
    no two pending operations share an id. The calls leave the
    remote-change flag and the position timestamps as they were. *)
Theorem operation_ids_are_fresh_uuids (fuel : nat) (ctx : Ctx)
  (cs : list CollabCall) (st st' : HookState) (effs : list Effect) :
  runCalls fuel ctx cs st = Some (st', effs) ->
  (exists idxs : list nat,
     enqueuedIds effs = map (randomUUID ctx) idxs
     /\ NoDup idxs
     /\ Forall (fun n => (uuidsDrawn st <= n < uuidsDrawn st')%nat) idxs)
  /\ ((forall m n, randomUUID ctx m = randomUUID ctx n -> m = n) ->
      NoDup (enqueuedIds effs))
  /\ isApplyingRemoteChange st' = isApplyingRemoteChange st
  /\ lastPositionTimestamps st' = lastPositionTimestamps st.
Proof.
  intros Hrun.
  destruct (runCalls_draws _ _ _ _ _ _ Hrun) as (Hf & Ht & Hu & idxs & Hi & Hs).
  assert (NoDup idxs) as Hnd.
  { eapply sublist_NoDup; [apply NoDup_seq | exact Hs]. }
  split; [|split; [|done]].
  - exists idxs. split; [done|]. split; [done|].
    apply Forall_forall. intros n Hn.
    assert (n ∈ seq (uuidsDrawn st) (uuidsDrawn st' - uuidsDrawn st)) as Hin
      by (eapply sublist_subseteq; [exact Hs | exact Hn]).
    apply elem_of_seq in Hin. lia.
  - intros Hinj. rewrite Hi. apply NoDup_fmap_2; [|done].
    intros m n. apply Hinj.
Qed.

Lemma operation_ids_are_fresh_uuids_witness :
  exists st' effs,
    runCalls 4 roomCtx sampleCalls idle = Some (st', effs)
    /\ exists idxs : list nat,
         enqueuedIds effs = map (randomUUID roomCtx) idxs /\ NoDup idxs.
Proof.
  destruct (runCalls 4 roomCtx sampleCalls idle) as [[st' effs]|] eqn:Hrun;
    [|by vm_compute in Hrun].
  exists st', effs. split; [reflexivity|].
  destruct (operation_ids_are_fresh_uuids _ _ _ _ _ _ Hrun)
    as ((idxs & Hi & Hnd & _) & _).
  by exists idxs.
Defined.


(** ** Calls made outside the room or while a diff is shown *)

Lemma executeQueuedOperation_blocked (ctx : Ctx) (operation target : string)
  (payload : jsval) (localAction : list StoreCallT) (st : HookState) :
  isInActiveRoom ctx = false \/ isShowingDiff ctx = true ->
  executeQueuedOperation ctx operation target payload localAction st = (st, []).
Proof.
  unfold executeQueuedOperation. intros [H|H]; rewrite H; simpl;
    destruct (isApplyingRemoteChange st); try done.
  by destruct (isShowingDiff ctx).
Qed.

Lemma executeQueuedDebouncedOperation_blocked (ctx : Ctx)
  (operation target : string) (payload : jsval)
  (localAction : list StoreCallT) (st : HookState) :
  isInActiveRoom ctx = false \/ isShowingDiff ctx = true ->
  executeQueuedDebouncedOperation ctx operation target payload localAction st
  = (st, []).
Proof.
  unfold executeQueuedDebouncedOperation. intros [H|H]; rewrite H; simpl;
    destruct (isApplyingRemoteChange st); try done.
  by destruct (isShowingDiff ctx).
Qed.

Lemma blocked_either (ctx : Ctx) (c : CollabCall) :
  blocked ctx c -> isInActiveRoom ctx = false \/ isShowingDiff ctx = true.
Proof. intros [H|[H _]]; auto. Qed.

Lemma runCall_blocked (fuel : nat) (ctx : Ctx) (c : CollabCall)
  (st st' : HookState) (effs : list Effect) :
  blocked ctx c ->
  runCall fuel ctx c st = Some (st', effs) -> Forall quiet effs.
Proof.
  intros Hb. pose proof (blocked_either _ _ Hb) as He.
  destruct c; simpl; intros Hrun;
    try (injection Hrun as Hrun; apply (f_equal snd) in Hrun as Heffs;
         simpl in Heffs; subst effs; clear Hrun);
    unfold collaborativeRemoveBlock, collaborativeUpdateBlockPosition,
      collaborativeUpdateBlockName, collaborativeToggleBlockEnabled,
      collaborativeUpdateParentId, collaborativeToggleBlockWide,
      collaborativeToggleBlockAdvancedMode, collaborativeToggleBlockTriggerMode,
      collaborativeToggleBlockHandles, collaborativeAddEdge,
      collaborativeRemoveEdge, collaborativeUpdateVariable,
      collaborativeDeleteVariable, collaborativeUpdateLoopType,
      collaborativeUpdateParallelType, collaborativeUpdateIterationCount,
      collaborativeUpdateIterationCollection, toggleVia, subflowUpdate, andThen;
    rewrite ?executeQueuedOperation_blocked,
            ?executeQueuedDebouncedOperation_blocked by exact He;
    simpl; try (by repeat constructor).
  - unfold collaborativeAddBlock.
    destruct He as [Hr|Hd]; [|by rewrite Hd].
    rewrite Hr. by destruct (isShowingDiff ctx).
  - destruct (blocks ctx id); rewrite ?executeQueuedOperation_blocked by exact He;
      by constructor.
  - destruct (blocks ctx id); rewrite ?executeQueuedOperation_blocked by exact He;
      by constructor.
  - destruct (blocks ctx id); rewrite ?executeQueuedOperation_blocked by exact He;
      by constructor.
  - destruct (blocks ctx id); rewrite ?executeQueuedOperation_blocked by exact He;
      by constructor.
  - unfold collaborativeDuplicateBlock, andThen.
    destruct (negb (isInActiveRoom ctx)); [by constructor|].
    destruct (blocks ctx sourceId); [|by constructor].
    rewrite executeQueuedOperation_blocked by exact He. by repeat constructor.
  - unfold collaborativeSetSubblockValue in Hrun.
    destruct fuel as [|fuel]; [done|]. simpl in Hrun.
    destruct (isApplyingRemoteChange st); [by injection Hrun as <- <-|].
    destruct He as [Hr|Hd].
    + rewrite Hr in Hrun. simpl in Hrun.
      destruct (isShowingDiff ctx); by injection Hrun as <- <-.
    + rewrite Hd in Hrun. by injection Hrun as <- <-.
  - destruct Hb as [Hr|[_ Ht]]; [|done].
    unfold collaborativeSetTagSelection. rewrite Hr. simpl.
    by destruct (isApplyingRemoteChange st).
  - unfold collaborativeAddVariable, andThen.
    destruct (processedVariableName ctx _);
      rewrite ?executeQueuedOperation_blocked by exact He; by repeat constructor.
  - unfold collaborativeDuplicateVariable.
    destruct (negb (variableExists ctx variableId)); [by constructor|].
    rewrite executeQueuedOperation_blocked by exact He. by constructor.
  - destruct (blocks ctx loopId) as [b|]; [|by constructor].
    destruct (negb _); rewrite ?executeQueuedOperation_blocked by exact He;
      by constructor.
  - destruct (blocks ctx parallelId) as [b|]; [|by constructor].
    destruct (negb _); rewrite ?executeQueuedOperation_blocked by exact He;
      by constructor.
  - destruct (blocks ctx nodeId) as [b|]; [|by constructor].
    destruct (negb _); rewrite ?executeQueuedOperation_blocked by exact He;
      by constructor.
  - destruct (blocks ctx nodeId) as [b|]; [|by constructor].
    destruct (negb _); rewrite ?executeQueuedOperation_blocked by exact He;
      by constructor.
Qed.

(** X14: outside the room of the active workflow no entry point of the
    hook enqueues or emits an operation; while a diff is shown none does
    except [collaborativeSetTagSelection], which has no diff check. *)
Theorem no_outgoing_operation_when_blocked (fuel : nat) (ctx : Ctx)
  (cs : list CollabCall) :
  forall (st st' : HookState) (effs : list Effect),
    isInActiveRoom ctx = false
    \/ (isShowingDiff ctx = true /\ forallb (fun c => negb (isTagSelection c)) cs = true) ->
    runCalls fuel ctx cs st = Some (st', effs) ->
    Forall quiet effs.
Proof.
  induction cs as [|c cs IH]; intros st st' effs Hb Hrun; simpl in Hrun.
  - injection Hrun as <- <-. constructor.
  - destruct (runCall fuel ctx c st) as [[st1 e1]|] eqn:Hc; [|done].
    destruct (runCalls fuel ctx cs st1) as [[st2 e2]|] eqn:Hcs; [|done].
    injection Hrun as <- <-. apply Forall_app. split.
    + eapply runCall_blocked; [|exact Hc].
      destruct Hb as [Hr|[Hd Hall]]; [by left|]. right. split; [done|].
      simpl in Hall. apply andb_true_iff in Hall as [Hn _].
      by apply negb_true_iff in Hn.
    + eapply IH; [|exact Hcs].
      destruct Hb as [Hr|[Hd Hall]]; [by left|]. right. split; [done|].
      simpl in Hall. by apply andb_true_iff in Hall as [_ ?].
Qed.

Lemma no_outgoing_operation_when_blocked_witness :
  exists st' effs,
    runCalls 4 (roomCtxWith true (Some "wf-1")) sampleCalls idle = Some (st', effs)
    /\ Forall quiet effs.
Proof.
  destruct (runCalls 4 (roomCtxWith true (Some "wf-1")) sampleCalls idle)
    as [[st' effs]|] eqn:Hrun; [|by vm_compute in Hrun].
  exists st', effs. split; [reflexivity|].
  exact (no_outgoing_operation_when_blocked 4 (roomCtxWith true (Some "wf-1"))
           sampleCalls idle st' effs (or_intror (conj eq_refl eq_refl)) Hrun).
Defined.

(** With a diff shown, the tag selection still reaches the queue. *)
Example tag_selection_enqueues_in_diff_mode :
  exists st' op,
    runCalls 1 (roomCtxWith true (Some "wf-1"))
      [SetTagSelection "block-1" "model" (JStr "<start.input>")] idle
    = Some (st', [StoreCall (setValueCall "block-1" "model" (JStr "<start.input>"));
                  AddToQueue op]).
Proof. by eexists _, _. Qed.

(** ** Remote events *)

Lemma handleRemote_stores (ev : RemoteEvent) (st : HookState) :
  isApplyingRemoteChange (fst (handleRemote ev st)) = isApplyingRemoteChange st
  /\ uuidsDrawn (fst (handleRemote ev st)) = uuidsDrawn st
  /\ Forall (fun e => isStoreCall e = true) (snd (handleRemote ev st)).
Proof.
  assert (forall cs, Forall (fun e => isStoreCall e = true) (storeCalls cs)) as Hst.
  { intros cs. unfold storeCalls. apply Forall_forall. intros e He.
    apply list_elem_of_fmap in He as (c & -> & _). done. }
  destruct ev as [data|b s v|v f x]; simpl;
    unfold handleWorkflowOperation, handleSubblockUpdate, handleVariableUpdate;
    destruct (isApplyingRemoteChange st) eqn:Hf; simpl; try done;
    try (destruct (applyRemoteOperation data _) as [ts calls]; simpl);
    repeat split; try done; try apply Hst; by repeat constructor.
Qed.

(** X15: handling remote events only calls the stores: it never enqueues,
    emits or cancels an operation, draws no UUID, and leaves the
    remote-change flag as it found it. A remote event that arrives while
    the flag is set is dropped. *)
Theorem remote_events_only_touch_stores (evs : list RemoteEvent) :
  forall st : HookState,
    isApplyingRemoteChange (fst (handleAll evs st)) = isApplyingRemoteChange st
    /\ uuidsDrawn (fst (handleAll evs st)) = uuidsDrawn st
    /\ Forall (fun e => isStoreCall e = true) (snd (handleAll evs st))
    /\ (isApplyingRemoteChange st = true -> handleAll evs st = (st, [])).
Proof.
  induction evs as [|ev evs IH]; intros st; simpl.
  - repeat split; constructor.
  - destruct (handleRemote_stores ev st) as (Hf & Hu & Hs).
    unfold andThen. destruct (handleRemote ev st) as [st1 e1] eqn:Hev.
    destruct (IH st1) as (Hf' & Hu' & Hs' & Hdrop).
    destruct (handleAll evs st1) as [st2 e2] eqn:Hall. simpl in *.
    repeat split; try congruence.
    + by apply Forall_app.
    + intros Hflag. rewrite CollabProofs.handleRemote_flagged in Hev by done.
      injection Hev as <- <-. specialize (Hdrop Hflag).
      by injection Hdrop as -> ->.
Qed.

(** The stored timestamp of a block after a run of remote events. *)
Lemma remove_then_update (id : string) (position : jsval) (timestamp : option Z)
  (ts : gmap string Z) :
  (forall t, timestamp = Some t -> 0 <= t) ->
  lastTimestampOf ts id = 0 ->
  snd (applyRemoteOperation (RemoteUpdatePosition id position timestamp) ts)
  = [updatePositionCall id position].
Proof.
  intros Hpos Hlast. simpl.
  destruct (timestampMissing timestamp) eqn:Hm; [done|].
  destruct timestamp as [t|]; [|done]. rewrite Hlast.
  destruct (Z.geb_spec t 0) as [|Hlt]; [done|].
  specialize (Hpos t eq_refl). lia.
Qed.

Lemma handleWorkflowOperation_unflagged (data : RemoteOperation) (st : HookState) :
  isApplyingRemoteChange st = false ->
  handleWorkflowOperation data st
  = (setApplying false
       (setTimestamps (fst (applyRemoteOperation data (lastPositionTimestamps st)))
          (setApplying true st)),
     storeCalls (snd (applyRemoteOperation data (lastPositionTimestamps st)))).
Proof.
  intros Hf. unfold handleWorkflowOperation. rewrite Hf.
  change (lastPositionTimestamps (setApplying true st))
    with (lastPositionTimestamps st).
  by destruct (applyRemoteOperation data (lastPositionTimestamps st)).
Qed.

(** X16: removing a block, or switching to another workflow, forgets the
    position timestamp of the block: the next remote position update for
    that id is applied whatever timestamp (not negative) it carries, also
    one older than the last update applied before. The timestamps of the
    other blocks survive a removal. *)
Theorem removal_resets_position_timestamp (st : HookState) (id : string)
  (position : jsval) (timestamp : option Z) :
  isApplyingRemoteChange st = false ->
  (forall t, timestamp = Some t -> 0 <= t) ->
  let update := WorkflowOperation (RemoteUpdatePosition id position timestamp) in
  let applied := [StoreCall (updatePositionCall id position)] in
  snd (handleRemote update
         (fst (handleRemote (WorkflowOperation (RemoteRemoveBlock id)) st)))
  = applied
  /\ (forall other, other <> id ->
        lastPositionTimestamps
          (fst (handleRemote (WorkflowOperation (RemoteRemoveBlock id)) st))
          !! other
        = lastPositionTimestamps st !! other)
  /\ (forall ctx,
        optTruthy (activeWorkflowId ctx) = true ->
        optStringEq (currentWorkflowId ctx) (activeWorkflowId ctx) = false ->
        snd (handleRemote update (onActiveWorkflowChange ctx st)) = applied).
Proof.
  intros Hf Hpos update applied. subst update applied.
  unfold handleRemote.
  rewrite (handleWorkflowOperation_unflagged (RemoteRemoveBlock id) st Hf).
  cbn [fst snd applyRemoteOperation]. split; [|split].
  - rewrite handleWorkflowOperation_unflagged by done.
    cbn [fst snd setApplying setTimestamps lastPositionTimestamps].
    rewrite remove_then_update; [done | done|].
    unfold lastTimestampOf. by rewrite lookup_delete_eq.
  - intros other Hne. cbn. by rewrite lookup_delete_ne.
  - intros ctx Hact Hne. unfold onActiveWorkflowChange. rewrite Hact, Hne.
    cbn [andb negb].
    rewrite handleWorkflowOperation_unflagged by done.
    cbn [fst snd setApplying setTimestamps lastPositionTimestamps].
    by rewrite remove_then_update.
Qed.

Lemma removal_resets_position_timestamp_witness :
  snd (handleRemote
         (WorkflowOperation (RemoteUpdatePosition "block-1" samplePosition (Some 3)))
         (fst (handleRemote (WorkflowOperation (RemoteRemoveBlock "block-1"))
                 trackedState)))
  = [StoreCall (updatePositionCall "block-1" samplePosition)].
Proof.
  refine (proj1 (removal_resets_position_timestamp trackedState "block-1"
                   samplePosition (Some 3) eq_refl _)).
  intros t [= <-]. lia.
Defined.

(** Without the removal the same update is dropped as stale. *)
Example stale_update_is_dropped :
  snd (handleRemote
         (WorkflowOperation (RemoteUpdatePosition "block-1" samplePosition (Some 3)))
         trackedState) = [].
Proof. reflexivity. Qed.


(** X17: a change of the iteration count of a loop or a parallel block
    applies the count as given to the local store, but tells the server
    the count clamped to 1..100 (loops) or 1..20 (parallels): the two
    agree exactly when the count is within that range. *)
Theorem iteration_count_is_clamped_for_the_server (ctx : Ctx) (st : HookState)
  (nodeId iterationType : string) (count : Z) (childNodes : list string)
  (data : option (gmap string jsval)) (block : BlockState) :
  mayEdit ctx st = true ->
  blocks ctx nodeId = Some block -> blockType block = iterationType ->
  exists op storeMethod sent,
    SubflowConfig.updateIterationCount ctx nodeId iterationType count childNodes
      data st
    = (drawUUID st,
       [AddToQueue op;
        StoreCall (call storeMethod [JStr nodeId; JNum count])])
    /\ opOperation op = "update" /\ opTarget op = "subflow"
    /\ configuredCount (opPayload op) = Some sent
    /\ sent = Z.max 1 (Z.min (countLimit iterationType) count)
    /\ 1 <= sent <= countLimit iterationType
    /\ (sent = count <-> 1 <= count <= countLimit iterationType).
Proof.
  intros Hedit Hblock Htype.
  unfold SubflowConfig.updateIterationCount, collaborativeUpdateIterationCount,
    subflowUpdate.
  rewrite Hblock, Htype, String.eqb_refl. simpl negb. cbv iota.
  rewrite CollabProofs.executeQueuedOperation_spec, Hedit.
  eexists _, _, (Z.max 1 (Z.min (countLimit iterationType) count)).
  split; [reflexivity|]. split; [done|]. split; [done|].
  unfold SubflowConfig.iterationCountPayload, countLimit.
  destruct (String.eqb iterationType "loop"); simpl;
    (split; [reflexivity|]); (split; [reflexivity|]); lia.
Qed.

Lemma iteration_count_is_clamped_for_the_server_witness :
  exists op,
    SubflowConfig.updateIterationCount loopCtx "loop-1" "loop" 250 ["child-1"]
      None idle
    = (drawUUID idle,
       [AddToQueue op;
        StoreCall (call "workflowStore.updateLoopCount" [JStr "loop-1"; JNum 250])])
    /\ configuredCount (opPayload op) = Some 100.
Proof.
  destruct (iteration_count_is_clamped_for_the_server loopCtx idle "loop-1" "loop"
              250 ["child-1"] None
              {| blockType := "loop"; isWide := false; advancedMode := false;
                 triggerMode := false; horizontalHandles := true |}
              eq_refl eq_refl eq_refl)
    as (op & method & sent & Hrun & _ & _ & Hsent & -> & _).
  exists op. split; [|exact Hsent].
  rewrite Hrun. vm_compute in Hrun. by injection Hrun as <- <-.
Defined.

End CollabExtraProofs.

(* ===================================================================== *)
(** * Properties of the script handed to the VM                         *)
(* ===================================================================== *)

Module FunctionScriptProofs.

Import Js FunctionExecute FunctionScript FunctionScriptSpec.

Lemma splitLines_nonempty (s : string) : splitLines s <> [].
Proof.
  induction s as [|c s IH]; simpl; [done|].
  destruct (Ascii.eqb c "010"); [done|]. by destruct (splitLines s).
Qed.

Lemma splitLines_singleLine (s : string) :
  singleLine s = true -> splitLines s = [s].
Proof.
  induction s as [|c s IH]; simpl; [done|].
  destruct (Ascii.eqb c "010"); simpl; [done|].
  intros H. by rewrite IH.
Qed.

Lemma splitLines_lines (s : string) :
  Forall (fun l => singleLine l = true) (splitLines s).
Proof.
  induction s as [|c s IH]; simpl.
  - by repeat constructor.
  - destruct (Ascii.eqb c "010") eqn:Hc.
    + by constructor.
    + destruct (splitLines s) as [|l ls];
        [constructor; [simpl; by rewrite Hc | constructor]|].
      apply Forall_cons in IH as [Hl Hls]. constructor; [|done].
      simpl. by rewrite Hc.
Qed.

Lemma singleLine_app (a b : string) :
  singleLine (a +:+ b) = singleLine a && singleLine b.
Proof.
  induction a as [|c a IH]; [done|]. rewrite FunctionExecuteProofs.append_cons. simpl.
  rewrite IH. by rewrite andb_assoc.
Qed.

(** Splitting distributes over a line feed. *)
Lemma splitLines_newline (a b : string) :
  splitLines (a +:+ String "010" b) = splitLines a ++ splitLines b.
Proof.
  induction a as [|c a IH].
  - reflexivity.
  - rewrite FunctionExecuteProofs.append_cons. simpl. rewrite IH.
    destruct (Ascii.eqb c "010"); [done|].
    pose proof (splitLines_nonempty a) as Hne.
    by destruct (splitLines a).
Qed.

Lemma splitLines_joinLines (ls : list string) :
  ls <> [] -> Forall (fun l => singleLine l = true) ls ->
  splitLines (joinLines ls) = ls.
Proof.
  induction ls as [|l ls IH]; [done|]. intros _ Hall.
  apply Forall_cons in Hall as [Hl Hls].
  destruct ls as [|l2 ls].
  - by apply splitLines_singleLine.
  - change (joinLines (l :: l2 :: ls))
      with (l +:+ String "010" (joinLines (l2 :: ls))).
    rewrite splitLines_newline, splitLines_singleLine by done.
    simpl. f_equal. by apply IH.
Qed.

Lemma splitLines_indented (ls : list string) :
  ls <> [] -> Forall (fun l => singleLine l = true) ls ->
  splitLines ("    " +:+ joinWith (String "010" "    ") ls)
  = map (fun l => "    " +:+ l) ls.
Proof.
  induction ls as [|l ls IH]; [done|]. intros _ Hall.
  apply Forall_cons in Hall as [Hl Hls].
  destruct ls as [|l2 ls].
  - simpl joinWith. simpl map. apply splitLines_singleLine.
    by rewrite singleLine_app, Hl.
  - change (joinWith (String "010" "    ") (l :: l2 :: ls))
      with (l +:+ String "010" "    "
              +:+ joinWith (String "010" "    ") (l2 :: ls)).
    change (String "010" "    " +:+ joinWith (String "010" "    ") (l2 :: ls))
      with (String "010" ("    " +:+ joinWith (String "010" "    ") (l2 :: ls))).
    rewrite <- FunctionExecuteProofs.append_assoc', splitLines_newline.
    rewrite splitLines_singleLine by (by rewrite singleLine_app, Hl).
    rewrite IH by done. reflexivity.
Qed.

Lemma wrapperLines_single (isCustomTool : bool) (paramKeys : list string) :
  (isCustomTool = true -> Forall (fun k => singleLine k = true) paramKeys) ->
  Forall (fun l => singleLine l = true) (wrapperLines isCustomTool paramKeys).
Proof.
  intros Hkeys. unfold wrapperLines.
  apply Forall_app. split; [by repeat constructor|].
  destruct isCustomTool; [|constructor].
  constructor; [done|]. apply Forall_fmap.
  assert (Forall (fun k => singleLine k = true) (executionParamKeys paramKeys))
    as Hall.
  { unfold executionParamKeys. destruct (existsb _ _); [by apply Hkeys|].
    apply Forall_app. split; [by apply Hkeys | by repeat constructor]. }
  eapply Forall_impl; [exact Hall|]. intros k Hk. simpl.
  by rewrite !singleLine_app, Hk.
Qed.

(** The lines of the script: the wrapper lines, the lines of the user's
    code indented by four spaces, and the five closing lines. *)
Lemma fullScript_lines (isCustomTool : bool) (paramKeys : list string)
  (resolvedCode : string) :
  (isCustomTool = true -> Forall (fun k => singleLine k = true) paramKeys) ->
  splitLines (fullScript isCustomTool paramKeys resolvedCode)
  = wrapperLines isCustomTool paramKeys
    ++ map (fun l => "    " +:+ l) (splitLines resolvedCode)
    ++ ["  } catch (error) {"; "    console.error(error);"; "    throw error;";
        "  }"; "})()"].
Proof.
  intros Hkeys. unfold fullScript.
  pose proof (wrapperLines_single isCustomTool paramKeys Hkeys) as Hw.
  induction (wrapperLines isCustomTool paramKeys) as [|w ws IH].
  - cbn [app joinLines].
    change (splitLines (indentedCode resolvedCode
                        +:+ String "010" (joinLines
                          ["  } catch (error) {"; "    console.error(error);";
                           "    throw error;"; "  }"; "})()"])) =
            map (fun l => "    " +:+ l) (splitLines resolvedCode)
            ++ ["  } catch (error) {"; "    console.error(error);";
                "    throw error;"; "  }"; "})()"]).
    rewrite splitLines_newline. unfold indentedCode.
    rewrite splitLines_indented
      by (apply splitLines_nonempty || apply splitLines_lines).
    reflexivity.
  - apply Forall_cons in Hw as [Hw1 Hws].
    change ((w :: ws) ++ ?x) with (w :: (ws ++ x)).
    destruct (ws ++ [indentedCode resolvedCode; "  } catch (error) {";
                     "    console.error(error);"; "    throw error;"; "  }"; "})()"])
      as [|y ys] eqn:Hrest.
    { by destruct ws. }
    change (joinLines (w :: y :: ys)) with (w +:+ String "010" (joinLines (y :: ys))).
    rewrite splitLines_newline, splitLines_singleLine by done.
    rewrite IH by done. reflexivity.
Qed.

Lemma lineAt_app_r (a b : list string) (k : Z) :
  0 <= k -> lineAt (a ++ b) (Z.of_nat (length a) + k) = lineAt b k.
Proof.
  intros Hk. unfold lineAt.
  destruct (Z.ltb_spec (Z.of_nat (length a) + k) 0); [lia|].
  destruct (Z.ltb_spec k 0); [lia|].
  replace (Z.to_nat (Z.of_nat (length a) + k)) with (length a + Z.to_nat k)%nat
    by lia.
  by rewrite nth_error_app2, Nat.add_comm, Nat.add_sub by lia.
Qed.

Lemma lineAt_app_l (a b : list string) (k : Z) (t : string) :
  lineAt a k = Some t -> lineAt (a ++ b) k = Some t.
Proof.
  unfold lineAt. destruct (k <? 0); [done|]. intros H.
  rewrite nth_error_app1; [done|]. apply nth_error_Some. congruence.
Qed.

Lemma lineAt_map (f : string -> string) (l : list string) (k : Z) :
  lineAt (map f l) k = option_map f (lineAt l k).
Proof.
  unfold lineAt. destruct (k <? 0); [done|]. apply nth_error_map.
Qed.

Lemma user_code_line_in_script (isCustomTool : bool)
  (paramKeys : list string) (resolvedCode : string) (k : Z) (text : string) :
  (isCustomTool = true -> Forall (fun key => singleLine key = true) paramKeys) ->
  lineAt (splitLines resolvedCode) (k - 1) = Some text ->
  scriptLine (fullScript isCustomTool paramKeys resolvedCode)
             (userCodeStartLine isCustomTool paramKeys + k - 1)
  = Some ("    " +:+ text).
Proof.
  intros Hkeys Hline. unfold scriptLine, userCodeStartLine.
  rewrite fullScript_lines by done.
  assert (0 <= k - 1) as Hk.
  { unfold lineAt in Hline. destruct (Z.ltb_spec (k - 1) 0); [done | lia]. }
  replace (Z.of_nat (length (wrapperLines isCustomTool paramKeys)) + 1 + k - 1 - 1)
    with (Z.of_nat (length (wrapperLines isCustomTool paramKeys)) + (k - 1)) by lia.
  rewrite lineAt_app_r by done.
  apply lineAt_app_l. by rewrite lineAt_map, Hline.
Qed.

(** X18: the script handed to the VM is made of the wrapper lines, the
    lines of the user's code indented by four spaces, and five closing
    lines; line [k] of the user's code is therefore line
    [userCodeStartLine + k - 1] of the script: the offset that
    [extractEnhancedError] subtracts is the one [POST] adds, provided no
    parameter name of a custom tool contains a line feed. *)
Theorem user_code_starts_at_userCodeStartLine (isCustomTool : bool)
  (paramKeys : list string) (resolvedCode : string) :
  (isCustomTool = true -> Forall (fun key => singleLine key = true) paramKeys) ->
  (forall k text,
     lineAt (splitLines resolvedCode) (k - 1) = Some text ->
     scriptLine (fullScript isCustomTool paramKeys resolvedCode)
                (userCodeStartLine isCustomTool paramKeys + k - 1)
     = Some ("    " +:+ text))
  /\ Z.of_nat (length (splitLines (fullScript isCustomTool paramKeys resolvedCode)))
     = userCodeStartLine isCustomTool paramKeys - 1
       + Z.of_nat (length (splitLines resolvedCode)) + 5.
Proof.
  intros Hkeys. split.
  - intros k text. by apply user_code_line_in_script.
  - rewrite fullScript_lines by done. unfold userCodeStartLine.
    rewrite !length_app, length_map. simpl. lia.
Qed.

Lemma user_code_starts_at_userCodeStartLine_witness :
  scriptLine (fullScript true ["url"] threeLines) (userCodeStartLine true ["url"] + 2 - 1)
  = Some "      a.b.c()".
Proof.
  destruct (user_code_starts_at_userCodeStartLine true ["url"] threeLines
              ltac:(by repeat constructor)) as [Hline _].
  exact (Hline 2 "  a.b.c()" eq_refl).
Defined.

(** A parameter name with a line feed shifts the user's code: the first
    line of the code is no longer at [userCodeStartLine]. *)
Example multi_line_parameter_name_shifts_the_code :
  scriptLine (fullScript true ["a" +:+ String "010" "b"] threeLines)
             (userCodeStartLine true ["a" +:+ String "010" "b"])
  <> Some "    const a = 1".
Proof. vm_compute. discriminate. Qed.

End FunctionScriptProofs.

(* ===================================================================== *)
(** * Further properties of the error enhancement                       *)
(* ===================================================================== *)

Module FunctionExecuteExtraProofs.

Import Js FunctionExecute FunctionExecuteSpec FunctionExecuteExtraSpec.

Lemma spanDigits_allDigits (s : string) :
  allDigits (fst (spanDigits s)) = true.
Proof.
  induction s as [|c s IH]; simpl; [done|].
  destruct (isDigit c) eqn:Hc; [|done].
  destruct (spanDigits s) as [ds rest]. simpl in *. by rewrite Hc.
Qed.

Lemma readDigits_allDigits (s : string) : forall acc : option Z,
  allDigits s = true ->
  (forall a, acc = Some a -> 0 <= a) ->
  (s <> "" \/ acc <> None) ->
  exists v, readDigits decimalStep acc s = Some v /\ 0 <= v.
Proof.
  induction s as [|c s IH]; intros acc Hall Hacc Hne; simpl.
  - destruct acc as [a|]; [|by destruct Hne]. exists a. split; [done|]. by apply Hacc.
  - simpl in Hall. apply andb_true_iff in Hall as [Hc Hs].
    unfold decimalStep at 1. rewrite Hc.
    apply IH; [done| |by right].
    intros a [= <-].
    assert (0 <= digitValue c) as Hd.
    { unfold digitValue. unfold isDigit in Hc.
      apply andb_true_iff in Hc as [Hlo _]. apply N.leb_le in Hlo. lia. }
    destruct acc as [a0|]; [specialize (Hacc a0 eq_refl)|]; lia.
Qed.

Lemma digit_not_space (c : ascii) : isDigit c = true -> isWhiteSpace c = false.
Proof.
  unfold isDigit, isWhiteSpace. intros H.
  apply andb_true_iff in H as [Hlo Hhi].
  apply N.leb_le in Hlo. apply N.leb_le in Hhi.
  destruct (N.leb_spec 9 (N_of_ascii c)); destruct (N.leb_spec (N_of_ascii c) 13);
    destruct (N.eqb_spec (N_of_ascii c) 32); destruct (N.eqb_spec (N_of_ascii c) 160);
    simpl; try done; lia.
Qed.

Lemma digit_not_sign (c : ascii) (s : string) :
  isDigit c = true -> readSign (String c s) = (1, String c s).
Proof.
  intros H. unfold readSign.
  destruct c as [[] [] [] [] [] [] [] []]; try done.
Qed.

(** A non-empty string of digits is read back as a number. *)
Lemma parseInt10_digits (d : string) :
  allDigits d = true -> truthy d = true ->
  exists L, parseInt10 d = Some L /\ 0 <= L.
Proof.
  intros Hall Hne. destruct d as [|c d]; [done|].
  unfold parseInt10. simpl in Hall.
  pose proof Hall as Hall'. apply andb_true_iff in Hall' as [Hc _].
  simpl trimStart. rewrite (digit_not_space c Hc), (digit_not_sign c d Hc).
  destruct (readDigits_allDigits (String c d) None) as (v & -> & Hv);
    [done | done | by left|].
  exists v. split; [f_equal; lia | done].
Qed.

Lemma lineAndColumn_digits (optional : bool) (s g1 : string) (g2 : option string) :
  lineAndColumn optional s = Some (g1, g2) ->
  allDigits g1 = true /\ truthy g1 = true.
Proof.
  unfold lineAndColumn. pose proof (spanDigits_allDigits s) as Hd.
  destruct (spanDigits s) as [d1 rest]. simpl in Hd.
  destruct (truthy d1) eqn:Ht; [|done].
  destruct (match rest with String ":" _ => _ | _ => None end);
    [by intros [= <- <-]|].
  destruct optional; [by intros [= <- <-] | done].
Qed.

Lemma matchFrame_digits (l g1 : string) (g2 : option string) :
  matchFrame l = Some (g1, g2) -> allDigits g1 = true /\ truthy g1 = true.
Proof.
  induction l as [|c l IH]; simpl.
  - unfold frameAt. simpl. done.
  - destruct (frameAt (String c l)) as [m|] eqn:Hf.
    + intros [= ->]. unfold frameAt in Hf.
      destruct (stripPrefix _ _); [|done]. by eapply lineAndColumn_digits.
    + exact IH.
Qed.

(** The loop stops at the first line that names [user-function.js]. *)
Lemma scanStack_stops_at_first_frame (error : VmError) (start : Z)
  (userCode : option string) (before after : list string) (frame g1 : string)
  (g2 : option string) :
  Forall (fun l => matchFrame l = None) before ->
  matchFrame frame = Some (g1, g2) ->
  exists L loc,
    parseInt10 g1 = Some L /\ 0 <= L
    /\ scanStack error start userCode (before ++ frame :: after) = Some loc
    /\ scanStack error start userCode [frame] = Some loc.
Proof.
  intros Hbefore Hframe.
  destruct (matchFrame_digits _ _ _ Hframe) as [Hd Ht].
  destruct (parseInt10_digits g1 Hd Ht) as (L & HL & Hpos).
  exists L. rewrite FunctionExecuteProofs.scanStack_skip by done. simpl.
  rewrite FunctionExecuteProofs.matchStackLine_matchFrame, Hframe, HL.
  destruct (if isWrapperSyntaxError error L start then userCodeOf userCode else None);
    [by eauto|].
  destruct (Z.gtb_spec (L - start + 1) 0); [by eauto|].
  destruct (Z.leb_spec L start); [by eauto | lia].
Qed.




Lemma extract_at_first_frame (error : VmError) (start : Z)
  (userCode : option string) (s : string) (before after : list string)
  (frame g1 : string) (g2 : option string) (L : Z) :
  errStack error = Some s -> s <> "" ->
  splitLines s = before ++ frame :: after ->
  Forall (fun l => matchFrame l = None) before ->
  matchFrame frame = Some (g1, g2) ->
  parseInt10 g1 = Some L ->
  let enhanced := extractEnhancedError error start userCode in
  let loc := scanStack error start userCode [frame] in
  line enhanced = match loc with Some (l, _, _) => l | None => None end
  /\ column enhanced = match loc with Some (_, c, _) => c | None => None end
  /\ lineContent enhanced = match loc with Some (_, _, t) => t | None => None end.
Proof.
  intros Hstack Hs Hsplit Hbefore Hframe HL enhanced loc. subst enhanced loc.
  unfold extractEnhancedError. rewrite Hstack.
  destruct s as [|c s]; [done|]. simpl truthy. cbv iota. rewrite Hsplit.
  destruct (scanStack_stops_at_first_frame error start userCode before after
              frame g1 g2 Hbefore Hframe) as (L' & loc & _ & _ & -> & ->).
  done.
Qed.

Lemma lineAt_last (l : list string) :
  lineAt l (Z.of_nat (length l) - 1) = last l.
Proof.
  unfold lineAt. destruct l as [|x l]; [done|].
  destruct (Z.ltb_spec (Z.of_nat (length (x :: l)) - 1) 0) as [H|_];
    [simpl in H; lia|].
  replace (Z.to_nat (Z.of_nat (length (x :: l)) - 1)) with (length l)
    by (simpl; lia).
  revert x. induction l as [|y l IH]; intros x; [done|].
  simpl. rewrite IH. reflexivity.
Qed.

(** X20: a syntax error that the VM reports as an unexpected token or an
    unexpected end of input, on any script line below the first line of
    the user's code, is attributed to the last line of the user's code,
    whatever line the VM named: the reported line is the number of lines
    of the code, the column the length of its last line and the content
    its last line, trimmed. *)
Theorem wrapper_syntax_error_points_at_last_line (error : VmError) (start : Z)
  (code s : string) (before after : list string) (frame g1 : string)
  (g2 : option string) (L : Z) :
  errStack error = Some s -> s <> "" -> code <> "" ->
  splitLines s = before ++ frame :: after ->
  Forall (fun l => matchFrame l = None) before ->
  matchFrame frame = Some (g1, g2) ->
  parseInt10 g1 = Some L ->
  start < L ->
  errName error = "SyntaxError" ->
  includes (errMessage error) "Unexpected token" = true
  \/ includes (errMessage error) "Unexpected end of input" = true ->
  let enhanced := extractEnhancedError error start (Some code) in
  exists lastText,
    last (splitLines code) = Some lastText
    /\ line enhanced = Some (Z.of_nat (length (splitLines code)))
    /\ column enhanced = Some (Z.of_nat (String.length lastText))
    /\ lineContent enhanced = Some (trim lastText).
Proof.
  intros Hstack Hs Hcode Hsplit Hbefore Hframe HL Hgt Hname Hmsg enhanced.
  destruct (extract_at_first_frame error start (Some code) s before after frame
              g1 g2 L Hstack Hs Hsplit Hbefore Hframe HL) as (Hl & Hc & Ht).
  fold enhanced in Hl, Hc, Ht.
  cbn [scanStack] in Hl, Hc, Ht.
  rewrite FunctionExecuteProofs.matchStackLine_matchFrame, Hframe, HL in Hl, Hc, Ht.
  assert (isWrapperSyntaxError error L start = true) as Hw.
  { unfold isWrapperSyntaxError. rewrite Hname. simpl.
    destruct (Z.gtb_spec L start); [|lia]. simpl.
    by destruct Hmsg as [-> | ->]; rewrite ?orb_true_r. }
  rewrite Hw in Hl, Hc, Ht.
  destruct code as [|c0 code]; [done|]. simpl userCodeOf in Hl, Hc, Ht. cbv iota in Hl, Hc, Ht.
  rewrite lineAt_last in Hc, Ht.
  destruct (last (splitLines (String c0 code))) as [lastText|] eqn:Hlast.
  - exists lastText. by rewrite Hl, Hc, Ht.
  - apply last_None in Hlast.
    by destruct (FunctionScriptProofs.splitLines_nonempty (String c0 code)).
Qed.

Lemma wrapper_syntax_error_points_at_last_line_witness :
  line (extractEnhancedError wrapperSyntaxError 3 (Some unclosedCode)) = Some 2
  /\ lineContent (extractEnhancedError wrapperSyntaxError 3 (Some unclosedCode))
     = Some "if (a) {".
Proof.
  destruct (wrapper_syntax_error_points_at_last_line wrapperSyntaxError 3
              unclosedCode
              ("user-function.js:5" +:+ String "010" "  } catch (error) {")
              [] ["  } catch (error) {"] "user-function.js:5" "5" None 5
              eq_refl ltac:(done) ltac:(done) eq_refl ltac:(constructor)
              eq_refl eq_refl ltac:(lia) eq_refl (or_introl eq_refl))
    as (lastText & Hlast & Hline & _ & Htext).
  split; [exact Hline|].
  injection Hlast as <-. exact Htext.
Defined.

(** X21: a first frame above the user's code (a line of the wrapper) is
    reported with the line number of the script itself, not of the user's
    code, and without line content. *)
Theorem wrapper_frame_keeps_script_line (error : VmError) (start : Z)
  (userCode : option string) (s : string) (before after : list string)
  (frame g1 : string) (g2 : option string) (L : Z) :
  errStack error = Some s -> s <> "" ->
  splitLines s = before ++ frame :: after ->
  Forall (fun l => matchFrame l = None) before ->
  matchFrame frame = Some (g1, g2) ->
  parseInt10 g1 = Some L ->
  L < start ->
  let enhanced := extractEnhancedError error start userCode in
  line enhanced = Some L
  /\ column enhanced = columnOf g2
  /\ lineContent enhanced = None.
Proof.
  intros Hstack Hs Hsplit Hbefore Hframe HL Hlt enhanced.
  destruct (extract_at_first_frame error start userCode s before after frame
              g1 g2 L Hstack Hs Hsplit Hbefore Hframe HL) as (Hl & Hc & Ht).
  fold enhanced in Hl, Hc, Ht.
  cbn [scanStack] in Hl, Hc, Ht.
  rewrite FunctionExecuteProofs.matchStackLine_matchFrame, Hframe, HL in Hl, Hc, Ht.
  assert (isWrapperSyntaxError error L start = false) as Hw.
  { unfold isWrapperSyntaxError. destruct (Z.gtb_spec L start); [lia | done]. }
  rewrite Hw in Hl, Hc, Ht.
  destruct (Z.gtb_spec (L - start + 1) 0); [lia|].
  destruct (Z.leb_spec L start); [|lia].
  done.
Qed.

Lemma wrapper_frame_keeps_script_line_witness :
  line (extractEnhancedError wrapperFrameError 3 (Some unclosedCode)) = Some 1
  /\ lineContent (extractEnhancedError wrapperFrameError 3 (Some unclosedCode))
     = None.
Proof.
  destruct (wrapper_frame_keeps_script_line wrapperFrameError 3 (Some unclosedCode)
              ("Error: boom" +:+ String "010" "    at user-function.js:1:1")
              ["Error: boom"] [] "    at user-function.js:1:1" "1" (Some "1") 1
              eq_refl ltac:(done) eq_refl ltac:(by repeat constructor)
              eq_refl eq_refl ltac:(lia))
    as (Hline & _ & Htext).
  by split.
Defined.





End FunctionExecuteExtraProofs.

(* ===================================================================== *)
(** * Names of duplicated blocks                                        *)
(* ===================================================================== *)

Module DuplicateNameProofs.

Import Js DuplicateName DuplicateNameSpec FunctionExecuteExtraSpec.

Lemma of_uint_acc_value (d : Decimal.uint) : forall acc : positive,
  Z.pos (Pos.of_uint_acc d acc) = uintValue d (Z.pos acc).
Proof.
  induction d as [|d IH|d IH|d IH|d IH|d IH|d IH|d IH|d IH|d IH|d IH];
    intros acc; simpl; [done|..]; rewrite IH; f_equal; lia.
Qed.

Lemma of_uint_value (d : Decimal.uint) : Z.of_N (Pos.of_uint d) = uintValue d 0.
Proof.
  induction d as [|d IH|d IH|d IH|d IH|d IH|d IH|d IH|d IH|d IH|d IH];
    simpl; [done | exact IH | ..]; apply of_uint_acc_value.
Qed.

Lemma readDigits_digit (c : ascii) (s : string) (acc : option Z) :
  isDigit c = true ->
  readDigits decimalStep acc (String c s)
  = readDigits decimalStep (Some (10 * default 0 acc + digitValue c)) s.
Proof.
  intros Hc. cbn [readDigits]. unfold decimalStep at 1. rewrite Hc.
  by destruct acc.
Qed.

Lemma readDigits_uint (d : Decimal.uint) : forall acc : option Z,
  readDigits decimalStep acc (NilEmpty.string_of_uint d)
  = match d with
    | Decimal.Nil => acc
    | _ => Some (uintValue d (default 0 acc))
    end.
Proof.
  induction d as [|d IH|d IH|d IH|d IH|d IH|d IH|d IH|d IH|d IH|d IH];
    intros acc; [done|..];
    cbn [NilEmpty.string_of_uint]; rewrite readDigits_digit by done;
    rewrite IH; cbn [default uintValue];
    change (digitValue "0") with 0; change (digitValue "1") with 1;
    change (digitValue "2") with 2; change (digitValue "3") with 3;
    change (digitValue "4") with 4; change (digitValue "5") with 5;
    change (digitValue "6") with 6; change (digitValue "7") with 7;
    change (digitValue "8") with 8; change (digitValue "9") with 9;
    rewrite ?Z.add_0_r; by destruct d.
Qed.

Lemma uint_allDigits (d : Decimal.uint) :
  allDigits (NilEmpty.string_of_uint d) = true.
Proof.
  induction d as [|d IH|d IH|d IH|d IH|d IH|d IH|d IH|d IH|d IH|d IH];
    simpl; done.
Qed.

Lemma to_uint_not_nil (p : positive) : Pos.to_uint p <> Decimal.Nil.
Proof.
  intros H. pose proof (DecimalPos.Unsigned.of_to p) as Hp.
  rewrite H in Hp. done.
Qed.

(** The decimal numeral of a number that is not negative. *)
Lemma numberToString_uint (k : Z) :
  0 <= k ->
  exists d, numberToString k = NilEmpty.string_of_uint d
            /\ d <> Decimal.Nil /\ uintValue d 0 = k.
Proof.
  intros Hk. unfold numberToString.
  pose proof (DecimalZ.of_to k) as Hround.
  destruct k as [|p|p]; [| |lia].
  - exists (Decimal.D0 Decimal.Nil). by repeat split.
  - exists (Pos.to_uint p). simpl. split; [done|]. split; [apply to_uint_not_nil|].
    simpl in Hround. by rewrite <- of_uint_value.
Qed.

Lemma digits_parse (s : string) :
  allDigits s = true -> Js.parseInt s = parseInt10 s.
Proof.
  intros Hs. unfold Js.parseInt, parseInt10.
  destruct s as [|c s]; [done|]. simpl in Hs.
  apply andb_true_iff in Hs as [Hc Hs].
  simpl trimStart.
  rewrite (FunctionExecuteExtraProofs.digit_not_space c Hc),
          (FunctionExecuteExtraProofs.digit_not_sign c s Hc).
  destruct c as [[] [] [] [] [] [] [] []]; try done.
  destruct s as [|x s]; [done|]. simpl in Hs.
  apply andb_true_iff in Hs as [Hx _].
  destruct x as [[] [] [] [] [] [] [] []]; done.
Qed.

(** Reading back the numeral of a number gives the number. *)
Lemma parseInt_numberToString (k : Z) :
  0 <= k -> Js.parseInt (numberToString k) = Some k.
Proof.
  intros Hk. destruct (numberToString_uint k Hk) as (d & -> & Hd & Hv).
  rewrite digits_parse by apply uint_allDigits.
  unfold parseInt10.
  assert (exists c s, NilEmpty.string_of_uint d = String c s /\ isDigit c = true)
    as (c & s & Hcs & Hc).
  { destruct d; try done; simpl; eauto. }
  rewrite Hcs. simpl trimStart.
  rewrite (FunctionExecuteExtraProofs.digit_not_space c Hc),
          (FunctionExecuteExtraProofs.digit_not_sign c s Hc), <- Hcs.
  rewrite readDigits_uint. destruct d; try done; simpl default; rewrite Hv;
    f_equal; lia.
Qed.

Lemma numberToString_digits (k : Z) :
  0 <= k ->
  allDigits (numberToString k) = true /\ truthy (numberToString k) = true.
Proof.
  intros Hk. destruct (numberToString_uint k Hk) as (d & -> & Hd & _).
  split; [apply uint_allDigits|]. by destruct d.
Qed.

Lemma splitTrailingDigits_digits (d : string) :
  allDigits d = true -> splitTrailingDigits d = ("", d).
Proof.
  induction d as [|c d IH]; simpl; [done|].
  intros [Hc Hd]%andb_true_iff. by rewrite IH, Hc.
Qed.

Lemma splitTrailingDigits_app (a d : string) :
  allDigits d = true -> a <> "" -> endsWithoutDigit a = true ->
  splitTrailingDigits (a +:+ d) = (a, d).
Proof.
  intros Hd. induction a as [|c a IH]; [done|]. intros _ Hend.
  rewrite FunctionExecuteProofs.append_cons. simpl.
  destruct a as [|c2 a].
  - rewrite FunctionExecuteProofs.append_empty, splitTrailingDigits_digits by done.
    simpl in *. by destruct (isDigit c).
  - rewrite IH by done. done.
Qed.

Lemma splitTrailingDigits_none (a : string) :
  endsWithoutDigit a = true -> splitTrailingDigits a = (a, "").
Proof.
  intros Hend. destruct a as [|c a]; [done|].
  pose proof (splitTrailingDigits_app (String c a) "" eq_refl) as H.
  assert (String c a +:+ "" = String c a) as Happ.
  { clear. induction (String c a) as [|x s IH]; [done|].
    rewrite FunctionExecuteProofs.append_cons. by f_equal. }
  rewrite Happ in H. by apply H.
Qed.

Lemma afterLastTerminator_none (s : string) :
  hasLineTerminator s = false -> afterLastTerminator s = s.
Proof.
  destruct s as [|c s]; [done|]. simpl.
  intros [Hc Hs]%orb_false_iff. by rewrite Hs, Hc.
Qed.

Lemma endsWithoutDigit_space (name : string) :
  endsWithoutDigit (name +:+ " ") = true.
Proof.
  induction name as [|c name IH]; [done|].
  rewrite FunctionExecuteProofs.append_cons.
  destruct name as [|c2 name]; [done|]. exact IH.
Qed.

Lemma hasLineTerminator_app (a b : string) :
  hasLineTerminator (a +:+ b) = hasLineTerminator a || hasLineTerminator b.
Proof.
  induction a as [|c a IH]; [done|].
  rewrite FunctionExecuteProofs.append_cons. simpl. by rewrite IH, orb_assoc.
Qed.

(** X24: the name given to the copy of a block. A name that does not end
    in a digit gets [" 1"] appended; and the copies count up: the copy of
    a block called [name k] (a single-line name, a space and a number) is
    called [name k+1], as long as the number stays below 2^53. *)
Theorem duplicate_names_count_up (name : string) :
  (endsWithoutDigit name = true -> duplicateName name = name +:+ " 1")
  /\ (forall k,
        hasLineTerminator name = false -> 0 <= k < 2 ^ 53 - 1 ->
        duplicateName (name +:+ " " +:+ numberToString k)
        = name +:+ " " +:+ numberToString (k + 1)).
Proof.
  split.
  - intros Hend. unfold duplicateName, nameMatch.
    by rewrite splitTrailingDigits_none.
  - intros k Hterm [Hk _]. unfold duplicateName, nameMatch.
    destruct (numberToString_digits k Hk) as [Hd Ht].
    rewrite <- FunctionExecuteProofs.append_assoc'.
    rewrite splitTrailingDigits_app; [|done|by destruct name|
                                       apply endsWithoutDigit_space].
    rewrite Ht, afterLastTerminator_none, parseInt_numberToString by
      (done || by rewrite hasLineTerminator_app, Hterm).
    apply FunctionExecuteProofs.append_assoc'.
Qed.

Lemma duplicate_names_count_up_witness :
  duplicateName "Agent" = "Agent 1"
  /\ duplicateName ("Agent" +:+ " " +:+ numberToString 9)
     = "Agent" +:+ " " +:+ numberToString (9 + 1).
Proof.
  destruct (duplicate_names_count_up "Agent") as [Hfirst Hnext].
  split; [by apply Hfirst|]. apply Hnext; [done | lia].
Defined.

Example duplicate_name_examples :
  duplicateName "Agent 9" = "Agent 10"
  /\ duplicateName "Step007" = "Step8"
  /\ duplicateName "42" = "43".
Proof. repeat split; vm_compute; reflexivity. Qed.

End DuplicateNameProofs.

(* ===================================================================== *)
(** * Properties of the variable resolution                             *)
(* ===================================================================== *)

Module CodeVariablesProofs.

Import Js CodeVariables CodeVariablesSpec.


Lemma sanitize_length (name : string) :
  String.length (sanitize name) = String.length name.
Proof. induction name as [|c rest IH]; simpl; [done | by rewrite IH]. Qed.

Lemma sanitize_fixed (name : string) :
  identChars name = true -> sanitize name = name.
Proof.
  induction name as [|c rest IH]; simpl; [done|].
  intros [Hc Hrest]%andb_true_iff. by rewrite Hc, IH.
Qed.

Section ValueFacts.

Variable Value : Type.
Variable isTruthy : Value -> bool.
Variable isObject : Value -> bool.
Variable readProperty : Value -> string -> Value.
Variable undefinedValue : Value.
Variable emptyString : Value.





Lemma splitOn_nonempty (sep : ascii) (s : string) : splitOn sep s <> [].
Proof.
  induction s as [|c s IH]; simpl; [done|].
  destruct (Ascii.eqb c sep); [done|]. by destruct (splitOn sep s).
Qed.

Lemma splitOn_app (sep : ascii) (a b : string) :
  splitOn sep (a +:+ String sep b) = splitOn sep a ++ splitOn sep b.
Proof.
  induction a as [|c a IH].
  - change ("" +:+ String sep b) with (String sep b). simpl.
    by rewrite Ascii.eqb_refl.
  - rewrite FunctionExecuteProofs.append_cons. simpl. rewrite IH.
    destruct (Ascii.eqb c sep); [done|].
    pose proof (splitOn_nonempty sep a) as Hne.
    by destruct (splitOn sep a).
Qed.

Lemma nestedStep_undefined (keys : list string) :
  isTruthy undefinedValue = false ->
  fold_left (nestedStep isTruthy isObject readProperty undefinedValue)
            keys undefinedValue = undefinedValue.
Proof.
  intros Hu. induction keys as [|k keys IH]; [done|].
  simpl. unfold nestedStep at 2. by rewrite Hu.
Qed.

Lemma nestedStep_falsy (keys : list string) (v : Value) :
  isTruthy undefinedValue = false -> isTruthy v = false -> keys <> [] ->
  fold_left (nestedStep isTruthy isObject readProperty undefinedValue) keys v
  = undefinedValue.
Proof.
  intros Hu Hv Hne. destruct keys as [|k keys]; [done|].
  simpl. unfold nestedStep at 2. rewrite Hv. simpl. by apply nestedStep_undefined.
Qed.

Lemma nestedStep_blocked (keys : list string) (v : Value) :
  isTruthy undefinedValue = false -> isTruthy v && isObject v = false ->
  keys <> [] ->
  fold_left (nestedStep isTruthy isObject readProperty undefinedValue) keys v
  = undefinedValue.
Proof.
  intros Hu Hv Hne. destruct keys as [|k keys]; [done|].
  simpl. unfold nestedStep at 2. rewrite Hv. by apply nestedStep_undefined.
Qed.

(** X26: [getNestedValue] follows a dotted path step by step: reading
    [p.q] gives what reading [q] from the value found at [p] gives, for
    non-empty [p] and [q]; when the value found at [p] is falsy or not an
    object, the whole read is [undefined]. *)
Theorem nested_read_composes (obj : Value) (p q : string) :
  isTruthy undefinedValue = false ->
  p <> "" -> q <> "" ->
  let read := getNestedValue isTruthy isObject readProperty undefinedValue in
  read obj (p +:+ String "." q) = read (read obj p) q
  /\ (isTruthy (read obj p) && isObject (read obj p) = false ->
      read obj (p +:+ String "." q) = undefinedValue).
Proof.
  intros Hu Hp Hq read.
  assert (read obj (p +:+ String "." q) = read (read obj p) q) as Hcompose.
  { subst read. unfold getNestedValue.
    assert (truthy p = true) as -> by (by destruct p).
    assert (truthy q = true) as -> by (by destruct q).
    assert (truthy (p +:+ String "." q) = true) as -> by (by destruct p).
    simpl negb. rewrite !orb_false_r.
    destruct (isTruthy obj) eqn:Hobj; simpl negb; cbv iota.
    - rewrite splitOn_app, fold_left_app.
      destruct (isTruthy (fold_left _ (splitOn "." p) obj)) eqn:Hmid; simpl negb;
        cbv iota; [done|].
      apply nestedStep_falsy; [done | done | apply splitOn_nonempty].
    - by rewrite Hu. }
  split; [done|].
  intros Hmid. rewrite Hcompose. clear Hcompose. revert Hmid.
  generalize (read obj p). intros mid Hmid. subst read. unfold getNestedValue.
  destruct (negb (isTruthy mid) || negb (truthy q)); [done|].
  apply nestedStep_blocked; [done | done | apply splitOn_nonempty].
Qed.

End ValueFacts.


Example env_resolution_example :
  fst (resolveEnvironmentVariables jsTruthy (JStr "") sampleCode sampleParams
         sampleEnvVars ∅)
  = "fetch(url, __var_API_KEY, __var_user_id, __var_API_KEY)".
Proof. vm_compute. reflexivity. Qed.

Lemma nested_read_composes_witness :
  getNestedValue jsTruthy jsonIsObject jsonRead JUndefined sampleBlockData
    "agent1.response.content"
  = getNestedValue jsTruthy jsonIsObject jsonRead JUndefined
      (getNestedValue jsTruthy jsonIsObject jsonRead JUndefined sampleBlockData
         "agent1")
      "response.content".
Proof.
  exact (proj1 (nested_read_composes jsval jsTruthy jsonIsObject jsonRead
                  JUndefined sampleBlockData "agent1" "response.content"
                  eq_refl ltac:(done) ltac:(done))).
Defined.

End CodeVariablesProofs.
